(** * Sales, inventory and warranty backend: the sale workflow and the
    warranty services, embedded from the TypeScript sources.

    Conventions of the embedding.
    - A JavaScript [Date] is its time value: the number of milliseconds
      since 1970-01-01T00:00:00Z, an integer.  Where a function works in
      one calendar only, that calendar is taken to be UTC (the API
      documents its dates as ISO 8601 UTC).  [getExpiringWarranties]
      works in three (the local time of the process, UTC, and the time
      zone of the database session): it is given the zones, see
      [TimeZones], and there the range limit of the [Date] type is part
      of the model.
    - A PostgreSQL [DATE] is a day number (days since 1970-01-01).
    - Money ([DECIMAL(10,2)]) is carried in integer cents; the width of
      the column is checked when a row is written.
    - A table with a primary key is a finite map from the key to the row. *)

From Stdlib Require Import ZArith Lia List String Ascii QArith Qround.
From stdpp Require Import gmap strings list fin_maps pretty sorting.

Local Open Scope Z_scope.

(** ** The calendar of ECMAScript time values *)

Module JsDate.

Definition msPerDay : Z := 86400000.

Definition Day (t : Z) : Z := t / msPerDay.
Definition TimeWithinDay (t : Z) : Z := t mod msPerDay.

Definition InLeapYear (y : Z) : bool :=
  (y mod 4 =? 0) && (negb (y mod 100 =? 0) || (y mod 400 =? 0)).

Definition DaysInYear (y : Z) : Z := if InLeapYear y then 366 else 365.

Definition DayFromYear (y : Z) : Z :=
  365 * (y - 1970) + (y - 1969) / 4 - (y - 1901) / 100 + (y - 1601) / 400.

(** The largest year [y] with [DayFromYear y <= d]: an estimate from the
    mean length of a Gregorian year, corrected by at most one. *)
Definition YearFromDay (d : Z) : Z :=
  let y0 := 1970 + (d * 400) / 146097 in
  if d <? DayFromYear y0 then y0 - 1
  else if DayFromYear (y0 + 1) <=? d then y0 + 1
  else y0.

Definition DayWithinYear (d : Z) : Z := d - DayFromYear (YearFromDay d).

(** Days of the year that precede month [m] (0 = January). *)
Definition DaysBeforeMonth (leap : bool) (m : Z) : Z :=
  let l := if leap then 1 else 0 in
  match m with
  | 0 => 0
  | 1 => 31
  | 2 => 59 + l
  | 3 => 90 + l
  | 4 => 120 + l
  | 5 => 151 + l
  | 6 => 181 + l
  | 7 => 212 + l
  | 8 => 243 + l
  | 9 => 273 + l
  | 10 => 304 + l
  | 11 => 334 + l
  | _ => 365 + l
  end.

Definition DaysInMonth (y m : Z) : Z :=
  DaysBeforeMonth (InLeapYear y) (m + 1) - DaysBeforeMonth (InLeapYear y) m.

Definition MonthFromDay (d : Z) : Z :=
  let leap := InLeapYear (YearFromDay d) in
  let n := DayWithinYear d in
  if n <? DaysBeforeMonth leap 1 then 0
  else if n <? DaysBeforeMonth leap 2 then 1
  else if n <? DaysBeforeMonth leap 3 then 2
  else if n <? DaysBeforeMonth leap 4 then 3
  else if n <? DaysBeforeMonth leap 5 then 4
  else if n <? DaysBeforeMonth leap 6 then 5
  else if n <? DaysBeforeMonth leap 7 then 6
  else if n <? DaysBeforeMonth leap 8 then 7
  else if n <? DaysBeforeMonth leap 9 then 8
  else if n <? DaysBeforeMonth leap 10 then 9
  else if n <? DaysBeforeMonth leap 11 then 10
  else 11.

Definition DateFromDay (d : Z) : Z :=
  DayWithinYear d
  - DaysBeforeMonth (InLeapYear (YearFromDay d)) (MonthFromDay d) + 1.

(** [MakeDay year month date]: the month may lie outside 0..11 and the
    date outside the month; both carry over. *)
Definition MakeDay (year month date : Z) : Z :=
  let ym := year + month / 12 in
  let mn := month mod 12 in
  DayFromYear ym + DaysBeforeMonth (InLeapYear ym) mn + date - 1.

Definition MakeDate (day time : Z) : Z := day * msPerDay + time.

(** Getters and setters of [Date.prototype], on the time value. *)
Definition getFullYear (t : Z) : Z := YearFromDay (Day t).
Definition getMonth (t : Z) : Z := MonthFromDay (Day t).
Definition getDate (t : Z) : Z := DateFromDay (Day t).
Definition getTime (t : Z) : Z := t.

Definition setMonth (t month : Z) : Z :=
  MakeDate (MakeDay (getFullYear t) month (getDate t)) (TimeWithinDay t).

Definition setDate (t date : Z) : Z :=
  MakeDate (MakeDay (getFullYear t) (getMonth t) date) (TimeWithinDay t).

(** A [DATE] read from the store arrives as the midnight of its day. *)
Definition ofDATE (d : Z) : Z := MakeDate d 0.

(** Calendar triples, for stating results: year, month (1..12), day. *)
Definition civil (t : Z) : Z * Z * Z :=
  (getFullYear t, getMonth t + 1, getDate t).

Definition ofCivil (y m d : Z) : Z := MakeDate (MakeDay y (m - 1) d) 0.

(** *** Local time

    A time zone gives the offset of its local time from UTC, in
    milliseconds: for a UTC time value and for a local one
    ([LocalTZA(t, true)] and [LocalTZA(t, false)]). *)
Record TimeZone := {
  LocalTZA_utc : Z -> Z;
  LocalTZA_local : Z -> Z
}.

Definition LocalTime (tz : TimeZone) (t : Z) : Z := t + LocalTZA_utc tz t.
Definition UTC (tz : TimeZone) (t : Z) : Z := t - LocalTZA_local tz t.

(** A zone that keeps one offset all year. *)
Definition fixed_zone (offset : Z) : TimeZone :=
  {| LocalTZA_utc := fun _ => offset; LocalTZA_local := fun _ => offset |}.

Definition UTC_zone : TimeZone := fixed_zone 0.

(** A [Date] holds a time value of at most 8.64e15 in absolute value;
    beyond that it is an invalid date ([NaN], here [None]). *)
Definition TimeClip (time : Z) : option Z :=
  if Z.abs time <=? 8640000000000000 then Some time else None.

(** [getDate] and [setDate] as they are: on the local time of the
    process. *)
Definition getDate_in (tz : TimeZone) (t : Z) : Z := getDate (LocalTime tz t).

Definition setDate_in (tz : TimeZone) (t date : Z) : option Z :=
  TimeClip (UTC tz (setDate (LocalTime tz t) date)).

(** [toISOString().split('T')[0]] of a valid date, as the store reads the
    text for a [DATE]: the UTC day, when the year is one of 1 to 9999.
    Other years are written with a sign and six digits, and year 0 is no
    year of the store: [None], the statement fails. *)
Definition date_param (t : Z) : option Z :=
  let year := YearFromDay (Day t) in
  if (1 <=? year) && (year <=? 9999) then Some (Day t) else None.

End JsDate.

Import JsDate.


(** ** JavaScript values used by the handlers *)

(** Truthiness of a nullable string: [undefined], [null] and [''] are falsy. *)
Definition truthy_string (o : option string) : bool :=
  match o with
  | Some s => negb (String.eqb s "")
  | None => false
  end.

(** [a || b] on numbers, where [None] is [NaN]: [NaN] and [0] are falsy. *)
Definition or_number (a : option Z) (b : Z) : Z :=
  match a with
  | Some n => if n =? 0 then b else n
  | None => b
  end.

(** [Math.ceil(a / b)] for a positive [b]. *)
Definition ceil_div (a b : Z) : Z := - ((- a) / b).

(** *** Strings and lists of characters *)

Fixpoint take_while {A} (f : A -> bool) (l : list A) : list A :=
  match l with
  | [] => []
  | x :: l' => if f x then x :: take_while f l' else []
  end.

Fixpoint drop_while {A} (f : A -> bool) (l : list A) : list A :=
  match l with
  | [] => []
  | x :: l' => if f x then drop_while f l' else l
  end.

Definition is_digit (c : ascii) : bool :=
  let n := nat_of_ascii c in (48 <=? n)%nat && (n <=? 57)%nat.
Definition is_upper (c : ascii) : bool :=
  let n := nat_of_ascii c in (65 <=? n)%nat && (n <=? 90)%nat.
Definition is_lower (c : ascii) : bool :=
  let n := nat_of_ascii c in (97 <=? n)%nat && (n <=? 122)%nat.
Definition is_alnum (c : ascii) : bool :=
  is_digit c || is_upper c || is_lower c.

Definition to_upper (c : ascii) : ascii :=
  if is_lower c then ascii_of_nat (nat_of_ascii c - 32) else c.

(** The value of a character as a digit in the given radix. *)
Definition digit_value (radix : Z) (c : ascii) : option Z :=
  let n := Z.of_nat (nat_of_ascii c) in
  let v := if is_digit c then Some (n - 48)
           else if is_upper c then Some (n - 55)
           else if is_lower c then Some (n - 87)
           else None in
  match v with
  | Some d => if d <? radix then Some d else None
  | None => None
  end.

(** Longest prefix of digits, read as a number; [None] when it is empty. *)
Fixpoint read_digits (radix : Z) (acc : option Z) (l : list ascii)
  : option Z :=
  match l with
  | [] => acc
  | c :: l' =>
      match digit_value radix c with
      | Some d => read_digits radix (Some (default 0 acc * radix + d)) l'
      | None => acc
      end
  end.

(** [parseInt(s)] without a radix argument; [None] is [NaN]. *)
Definition parseInt (s : string) : option Z :=
  let l := drop_while Ascii.is_space (String.list_ascii_of_string s) in
  let '(sign, l) :=
    match l with
    | "-"%char :: l' => (-1, l')
    | "+"%char :: l' => (1, l')
    | _ => (1, l)
    end in
  let '(radix, l) :=
    match l with
    | "0"%char :: "x"%char :: l' => (16, l')
    | "0"%char :: "X"%char :: l' => (16, l')
    | _ => (10, l)
    end in
  match read_digits radix None l with
  | Some n => Some (sign * n)
  | None => None
  end.

(** [parseInt(v as string)] of a query parameter that may be absent:
    [undefined] converts to a string without a digit. *)
Definition parseInt_param (v : option string) : option Z :=
  match v with
  | Some s => parseInt s
  | None => None
  end.

(** [s.replace(/\.[^/.]+$/, '')]: drop a final extension. *)
Definition strip_extension (s : string) : string :=
  let r := rev (String.list_ascii_of_string s) in
  let ext := take_while (fun c => negb (Ascii.eqb c "."%char)) r in
  match drop_while (fun c => negb (Ascii.eqb c "."%char)) r with
  | [] => s
  | _ :: base =>
      if bool_decide (ext = []) || existsb (Ascii.eqb "/"%char) ext then s
      else String.string_of_list_ascii (rev base)
  end.

(** [s.replace(/[^a-zA-Z0-9]/g, '').toUpperCase()] *)
Definition alnum_upper (s : string) : string :=
  String.string_of_list_ascii
    (map to_upper (List.filter is_alnum (String.list_ascii_of_string s))).

(** [s.substring(0, n)] *)
Definition substring0 (n : nat) (s : string) : string :=
  String.string_of_list_ascii (take n (String.list_ascii_of_string s)).

(** [s.slice(-n)] *)
Definition slice_last (n : nat) (s : string) : string :=
  let l := String.list_ascii_of_string s in
  String.string_of_list_ascii (drop (length l - n) l).

(** ['ABCDEFGHIJKLMNOPQRSTUVWXYZ'.charAt(i)]; empty out of range. *)
Definition letters_charAt (i : Z) : string :=
  if (0 <=? i) && (i <? 26)
  then String (ascii_of_nat (65 + Z.to_nat i)) EmptyString
  else "".

(** [haystack.includes(needle)] *)
Fixpoint includes (needle haystack : string) : bool :=
  String.prefix needle haystack
  || match haystack with
     | EmptyString => false
     | String _ rest => includes needle rest
     end.

Fixpoint join (sep : string) (l : list string) : string :=
  match l with
  | [] => ""
  | [x] => x
  | x :: l' => x +:+ sep +:+ join sep l'
  end.


(** ** Errors (middleware/errorHandler.ts) *)

Inductive ErrorClass :=
  | NotFoundErrorC
  | ValidationErrorC
  | UnauthorizedErrorC
  | ForbiddenErrorC
  | ConflictErrorC
  | DatabaseErrorC.

(** What a handler can throw: one of the application's [CustomError]
    subclasses, a plain [Error], or an error of the database driver, which
    carries the SQLSTATE code of the violated constraint. *)
Inductive Exn :=
  | CustomError (cls : ErrorClass) (message : string) (statusCode : Z)
  | JsError (message : string)
  | PgError (code : string).

Definition NotFoundError (resource : string) : Exn :=
  CustomError NotFoundErrorC (resource +:+ " no encontrado") 404.
Definition ValidationError (message : string) : Exn :=
  CustomError ValidationErrorC message 400.
Definition ConflictError (message : string) : Exn :=
  CustomError ConflictErrorC message 409.

Definition unique_violation : string := "23505".
Definition foreign_key_violation : string := "23503".
Definition check_violation : string := "23514".
Definition string_data_right_truncation : string := "22001".
Definition numeric_value_out_of_range : string := "22003".

Definition is_class (c : ErrorClass) (e : Exn) : Prop :=
  match e with
  | CustomError c' _ _ => c' = c
  | _ => False
  end.

Definition message_of (e : Exn) : string :=
  match e with
  | CustomError _ m _ => m
  | JsError m => m
  | PgError c => c
  end.

(** ** The relational store (database/init.ts) *)

Record User := {
  u_email : string;
  u_first_name : string;
  u_last_name : string;
  u_role : string;
  u_is_active : bool
}.

Record Product := {
  p_name : string;
  p_sku : string;
  p_stock : Z;
  p_price : Z;
  p_is_active : bool;
  p_updated_at : Z
}.

Record Customer := {
  c_first_name : string;
  c_last_name : string;
  c_email : string;
  c_phone : option string;
  c_address : option string;
  c_created_at : Z;
  c_updated_at : Z
}.

Record Sale := {
  s_product_id : string;
  s_customer_id : string;
  s_seller_id : string;
  s_quantity : Z;
  s_unit_price : Z;
  s_total_price : Z;
  s_sale_date : Z;
  s_warranty_period_months : Z;
  s_warranty_start : Z;
  s_warranty_end : Z;
  s_serial_number : option string;
  s_created_at : Z;
  s_updated_at : Z
}.

Record SaleImage := {
  i_sale_id : string;
  i_image_type : string;
  i_image_url : string;
  i_uploaded_at : Z
}.

Record DB := {
  users : gmap string User;
  products : gmap string Product;
  customers : gmap string Customer;
  sales : gmap string Sale;
  sale_images : gmap string SaleImage
}.

Definition set_products (f : gmap string Product -> gmap string Product)
    (db : DB) : DB :=
  {| users := users db; products := f (products db);
     customers := customers db; sales := sales db;
     sale_images := sale_images db |}.

Definition set_customers (f : gmap string Customer -> gmap string Customer)
    (db : DB) : DB :=
  {| users := users db; products := products db;
     customers := f (customers db); sales := sales db;
     sale_images := sale_images db |}.

Definition set_sales (f : gmap string Sale -> gmap string Sale)
    (db : DB) : DB :=
  {| users := users db; products := products db;
     customers := customers db; sales := f (sales db);
     sale_images := sale_images db |}.

Definition set_sale_images
    (f : gmap string SaleImage -> gmap string SaleImage) (db : DB) : DB :=
  {| users := users db; products := products db;
     customers := customers db; sales := sales db;
     sale_images := f (sale_images db) |}.

(** What the handlers read from outside the request and the store: the
    clock, the identifiers [generateUUID] returns (by call number) and the
    values [Math.random] returns (by call number, in the unit interval). *)
Record Env := {
  now : Z;
  uuid : nat -> string;
  random : nat -> Q
}.

Definition CURRENT_DATE (env : Env) : Z := Day (now env).

(** The time zone of the process ([TZ], or that of the host) and the
    time zone of the database session; nothing in the application sets
    either. *)
Record TimeZones := {
  process_zone : TimeZone;
  session_zone : TimeZone
}.

Definition UTC_zones : TimeZones :=
  {| process_zone := UTC_zone; session_zone := UTC_zone |}.

(** [CURRENT_DATE] in a session of the given zone. *)
Definition CURRENT_DATE_in (tz : TimeZone) (env : Env) : Z :=
  Day (LocalTime tz (now env)).

(** *** Statements: a computation on the store that may throw *)

Definition Stmt (A : Type) : Type := DB -> (Exn + A) * DB.

Definition ret {A} (a : A) : Stmt A := fun db => (inr a, db).
Definition throw {A} (e : Exn) : Stmt A := fun db => (inl e, db).
Definition bind {A B} (m : Stmt A) (k : A -> Stmt B) : Stmt B :=
  fun db =>
    match m db with
    | (inr a, db') => k a db'
    | (inl e, db') => (inl e, db')
    end.
Definition read {A} (q : DB -> A) : Stmt A := fun db => (inr (q db), db).

Notation "'let*' x ':=' m 'in' k" := (bind m (fun x => k))
  (at level 10, x name, m at level 100, k at level 200).
Notation "'do' m 'then' k" := (bind m (fun _ => k))
  (at level 10, m at level 100, k at level 200).

Definition guard (b : bool) (e : Exn) : Stmt unit :=
  if b then ret tt else throw e.

(** [BEGIN ... COMMIT], with [ROLLBACK] in the [catch]: the effects of the
    body are kept only when it returns. *)
Definition transaction {A} (body : Stmt A) : Stmt A :=
  fun db =>
    match body db with
    | (inr a, db') => (inr a, db')
    | (inl e, _) => (inl e, db)
    end.

(** *** The widths of the columns

    Texts are valid UTF-8 without the NUL character, as the store accepts
    them. *)

(** The number of characters of a text in UTF-8: its bytes other than
    continuation bytes. *)
Definition char_length (s : string) : nat :=
  length (List.filter
            (fun c => negb ((128 <=? nat_of_ascii c)%nat
                            && (nat_of_ascii c <? 192)%nat))
            (String.list_ascii_of_string s)).

(** Assignment to a [VARCHAR(n)] column: a longer text is refused, unless
    all that exceeds is blanks, which are then cut off. *)
Definition varchar (n : nat) (s : string) : option string :=
  let excess := (char_length s - n)%nat in
  let l := String.list_ascii_of_string s in
  if (excess =? 0)%nat then Some s
  else if forallb (Ascii.eqb " "%char) (drop (length l - excess) l)
  then Some (String.string_of_list_ascii (take (length l - excess) l))
  else None.

(** Assignment to a [DECIMAL(10,2)] column: eight digits before the
    point, so in cents an absolute value below ten thousand million. *)
Definition decimal_10_2 (cents : Z) : bool := Z.abs cents <? 10000000000.

(** [SELECT name, stock, price FROM products
     WHERE id = $1 AND is_active = true] *)
Definition select_active_product (id : string) (db : DB) : option Product :=
  match products db !! id with
  | Some p => if p_is_active p then Some p else None
  | None => None
  end.

(** A sale as the columns [unit_price DECIMAL(10,2)],
    [total_price DECIMAL(10,2)] and [serial_number VARCHAR(255)] take
    it. *)
Definition stored_sale (s : Sale) : Exn + Sale :=
  if negb (decimal_10_2 (s_unit_price s) && decimal_10_2 (s_total_price s))
  then inl (PgError numeric_value_out_of_range)
  else
    match match s_serial_number s with
          | Some serial => Some <$> varchar 255 serial
          | None => Some None
          end with
    | None => inl (PgError string_data_right_truncation)
    | Some serial =>
        inr {| s_product_id := s_product_id s;
               s_customer_id := s_customer_id s;
               s_seller_id := s_seller_id s;
               s_quantity := s_quantity s;
               s_unit_price := s_unit_price s;
               s_total_price := s_total_price s;
               s_sale_date := s_sale_date s;
               s_warranty_period_months := s_warranty_period_months s;
               s_warranty_start := s_warranty_start s;
               s_warranty_end := s_warranty_end s;
               s_serial_number := serial;
               s_created_at := s_created_at s;
               s_updated_at := s_updated_at s |}
    end.

(** [INSERT INTO sales (...) VALUES (...) RETURNING *], under the
    constraints of the table: the widths of the columns first, then the
    column checks, the primary key and the foreign keys. *)
Definition insert_sale (id : string) (s : Sale) : Stmt (string * Sale) :=
  fun db =>
    match stored_sale s with
    | inl e => (inl e, db)
    | inr row =>
        if negb ((0 <? s_quantity row) && (0 <? s_unit_price row)
                 && (0 <? s_total_price row)
                 && (0 <? s_warranty_period_months row))
        then (inl (PgError check_violation), db)
        else if bool_decide (is_Some (sales db !! id))
        then (inl (PgError unique_violation), db)
        else if negb (bool_decide (is_Some (products db !! s_product_id row))
                      && bool_decide
                           (is_Some (customers db !! s_customer_id row))
                      && bool_decide (is_Some (users db !! s_seller_id row)))
        then (inl (PgError foreign_key_violation), db)
        else (inr (id, row), set_sales (insert id row) db)
    end.

(** [UPDATE products SET stock = stock - $1 WHERE id = $2], under
    [CHECK (stock >= 0)]; the row trigger refreshes [updated_at]. *)
Definition update_stock (env : Env) (quantity : Z) (id : string) : Stmt unit :=
  fun db =>
    match products db !! id with
    | None => (inr tt, db)
    | Some p =>
        if p_stock p - quantity <? 0
        then (inl (PgError check_violation), db)
        else (inr tt,
              set_products
                (insert id {| p_name := p_name p; p_sku := p_sku p;
                              p_stock := p_stock p - quantity;
                              p_price := p_price p;
                              p_is_active := p_is_active p;
                              p_updated_at := now env |}) db)
    end.

Definition image_types_allowed : list string :=
  ["sealed"; "full_product"; "serial_number"].

(** [INSERT INTO sale_images (id, sale_id, image_type, image_url)
     VALUES (...) RETURNING *], under [image_type VARCHAR(50)] and
    [image_url VARCHAR(500)], the check on the type, the primary key and
    the foreign key. *)
Definition insert_sale_image (env : Env) (id saleId imageType url : string)
    : Stmt (string * SaleImage) :=
  fun db =>
    match varchar 50 imageType, varchar 500 url with
    | Some image_type, Some image_url =>
        let row := {| i_sale_id := saleId; i_image_type := image_type;
                      i_image_url := image_url; i_uploaded_at := now env |} in
        if negb (bool_decide (image_type ∈ image_types_allowed))
        then (inl (PgError check_violation), db)
        else if bool_decide (is_Some (sale_images db !! id))
        then (inl (PgError unique_violation), db)
        else if negb (bool_decide (is_Some (sales db !! saleId)))
        then (inl (PgError foreign_key_violation), db)
        else (inr (id, row), set_sale_images (insert id row) db)
    | _, _ => (inl (PgError string_data_right_truncation), db)
    end.

(** [UPDATE sales SET serial_number = $1, updated_at = CURRENT_TIMESTAMP
     WHERE id = $2], under [serial_number VARCHAR(255)]. *)
Definition update_serial_number (env : Env) (serial : string) (id : string)
    : Stmt unit :=
  fun db =>
    match sales db !! id with
    | None => (inr tt, db)
    | Some s =>
        match varchar 255 serial with
        | None => (inl (PgError string_data_right_truncation), db)
        | Some serial_number =>
            (inr tt,
             set_sales
               (insert id
                  {| s_product_id := s_product_id s;
                     s_customer_id := s_customer_id s;
                     s_seller_id := s_seller_id s;
                     s_quantity := s_quantity s;
                     s_unit_price := s_unit_price s;
                     s_total_price := s_total_price s;
                     s_sale_date := s_sale_date s;
                     s_warranty_period_months := s_warranty_period_months s;
                     s_warranty_start := s_warranty_start s;
                     s_warranty_end := s_warranty_end s;
                     s_serial_number := Some serial_number;
                     s_created_at := s_created_at s;
                     s_updated_at := now env |}) db)
        end
    end.

(** [SELECT COUNT( * ) FROM sales WHERE customer_id = $1] *)
Definition count_sales_of_customer (id : string) (db : DB) : nat :=
  size (filter (fun kv => s_customer_id kv.2 = id) (sales db)).

(** [DELETE FROM customers WHERE id = $1]; the sales of the customer, and
    the images of those sales, go with it ([ON DELETE CASCADE]). *)
Definition delete_customer (id : string) : Stmt unit :=
  fun db =>
    (inr tt,
     {| users := users db; products := products db;
        customers := delete id (customers db);
        sales := filter (fun kv => s_customer_id kv.2 <> id) (sales db);
        sale_images :=
          filter (fun kv =>
                    s_customer_id <$> sales db !! i_sale_id kv.2 <> Some id)
                 (sale_images db) |}).

(** ** utils/date.ts *)

(** [endDate = new Date(startDate);
     endDate.setMonth(endDate.getMonth() + months)] *)
Definition calculateWarrantyEnd (startDate months : Z) : Z :=
  let endDate := startDate in
  setMonth endDate (getMonth endDate + months).

Definition getDaysUntilWarrantyExpiry (env : Env) (warrantyEnd : Z) : Z :=
  let diffTime := getTime warrantyEnd - getTime (now env) in
  ceil_div diffTime (1000 * 60 * 60 * 24).

Definition isWarrantyExpiringSoon (env : Env) (warrantyEnd : Z)
    (daysThreshold : option Z) : bool :=
  let daysThreshold := default 30 daysThreshold in
  let diffTime := getTime warrantyEnd - getTime (now env) in
  let diffDays := ceil_div diffTime (1000 * 60 * 60 * 24) in
  (diffDays <=? daysThreshold) && (0 <? diffDays).

(** ** services/warrantyService.ts *)

Record WarrantyDates := {
  warrantyStart : Z;
  warrantyEnd : Z
}.

Definition calculateWarrantyDates (saleDate warrantyPeriodMonths : Z)
    : WarrantyDates :=
  let warrantyStart := saleDate in
  {| warrantyStart := warrantyStart;
     warrantyEnd := calculateWarrantyEnd warrantyStart warrantyPeriodMonths |}.

(** A row of the expiring-warranties query, before it is mapped. *)
Record ExpiringRow := {
  r_sale_id : string;
  r_customer_name : string;
  r_customer_email : string;
  r_product_name : string;
  r_warranty_end : Z;
  r_days_until_expiry : Z
}.

Record ExpiringWarranty := {
  sale_id : string;
  customer_name : string;
  customer_email : string;
  product_name : string;
  warranty_end : Z;
  days_until_expiry : Z
}.

(** [FROM sales s INNER JOIN customers c ... INNER JOIN products p ...
     WHERE s.warranty_end BETWEEN CURRENT_DATE AND $1
       AND s.warranty_end >= CURRENT_DATE] on one sale. *)
Definition expiring_row (current_date threshold : Z) (db : DB)
    (kv : string * Sale) : option ExpiringRow :=
  let '(id, s) := kv in
  match customers db !! s_customer_id s, products db !! s_product_id s with
  | Some c, Some p =>
      if (current_date <=? s_warranty_end s)
         && (s_warranty_end s <=? threshold)
         && (current_date <=? s_warranty_end s)
      then Some {| r_sale_id := id;
                   r_customer_name :=
                     c_first_name c +:+ " " +:+ c_last_name c;
                   r_customer_email := c_email c;
                   r_product_name := p_name p;
                   r_warranty_end := s_warranty_end s;
                   r_days_until_expiry :=
                     s_warranty_end s - current_date |}
      else None
  | _, _ => None
  end.

(** [ORDER BY s.warranty_end ASC] *)
Definition by_warranty_end (a b : ExpiringRow) : Prop :=
  r_warranty_end a <= r_warranty_end b.

Global Instance by_warranty_end_dec a b : Decision (by_warranty_end a b).
Proof. unfold by_warranty_end. apply _. Defined.

Definition expiring_query (zones : TimeZones) (env : Env) (threshold : Z)
    (db : DB) : list ExpiringRow :=
  merge_sort by_warranty_end
    (omap (expiring_row (CURRENT_DATE_in (session_zone zones) env)
             threshold db)
       (map_to_list (sales db))).

(** [try { ... } catch (error) { throw new Error(message) }]: whatever
    the body throws (here [None]), the caller gets one plain [Error]. *)
Definition try_rethrow {A} (body : option A) (message : string) : Exn + A :=
  match body with
  | Some a => inr a
  | None => inl (JsError message)
  end.

(** The threshold is computed on the local time of the process, sent as
    the UTC day of [toISOString], and compared with the [CURRENT_DATE] of
    the session; a [DATE] comes back as the midnight that starts it in
    the zone of the process.  Inside the [try] block [toISOString] throws
    on an invalid date and the query fails on a parameter that is no
    date. *)
Definition getExpiringWarranties (zones : TimeZones) (env : Env)
    (daysThreshold : option Z) (db : DB) : Exn + list ExpiringWarranty :=
  let daysThreshold := default 30 daysThreshold in
  let currentDate := now env in
  let thresholdDate :=
    setDate_in (process_zone zones) (now env)
      (getDate_in (process_zone zones) currentDate + daysThreshold) in
  try_rethrow
    (threshold ← thresholdDate ≫= date_param;
     let rows := expiring_query zones env threshold db in
     Some ((fun row =>
              {| sale_id := r_sale_id row;
                 customer_name := r_customer_name row;
                 customer_email := r_customer_email row;
                 product_name := r_product_name row;
                 warranty_end :=
                   UTC (process_zone zones) (ofDATE (r_warranty_end row));
                 days_until_expiry := r_days_until_expiry row |}) <$> rows))
    "Error al consultar garantías próximas a vencer".

Record WarrantyStatus := {
  isActive : bool;
  isExpiringSoon : bool;
  daysUntilExpiry : Z;
  ws_warrantyEnd : Z
}.

(** Every error inside the [try] block, the missing sale included, leaves
    as the same plain [Error]. *)
Definition checkWarrantyStatus (env : Env) (saleId : string) (db : DB)
    : Exn + WarrantyStatus :=
  match sales db !! saleId with
  | None => inl (JsError "Error al verificar estado de garantía")
  | Some row =>
      let warrantyEnd := ofDATE (s_warranty_end row) in
      let daysUntilExpiry := getDaysUntilWarrantyExpiry env warrantyEnd in
      let isActive := 0 <? daysUntilExpiry in
      let isExpiringSoon := isWarrantyExpiringSoon env warrantyEnd None in
      inr {| isActive := isActive;
             isExpiringSoon := isExpiringSoon;
             daysUntilExpiry := daysUntilExpiry;
             ws_warrantyEnd := warrantyEnd |}
  end.

Record WarrantyStatistics := {
  totalActiveWarranties : Z;
  expiringSoonCount : Z;
  expiredCount : Z;
  averageWarrantyPeriod : Q
}.

(** [COUNT(CASE WHEN cond THEN 1 END)] over the sales. *)
Definition count_sales (cond : Sale -> bool) (db : DB) : Z :=
  Z.of_nat (size (filter (fun kv => cond kv.2 = true) (sales db))).

(** [AVG(warranty_period_months)], read back with [parseFloat(...) || 0]:
    zero when there is no sale. *)
Definition avg_warranty_period (db : DB) : Q :=
  let n := size (sales db) in
  let total :=
    map_fold (fun _ s acc => s_warranty_period_months s + acc) 0 (sales db) in
  if (n =? 0)%nat then 0%Q
  else (inject_Z total / inject_Z (Z.of_nat n))%Q.

Definition getWarrantyStatistics (env : Env) (db : DB) : WarrantyStatistics :=
  let today := CURRENT_DATE env in
  {| totalActiveWarranties :=
       or_number (Some (count_sales (fun s => today <? s_warranty_end s) db)) 0;
     expiringSoonCount :=
       or_number
         (Some (count_sales
                  (fun s => (today <=? s_warranty_end s)
                            && (s_warranty_end s <=? today + 30)) db)) 0;
     expiredCount :=
       or_number (Some (count_sales (fun s => s_warranty_end s <? today) db)) 0;
     averageWarrantyPeriod := avg_warranty_period db |}.

(** ** services/imageService.ts *)

Record Transformations := {
  t_width : option Z;
  t_height : option Z;
  t_quality : option Z;
  t_crop : option string
}.

Definition maxFileSize : Z := 5 * 1024 * 1024.

Definition defaultTransformations : Transformations :=
  {| t_width := Some 1920; t_height := Some 1080;
     t_quality := Some 80; t_crop := Some "fit" |}.

Definition imageTypeConfigs (imageType : string) : option Transformations :=
  if String.eqb imageType "sealed" then
    Some {| t_width := Some 800; t_height := Some 600;
            t_quality := Some 90; t_crop := None |}
  else if String.eqb imageType "full_product" then
    Some {| t_width := Some 1200; t_height := Some 900;
            t_quality := Some 85; t_crop := None |}
  else if String.eqb imageType "serial_number" then
    Some {| t_width := Some 1920; t_height := Some 1080;
            t_quality := Some 95; t_crop := None |}
  else None.

Definition truthy_number (o : option Z) : bool :=
  match o with
  | Some n => negb (n =? 0)
  | None => false
  end.

Record ImageUploadResult := {
  imageUrl : string;
  publicId : string;
  fileSize : Z;
  width : Z;
  height : Z
}.

Record File := {
  f_originalname : string;
  f_size : Z
}.

(** The per-type entry replaces the default [transformations] as a whole
    and never sets [maxFileSize], so the limit is always 5 MB, which
    [formatFileSize] prints as ['5 MB']. *)
Definition uploadImage (env : Env) (file : File) (imageType : string)
    : Exn + ImageUploadResult :=
  let transformations :=
    default defaultTransformations (imageTypeConfigs imageType) in
  if maxFileSize <? f_size file
  then inl (JsError "Archivo demasiado grande. Máximo: 5 MB")
  else
    let timestamp := now env in
    let publicId :=
      "sales-system/" +:+ imageType +:+ "/" +:+ pretty timestamp +:+ "-"
      +:+ strip_extension (f_originalname file) in
    let baseUrl := "https://res.cloudinary.com/sales-system/image/upload" in
    let parts :=
      (if truthy_number (t_width transformations)
          && truthy_number (t_height transformations)
       then ["w_" +:+ pretty (default 0 (t_width transformations)) +:+ ",h_"
             +:+ pretty (default 0 (t_height transformations))]
       else [])
      ++ (if truthy_string (t_crop transformations)
          then ["c_" +:+ default "" (t_crop transformations)] else [])
      ++ (if truthy_number (t_quality transformations)
          then ["q_" +:+ pretty (default 0 (t_quality transformations))]
          else []) in
    let transformationUrl :=
      if (0 <? length parts)%nat then join "," parts +:+ "/" else "" in
    inr {| imageUrl :=
             baseUrl +:+ "/" +:+ transformationUrl +:+ publicId +:+ ".jpg";
           publicId := publicId;
           fileSize := f_size file;
           width := or_number (t_width transformations) 1920;
           height := or_number (t_height transformations) 1080 |}.

(** The address that [uploadImage] gives the file has the 500
    characters of [image_url VARCHAR(500)] at most.  The address carries
    the name of the file, which has no bound of its own. *)
Definition url_fits (env : Env) (file : File) (imageType : string) : Prop :=
  forall result,
    uploadImage env file imageType = inr result ->
    (char_length (imageUrl result) <= 500)%nat.

(** ** services/ocrService.ts *)

Record SerialExtractionResponse := {
  extractedSerial : string;
  se_imageUrl : string;
  confidence : Q
}.

(** [letters.charAt(Math.floor(Math.random() * letters.length))], once per
    position; the draws are numbered from [first]. *)
Fixpoint generateRandomLetters (env : Env) (first length : nat) : string :=
  match length with
  | O => ""
  | S n =>
      letters_charAt (Qfloor (random env first * 26))
      +:+ generateRandomLetters env (S first) n
  end.

Definition extractSerialFromImage (env : Env) (fileName : string)
    : SerialExtractionResponse :=
  let timestamp := pretty (now env) in
  let fileHash := alnum_upper fileName in
  let simulatedSerial :=
    substring0 3 fileHash +:+ slice_last 6 timestamp
    +:+ generateRandomLetters env 0 3 in
  let imageUrl :=
    "https://cloudinary.com/sales-system/images/" +:+ timestamp +:+ "-"
    +:+ fileName in
  let confidence := (random env 3 * (1 # 4) + (7 # 10))%Q in
  {| extractedSerial := simulatedSerial;
     se_imageUrl := imageUrl;
     confidence :=
       (inject_Z (Qfloor (confidence * 100 + (1 # 2))) / 100)%Q |}.

(** ** controllers/saleController.ts *)

Record CreateSaleRequest := {
  product_id : string;
  customer_id : string;
  quantity : Z;
  unit_price : Z;
  warranty_period_months : Z;
  serial_number : option string;
  (** [req.user?.userId], set by the authentication middleware *)
  userId : option string
}.

Record SaleResponse := {
  sr_status : Z;
  sr_message : string;
  sr_sale : string * Sale
}.

(** A [Date] bound to a [DATE] column keeps its day. *)
Definition DATE_of_Date (t : Z) : Z := Day t.

Definition createSale_body (env : Env) (req : CreateSaleRequest)
    : Stmt SaleResponse :=
  let seller_id := userId req in
  do guard (truthy_string seller_id)
       (ValidationError "Vendedor no identificado") then
  let* productResult := read (select_active_product (product_id req)) in
  match productResult with
  | None => throw (NotFoundError "Producto no encontrado o inactivo")
  | Some product =>
      do guard (negb (p_stock product <? quantity req))
           (ValidationError
              ("Stock insuficiente. Disponible: " +:+ pretty (p_stock product)
               +:+ ", Solicitado: " +:+ pretty (quantity req))) then
      let* customerCheck := read (fun db => customers db !! customer_id req) in
      match customerCheck with
      | None => throw (NotFoundError "Cliente no encontrado")
      | Some _ =>
          let total_price := quantity req * unit_price req in
          let sale_date := now env in
          let dates :=
            calculateWarrantyDates sale_date (warranty_period_months req) in
          let saleId := uuid env 0 in
          let* sale :=
            insert_sale saleId
              {| s_product_id := product_id req;
                 s_customer_id := customer_id req;
                 s_seller_id := default "" seller_id;
                 s_quantity := quantity req;
                 s_unit_price := unit_price req;
                 s_total_price := total_price;
                 s_sale_date := sale_date;
                 s_warranty_period_months := warranty_period_months req;
                 s_warranty_start := DATE_of_Date (warrantyStart dates);
                 s_warranty_end := DATE_of_Date (warrantyEnd dates);
                 s_serial_number :=
                   if truthy_string (serial_number req)
                   then serial_number req else None;
                 s_created_at := now env;
                 s_updated_at := now env |} in
          do update_stock env (quantity req) (product_id req) then
          ret {| sr_status := 201;
                 sr_message := "Venta registrada exitosamente";
                 sr_sale := sale |}
      end
  end.

Definition createSale (env : Env) (req : CreateSaleRequest)
    : Stmt SaleResponse :=
  transaction (createSale_body env req).

Record UploadImagesRequest := {
  ui_sale_id : string;
  (** [req.files] *)
  ui_files : option (list File);
  (** [req.body.image_types]; [None] when absent or not an array *)
  ui_image_types : option (list string)
}.

Record UploadImagesResponse := {
  ur_status : Z;
  ur_message : string;
  ur_images : list (string * SaleImage)
}.

(** How the promise of one file settles.  A bad type is thrown before the
    first [await]; [uploadImage] rejects after its delay; the [INSERT]
    rejects or returns last. *)
Inductive Outcome :=
  | RejectedSync (e : Exn)
  | RejectedUpload (e : Exn)
  | RejectedInsert (e : Exn)
  | Fulfilled (row : string * SaleImage).

Definition image_task (env : Env) (saleId : string) (index : nat)
    (file : File) (imageType : string) (db : DB) : Outcome * DB :=
  if negb (bool_decide (imageType ∈ image_types_allowed))
  then (RejectedSync
          (ValidationError ("Tipo de imagen inválido: " +:+ imageType)), db)
  else
    match uploadImage env file imageType with
    | inl e => (RejectedUpload e, db)
    | inr uploadResult =>
        let imageId := uuid env index in
        match insert_sale_image env imageId saleId imageType
                (imageUrl uploadResult) db with
        | (inl e, db') => (RejectedInsert e, db')
        | (inr row, db') => (Fulfilled row, db')
        end
    end.

(** [files.map(async (file, index) => ...)]: every promise runs to its own
    end, whatever happens to the others. *)
Fixpoint run_tasks (env : Env) (saleId : string) (index : nat)
    (tasks : list (File * string)) (db : DB) : list Outcome * DB :=
  match tasks with
  | [] => ([], db)
  | (file, imageType) :: rest =>
      let '(o, db1) := image_task env saleId index file imageType db in
      let '(os, db2) := run_tasks env saleId (S index) rest db1 in
      (o :: os, db2)
  end.

Definition sync_rejection (o : Outcome) : option Exn :=
  match o with RejectedSync e => Some e | _ => None end.
Definition upload_rejection (o : Outcome) : option Exn :=
  match o with RejectedUpload e => Some e | _ => None end.
Definition insert_rejection (o : Outcome) : option Exn :=
  match o with RejectedInsert e => Some e | _ => None end.
Definition fulfilled (o : Outcome) : option (string * SaleImage) :=
  match o with Fulfilled row => Some row | _ => None end.

(** [Promise.all]: the first rejection in time, else all the values. *)
Definition Promise_all (os : list Outcome)
    : Exn + list (string * SaleImage) :=
  match omap sync_rejection os ++ omap upload_rejection os
        ++ omap insert_rejection os with
  | e :: _ => inl e
  | [] => inr (omap fulfilled os)
  end.

(** No transaction here: the store is the one the file promises leave
    behind, also when the handler throws. *)
Definition uploadSaleImages (env : Env) (req : UploadImagesRequest)
    : Stmt UploadImagesResponse :=
  fun db =>
    let saleId := ui_sale_id req in
    match ui_files req with
    | None | Some [] =>
        (inl (ValidationError "No se proporcionaron imágenes"), db)
    | Some files =>
        match ui_image_types req with
        | None =>
            (inl (ValidationError "Tipos de imagen requeridos como array"), db)
        | Some image_types =>
            if negb (length files =? length image_types)%nat
            then (inl (ValidationError
                    "Número de imágenes debe coincidir con tipos de imagen"),
                  db)
            else
              match sales db !! saleId with
              | None => (inl (NotFoundError "Venta no encontrada"), db)
              | Some _ =>
                  let '(os, db') :=
                    run_tasks env saleId 0 (zip files image_types) db in
                  match Promise_all os with
                  | inl e => (inl e, db')
                  | inr uploadedImages =>
                      (inr {| ur_status := 201;
                              ur_message :=
                                pretty (length uploadedImages)
                                +:+ " imagen(es) subida(s) exitosamente";
                              ur_images := uploadedImages |}, db')
                  end
              end
        end
    end.

Record ExtractSerialRequest := {
  es_sale_id : string;
  (** [req.file] *)
  es_file : option File
}.

Definition lift {A} (r : Exn + A) : Stmt A :=
  match r with
  | inl e => throw e
  | inr a => ret a
  end.

Definition extractSerial (env : Env) (req : ExtractSerialRequest)
    : Stmt SerialExtractionResponse :=
  let saleId := es_sale_id req in
  match es_file req with
  | None => throw (ValidationError "Imagen requerida")
  | Some file =>
      let* saleCheck := read (fun db => sales db !! saleId) in
      match saleCheck with
      | None => throw (NotFoundError "Venta no encontrada")
      | Some row =>
          let extractionResult :=
            extractSerialFromImage env (f_originalname file) in
          let* uploadResult := lift (uploadImage env file "serial_number") in
          let imageId := uuid env 0 in
          do insert_sale_image env imageId saleId "serial_number"
               (imageUrl uploadResult) then
          do (if negb (truthy_string (s_serial_number row))
              then update_serial_number env
                     (extractedSerial extractionResult) saleId
              else ret tt) then
          ret extractionResult
      end
  end.

(** ** controllers/customerController.ts *)

Definition deleteCustomer (id : string) : Stmt string :=
  let* existingCustomer := read (fun db => customers db !! id) in
  match existingCustomer with
  | None => throw (NotFoundError "Cliente no encontrado")
  | Some c =>
      let* salesCount := read (count_sales_of_customer id) in
      do guard (negb (0 <? salesCount)%nat)
           (ConflictError
              ("No se puede eliminar el cliente. Tiene " +:+ pretty salesCount
               +:+ " venta(s) asociada(s)")) then
      do delete_customer id then
      let customerName := c_first_name c +:+ " " +:+ c_last_name c in
      ret ("Cliente " +:+ customerName +:+ " eliminado exitosamente")
  end.

(** ** The statistics controller: expiring warranties *)

Record ExpiringResponse := {
  er_warranties : list ExpiringWarranty;
  er_count : nat;
  er_days_threshold : Z
}.

(** [const days = parseInt(req.query.days as string) || 30]; an error of
    the service is thrown on as it is. *)
Definition getExpiringWarrantiesController (zones : TimeZones) (env : Env)
    (query_days : option string) (db : DB) : Exn + ExpiringResponse :=
  let days := or_number (parseInt_param query_days) 30 in
  sum_map id
    (fun expiringWarranties =>
       {| er_warranties := expiringWarranties;
          er_count := length expiringWarranties;
          er_days_threshold := days |})
    (getExpiringWarranties zones env (Some days) db).

(** ** The calendar-month advance in the words of the specification *)

(** Advance a calendar date by [months] months: the day of the month is
    kept where the target month has it, and is otherwise the last day of
    the target month. *)
Definition addCalendarMonths (date : Z * Z * Z) (months : Z) : Z * Z * Z :=
  let '(y, m, d) := date in
  let index := m - 1 + months in
  let ty := y + index / 12 in
  let tm := index mod 12 in
  (ty, tm + 1, Z.min d (DaysInMonth ty tm)).

(** ** Sample data for the scenarios *)

Definition sample_uuid (n : nat) : string :=
  "7c9e6679-7425-40de-944b-e07fc1f9" +:+ pretty (1000 + n)%nat.

(** 2024-01-15, 10:30 UTC. *)
Definition sample_env : Env :=
  {| now := ofCivil 2024 1 15 + 37800000;
     uuid := sample_uuid;
     random := fun n => (Z.of_nat n + 1 # 7)%Q |}.

(** A later moment, with the next identifiers. *)
Definition sample_env2 : Env :=
  {| now := ofCivil 2024 1 15 + 37805000;
     uuid := fun n => sample_uuid (100 + n);
     random := fun n => (Z.of_nat n + 2 # 9)%Q |}.

Definition seller1 : string := "3f2b8c1e-5a47-4d39-9e21-0c6d7a8b9f10".
Definition product1 : string := "9b1deb4d-3b7d-4bad-9bdd-2b0d7b3dcb6d".
Definition customer1 : string := "1b9d6bcd-bbfd-4b2d-9b5d-ab8dfbbd4bed".
Definition sale1 : string := "6ec0bd7f-11c0-43da-975e-2a8ad9ebae0b".
Definition image1 : string := "110ec58a-a0f2-4ac4-8393-c866d813b8d1".

Definition sample_user : User :=
  {| u_email := "ana@tienda.test"; u_first_name := "Ana";
     u_last_name := "Morales"; u_role := "seller"; u_is_active := true |}.

Definition sample_product (stock : Z) : Product :=
  {| p_name := "Laptop 14"; p_sku := "LAP-14-001"; p_stock := stock;
     p_price := 10000; p_is_active := true; p_updated_at := 0 |}.

Definition sample_customer : Customer :=
  {| c_first_name := "Luis"; c_last_name := "Paz";
     c_email := "luis@correo.test"; c_phone := None; c_address := None;
     c_created_at := ofCivil 2023 11 6 + 54000000;
     c_updated_at := ofCivil 2023 11 6 + 54000000 |}.

Definition sample_db (stock : Z) : DB :=
  {| users := {[ seller1 := sample_user ]};
     products := {[ product1 := sample_product stock ]};
     customers := {[ customer1 := sample_customer ]};
     sales := ∅;
     sale_images := ∅ |}.

Definition sample_request (q : Z) : CreateSaleRequest :=
  {| product_id := product1; customer_id := customer1; quantity := q;
     unit_price := 10000; warranty_period_months := 12;
     serial_number := None; userId := Some seller1 |}.

(** A sale of the sample product whose warranty ends on the given day,
    and a store that holds it under [sale1]. *)
Definition sample_sale (warranty_end : Z) (serial : option string) : Sale :=
  {| s_product_id := product1; s_customer_id := customer1;
     s_seller_id := seller1; s_quantity := 1; s_unit_price := 10000;
     s_total_price := 10000; s_sale_date := ofCivil 2023 1 15;
     s_warranty_period_months := 12;
     s_warranty_start := warranty_end - 365;
     s_warranty_end := warranty_end;
     s_serial_number := serial;
     s_created_at := ofCivil 2023 1 15; s_updated_at := ofCivil 2023 1 15 |}.

Definition sample_db_with_sale (warranty_end : Z) (serial : option string)
    : DB :=
  set_sales (insert sale1 (sample_sale warranty_end serial)) (sample_db 10).

Definition sample_file : File :=
  {| f_originalname := "caja-sellada.jpg"; f_size := 204800 |}.

Definition sample_image : SaleImage :=
  {| i_sale_id := sale1; i_image_type := "sealed";
     i_image_url := "https://res.cloudinary.com/sales-system/image/upload/w_800,h_600,q_90/sales-system/sealed/1705314600000-caja.jpg";
     i_uploaded_at := ofCivil 2023 1 15 |}.


Definition sample_db_with_image : DB :=
  set_sale_images (insert image1 sample_image) (sample_db_with_sale 19737 None).

Definition sample_upload (files : list File) (image_types : list string)
    : UploadImagesRequest :=
  {| ui_sale_id := sale1; ui_files := Some files;
     ui_image_types := Some image_types |}.

Definition sample_file2 : File :=
  {| f_originalname := "producto.completo.png"; f_size := 512000 |}.

Definition sample_file3 : File :=
  {| f_originalname := "serie.webp"; f_size := 102400 |}.

Definition sale2 : string := "0a1b2c3d-4e5f-4a6b-8c7d-9e0f1a2b3c4d".
Definition sale3 : string := "f47ac10b-58cc-4372-a567-0e02b2c3d479".

(** Three sales: warranties ending in ten days, today, and in forty days. *)
Definition sample_db_three : DB :=
  set_sales (fun _ => {[ sale1 := sample_sale 19747 None;
                         sale2 := sample_sale 19737 None;
                         sale3 := sample_sale 19777 None ]})
    (sample_db 10).

(** A process and a session six hours behind UTC all year (as in
    America/Guatemala), and an evening there: 20:00 on 2024-01-15, which
    is 02:00 on the 16th in UTC. *)
Definition six_hours_behind : TimeZones :=
  {| process_zone := fixed_zone (-21600000);
     session_zone := fixed_zone (-21600000) |}.

Definition evening_env : Env :=
  {| now := ofCivil 2024 1 16 + 7200000;
     uuid := sample_uuid;
     random := fun n => (Z.of_nat n + 1 # 7)%Q |}.

(** The serial number of a sale in the store. *)
Definition serial_of (id : string) (db : DB) : option (option string) :=
  s_serial_number <$> sales db !! id.

(** No sale of the store has the empty string as its serial number. *)
Definition serials_nonempty (db : DB) : Prop :=
  forall id s, sales db !! id = Some s -> s_serial_number s <> Some "".

(** The number of images a sale has of one type. *)
Definition images_of (saleId imageType : string) (db : DB) : nat :=
  size (filter (fun kv : string * SaleImage =>
                  i_sale_id kv.2 = saleId /\ i_image_type kv.2 = imageType)
               (sale_images db)).

(** ** middleware/errorHandler.ts: from a thrown value to the response *)

Definition UnauthorizedError (message : string) : Exn :=
  CustomError UnauthorizedErrorC message 401.
Definition DatabaseError (message : string) : Exn :=
  CustomError DatabaseErrorC message 500.

(** The properties of a thrown object that the error middleware reads. *)
Record ErrorObject := {
  e_name : string;
  e_message : string;
  e_code : option string;
  e_statusCode : option Z;
  e_isOperational : bool
}.

(** The object a value thrown by the handlers is at run time.  The error
    classes of the application leave [name] as ['Error'] and set
    [statusCode] and [isOperational]; a plain [Error] has neither; an error
    of the driver is named ['error'] and carries its SQLSTATE in [code]
    (its text is the server's and is not modelled: the middleware
    replaces it). *)
Definition error_object (e : Exn) : ErrorObject :=
  match e with
  | CustomError _ message statusCode =>
      {| e_name := "Error"; e_message := message; e_code := None;
         e_statusCode := Some statusCode; e_isOperational := true |}
  | JsError message =>
      {| e_name := "Error"; e_message := message; e_code := None;
         e_statusCode := None; e_isOperational := false |}
  | PgError code =>
      {| e_name := "error"; e_message := ""; e_code := Some code;
         e_statusCode := None; e_isOperational := false |}
  end.

(** The status and the [error] field of the JSON body. *)
Record ErrorResponse := {
  res_status : Z;
  res_error : string
}.

Definition errorHandler (err : ErrorObject) : ErrorResponse :=
  let error := err in
  let error :=
    if includes "duplicate key value" (e_message err)
    then error_object (ConflictError "Recurso ya existe") else error in
  let error :=
    if String.eqb (e_name err) "CastError"
    then error_object (NotFoundError "Recurso no encontrado") else error in
  let error :=
    if String.eqb (e_name err) "JsonWebTokenError"
    then error_object (UnauthorizedError "Token inválido") else error in
  let error :=
    if String.eqb (e_name err) "TokenExpiredError"
    then error_object (UnauthorizedError "Token expirado") else error in
  let error :=
    if String.eqb (e_name err) "PostgresError" || truthy_string (e_code err)
    then
      let code := default "" (e_code err) in
      if String.eqb code "23505"
      then error_object (ConflictError "Ya existe un recurso con esos datos")
      else if String.eqb code "23503"
      then error_object (ValidationError "Referencias a datos inexistentes")
      else if String.eqb code "23502"
      then error_object (ValidationError "Faltan campos requeridos")
      else if String.eqb code "23514"
      then error_object (ValidationError "Datos no cumplen las restricciones")
      else error_object (DatabaseError "Error en la base de datos")
    else error in
  let '(statusCode, message) :=
    if negb (e_isOperational error)
    then (Some 500, "Error interno del servidor")
    else (e_statusCode error, e_message error) in
  {| res_status := or_number statusCode 500; res_error := message |}.

(** ** Quantities and invariants of the store *)

(** [SELECT product_id, SUM(quantity) as total_sold FROM sales
     GROUP BY product_id], read with [COALESCE(..., 0)] for one product
    (the inventory report). *)
Definition total_sold (productId : string) (db : DB) : Z :=
  map_fold (fun _ s acc =>
              if String.eqb (s_product_id s) productId
              then s_quantity s + acc else acc) 0 (sales db).

(** [CHECK (stock >= 0)] holds of every product. *)
Definition stock_nonneg (db : DB) : Prop :=
  forall id p, products db !! id = Some p -> 0 <= p_stock p.

(** The foreign keys of the sales point to rows of the store. *)
Definition sales_refs_ok (db : DB) : Prop :=
  forall id s, sales db !! id = Some s ->
    is_Some (products db !! s_product_id s)
    /\ is_Some (customers db !! s_customer_id s)
    /\ is_Some (users db !! s_seller_id s).

(** ** services/ocrService.ts: checking and normalising a serial number

    A text is its UTF-8 bytes.  The character classes of these functions
    are ASCII ones, so they read bytes as JavaScript reads characters;
    [toUpperCase] is the ASCII one, which is the JavaScript one on ASCII
    text. *)

(** [s.length]: the UTF-16 code units of a text held in UTF-8, one for
    every character and one more for every character beyond the basic
    plane. *)
Definition utf16_length (s : string) : nat :=
  let l := String.list_ascii_of_string s in
  (length (List.filter
             (fun c => negb ((128 <=? nat_of_ascii c)%nat
                             && (nat_of_ascii c <? 192)%nat)) l)
   + length (List.filter (fun c => (240 <=? nat_of_ascii c)%nat) l))%nat.

Definition validateSerialNumber (serialNumber : string) : bool :=
  if negb (truthy_string (Some serialNumber))
     || (utf16_length serialNumber <? 6)%nat
  then false
  else
    let hasLetters :=
      existsb (fun c => is_upper c || is_lower c)
        (String.list_ascii_of_string serialNumber) in
    let hasNumbers :=
      existsb is_digit (String.list_ascii_of_string serialNumber) in
    hasLetters && hasNumbers.

(** [s.trim()], of the ASCII blanks. *)
Definition trim (s : string) : string :=
  String.string_of_list_ascii
    (rev (drop_while Ascii.is_space
            (rev (drop_while Ascii.is_space
                    (String.list_ascii_of_string s))))).

(** [serialNumber.toUpperCase().replace(/[^A-Z0-9]/g, '').trim()] *)
Definition cleanSerialNumber (serialNumber : string) : string :=
  trim
    (String.string_of_list_ascii
       (List.filter (fun c => is_upper c || is_digit c)
          (map to_upper (String.list_ascii_of_string serialNumber)))).

(** The characters [cleanSerialNumber] keeps: [A-Z0-9]. *)
Definition serial_char (c : ascii) : bool := is_upper c || is_digit c.

(** ** services/warrantyService.ts: the warranties of a customer, and the
    extension of a warranty

    The identifiers handed to the store are UUID texts, as the validators
    of the routes require; a text that is not one is refused by the store
    before any row is read, and is outside the model. *)

(** [FROM sales s INNER JOIN customers c ... INNER JOIN products p ...
     WHERE c.id = $1] on one sale. *)
Definition customer_warranty_row (env : Env) (customerId : string) (db : DB)
    (kv : string * Sale) : option ExpiringRow :=
  let '(id, s) := kv in
  match customers db !! s_customer_id s, products db !! s_product_id s with
  | Some c, Some p =>
      if String.eqb (s_customer_id s) customerId
      then Some {| r_sale_id := id;
                   r_customer_name :=
                     c_first_name c +:+ " " +:+ c_last_name c;
                   r_customer_email := c_email c;
                   r_product_name := p_name p;
                   r_warranty_end := s_warranty_end s;
                   r_days_until_expiry :=
                     s_warranty_end s - CURRENT_DATE env |}
      else None
  | _, _ => None
  end.

(** [ORDER BY s.warranty_end DESC] *)
Definition by_warranty_end_desc (a b : ExpiringRow) : Prop :=
  r_warranty_end b <= r_warranty_end a.

Global Instance by_warranty_end_desc_dec a b :
  Decision (by_warranty_end_desc a b).
Proof. unfold by_warranty_end_desc. apply _. Defined.

Record CustomerWarranties := {
  cw_active : list ExpiringWarranty;
  cw_expired : list ExpiringWarranty
}.

Definition getCustomerWarranties (env : Env) (customerId : string) (db : DB)
    : CustomerWarranties :=
  let rows :=
    merge_sort by_warranty_end_desc
      (omap (customer_warranty_row env customerId db)
            (map_to_list (sales db))) in
  let warranties :=
    (fun row =>
       {| sale_id := r_sale_id row;
          customer_name := r_customer_name row;
          customer_email := r_customer_email row;
          product_name := r_product_name row;
          warranty_end := ofDATE (r_warranty_end row);
          days_until_expiry := r_days_until_expiry row |}) <$> rows in
  {| cw_active := filter (fun w => 0 < days_until_expiry w) warranties;
     cw_expired := filter (fun w => days_until_expiry w <= 0) warranties |}.

(** [date + INTERVAL 'n months'], stored back into a [DATE]: the month is
    advanced and the day of the month is kept, or is the last day of the
    target month when that month is shorter. *)
Definition date_pl_months (d months : Z) : Z :=
  let t := ofDATE d in
  let index := getMonth t + months in
  let y := getFullYear t + index / 12 in
  let m := index mod 12 in
  MakeDay y m (Z.min (getDate t) (DaysInMonth y m)).

(** [UPDATE sales SET warranty_end = warranty_end + INTERVAL '... months',
     warranty_period_months = warranty_period_months + $2,
     updated_at = CURRENT_TIMESTAMP WHERE id = $1 RETURNING warranty_end],
    under [CHECK (warranty_period_months > 0)]. *)
Definition update_warranty (env : Env) (saleId : string)
    (additionalMonths : Z) : Stmt (list Z) :=
  fun db =>
    match sales db !! saleId with
    | None => (inr [], db)
    | Some s =>
        let period := s_warranty_period_months s + additionalMonths in
        let warranty_end :=
          date_pl_months (s_warranty_end s) additionalMonths in
        if negb (0 <? period)
        then (inl (PgError check_violation), db)
        else (inr [warranty_end],
              set_sales
                (insert saleId
                   {| s_product_id := s_product_id s;
                      s_customer_id := s_customer_id s;
                      s_seller_id := s_seller_id s;
                      s_quantity := s_quantity s;
                      s_unit_price := s_unit_price s;
                      s_total_price := s_total_price s;
                      s_sale_date := s_sale_date s;
                      s_warranty_period_months := period;
                      s_warranty_start := s_warranty_start s;
                      s_warranty_end := warranty_end;
                      s_serial_number := s_serial_number s;
                      s_created_at := s_created_at s;
                      s_updated_at := now env |}) db)
    end.

(** Every error inside the [try] block, the missing sale included, leaves
    as the same plain [Error]. *)
Definition extendWarranty (env : Env) (saleId : string)
    (additionalMonths : Z) : Stmt Z :=
  fun db =>
    match update_warranty env saleId additionalMonths db with
    | (inr (warranty_end :: _), db1) => (inr (ofDATE warranty_end), db1)
    | (inr [], db1) => (inl (JsError "Error al extender garantía"), db1)
    | (inl _, db1) => (inl (JsError "Error al extender garantía"), db1)
    end.

(** The number of sales whose warranty ends on the current day. *)
Definition ending_today (env : Env) (db : DB) : Z :=
  count_sales (fun s => s_warranty_end s =? CURRENT_DATE env) db.

(** ** utils/date.ts: days, months and years around a moment *)

(** [MakeTime(hour, min, sec, ms)] *)
Definition MakeTime (hour min sec ms : Z) : Z :=
  hour * 3600000 + min * 60000 + sec * 1000 + ms.

(** [d.setHours(hour, min, sec, ms)] *)
Definition setHours (t hour min sec ms : Z) : Z :=
  MakeDate (Day t) (MakeTime hour min sec ms).

(** [new Date(year, month, date)]: a year from 0 to 99 stands for
    1900 + year. *)
Definition Date_of_fields (year month date : Z) : Z :=
  let yr := if (0 <=? year) && (year <=? 99) then 1900 + year else year in
  MakeDate (MakeDay yr month date) 0.

Definition getStartOfDay (date : Z) : Z :=
  let startOfDay := date in
  setHours startOfDay 0 0 0 0.

Definition getEndOfDay (date : Z) : Z :=
  let endOfDay := date in
  setHours endOfDay 23 59 59 999.

Record DateRange := {
  range_start : Z;
  range_end : Z
}.

Definition getCurrentMonthRange (env : Env) : DateRange :=
  let now := now env in
  let start := Date_of_fields (getFullYear now) (getMonth now) 1 in
  let end_ := Date_of_fields (getFullYear now) (getMonth now + 1) 0 in
  {| range_start := getStartOfDay start; range_end := getEndOfDay end_ |}.

Definition getCurrentYearRange (env : Env) : DateRange :=
  let now := now env in
  let start := Date_of_fields (getFullYear now) 0 1 in
  let end_ := Date_of_fields (getFullYear now) 11 31 in
  {| range_start := getStartOfDay start; range_end := getEndOfDay end_ |}.

(** ** controllers/customerController.ts: creating, reading and updating *)

(** A row as the columns [first_name VARCHAR(100)],
    [last_name VARCHAR(100)], [email VARCHAR(255)], [phone VARCHAR(20)]
    and [address TEXT] take it; the timestamps are kept. *)
Definition stored_customer (c : Customer) : option Customer :=
  match varchar 100 (c_first_name c), varchar 100 (c_last_name c),
        varchar 255 (c_email c),
        match c_phone c with
        | Some phone => Some <$> varchar 20 phone
        | None => Some None
        end with
  | Some first_name, Some last_name, Some email, Some phone =>
      Some {| c_first_name := first_name; c_last_name := last_name;
              c_email := email; c_phone := phone;
              c_address := c_address c;
              c_created_at := c_created_at c;
              c_updated_at := c_updated_at c |}
  | _, _, _, _ => None
  end.

(** [SELECT id FROM customers WHERE email = $1] *)
Definition customers_with_email (email : string) (db : DB)
    : gmap string Customer :=
  filter (fun kv => c_email kv.2 = email) (customers db).

(** [SELECT id FROM customers WHERE email = $1 AND id != $2] *)
Definition others_with_email (email id : string) (db : DB)
    : gmap string Customer :=
  filter (fun kv => c_email kv.2 = email /\ kv.1 <> id) (customers db).

(** [INSERT INTO customers (...) VALUES (...) RETURNING ...], under the
    widths of the columns, the primary key and [UNIQUE (email)].  The
    statement names no timestamp: the row comes with the defaults of
    [created_at] and [updated_at], both [CURRENT_TIMESTAMP]. *)
Definition insert_customer (id : string) (c : Customer)
    : Stmt (string * Customer) :=
  fun db =>
    match stored_customer c with
    | None => (inl (PgError string_data_right_truncation), db)
    | Some row =>
        if bool_decide (is_Some (customers db !! id))
        then (inl (PgError unique_violation), db)
        else if negb (bool_decide
                        (customers_with_email (c_email row) db = ∅))
        then (inl (PgError unique_violation), db)
        else (inr (id, row), set_customers (insert id row) db)
    end.

Record CreateCustomerData := {
  cd_first_name : string;
  cd_last_name : string;
  cd_email : string;
  cd_phone : option string;
  cd_address : option string
}.

Record CustomerResponse := {
  cr_status : Z;
  cr_message : string;
  cr_customer : option (string * Customer)
}.

Definition createCustomer (env : Env) (data : CreateCustomerData)
    : Stmt CustomerResponse :=
  let* existingCustomer := read (customers_with_email (cd_email data)) in
  do guard (negb (0 <? size existingCustomer)%nat)
       (ConflictError "Ya existe un cliente con este email") then
  let customerId := uuid env 0 in
  let* customer :=
    insert_customer customerId
      {| c_first_name := cd_first_name data;
         c_last_name := cd_last_name data;
         c_email := cd_email data;
         c_phone := if truthy_string (cd_phone data) then cd_phone data
                    else None;
         c_address := if truthy_string (cd_address data) then cd_address data
                      else None;
         c_created_at := now env;
         c_updated_at := now env |} in
  ret {| cr_status := 201; cr_message := "Cliente creado exitosamente";
         cr_customer := Some customer |}.

(** The row and its [full_name]. *)
Definition getCustomerById (id : string) (db : DB)
    : Exn + (string * Customer * string) :=
  match customers db !! id with
  | None => inl (NotFoundError "Cliente no encontrado")
  | Some c => inr (id, c, c_first_name c +:+ " " +:+ c_last_name c)
  end.

(** The body of an update: a field is [None] when it is [undefined]. *)
Record UpdateCustomerData := {
  ud_first_name : option string;
  ud_last_name : option string;
  ud_email : option string;
  ud_phone : option string;
  ud_address : option string
}.

(** [SET first_name = $1, ..., updated_at = CURRENT_TIMESTAMP] with the
    fields that were given, each as its column takes it. *)
Definition updated_customer (env : Env) (data : UpdateCustomerData)
    (c : Customer) : option Customer :=
  match
    match ud_first_name data with
    | Some v => varchar 100 v
    | None => Some (c_first_name c)
    end,
    match ud_last_name data with
    | Some v => varchar 100 v
    | None => Some (c_last_name c)
    end,
    match ud_email data with
    | Some v => varchar 255 v
    | None => Some (c_email c)
    end,
    match ud_phone data with
    | Some v => Some <$> varchar 20 v
    | None => Some (c_phone c)
    end
  with
  | Some first_name, Some last_name, Some email, Some phone =>
      Some {| c_first_name := first_name; c_last_name := last_name;
              c_email := email; c_phone := phone;
              c_address := match ud_address data with
                           | Some address => Some address
                           | None => c_address c
                           end;
              c_created_at := c_created_at c;
              c_updated_at := now env |}
  | _, _, _, _ => None
  end.

(** [UPDATE customers SET ... WHERE id = $n RETURNING ...] *)
Definition update_customer (env : Env) (id : string)
    (data : UpdateCustomerData) : Stmt (option (string * Customer)) :=
  fun db =>
    match customers db !! id with
    | None => (inr None, db)
    | Some c =>
        match updated_customer env data c with
        | None => (inl (PgError string_data_right_truncation), db)
        | Some row =>
            if negb (bool_decide (others_with_email (c_email row) id db = ∅))
            then (inl (PgError unique_violation), db)
            else (inr (Some (id, row)), set_customers (insert id row) db)
        end
    end.

Definition is_defined {A} (o : option A) : bool :=
  match o with Some _ => true | None => false end.

(** The block under [if (updateData.email)]. *)
Definition check_other_email (id : string) (updateData : UpdateCustomerData)
    : Stmt unit :=
  if truthy_string (ud_email updateData)
  then
    let* emailCheck :=
      read (others_with_email (default "" (ud_email updateData)) id) in
    guard (negb (0 <? size emailCheck)%nat)
      (ConflictError "Ya existe otro cliente con este email")
  else ret tt.

Definition updateCustomer (env : Env) (id : string)
    (updateData : UpdateCustomerData) : Stmt CustomerResponse :=
  let* existingCustomer := read (fun db => customers db !! id) in
  match existingCustomer with
  | None => throw (NotFoundError "Cliente no encontrado")
  | Some _ =>
      do check_other_email id updateData then
      let updateFields :=
        List.filter is_defined
          [ud_first_name updateData; ud_last_name updateData;
           ud_email updateData; ud_phone updateData;
           ud_address updateData] in
      do guard (negb (length updateFields =? 0)%nat)
           (ValidationError "No se proporcionaron campos para actualizar") then
      let* customer := update_customer env id updateData in
      ret {| cr_status := 200;
             cr_message := "Cliente actualizado exitosamente";
             cr_customer := customer |}
  end.

(** A customer row with another [updated_at]. *)
Definition set_updated_at (t : Z) (c : Customer) : Customer :=
  {| c_first_name := c_first_name c; c_last_name := c_last_name c;
     c_email := c_email c; c_phone := c_phone c; c_address := c_address c;
     c_created_at := c_created_at c; c_updated_at := t |}.

(** [UNIQUE (email)] holds of the customers. *)
Definition emails_unique (db : DB) : Prop :=
  forall i j ci cj,
    customers db !! i = Some ci -> customers db !! j = Some cj ->
    c_email ci = c_email cj -> i = j.

Definition customer2 : string := "2c1f9a7e-8b3d-4f6a-9c2e-5d4b3a2f1e0d".

Definition sample_customer_data : CreateCustomerData :=
  {| cd_first_name := "Marta"; cd_last_name := "Ruiz";
     cd_email := "marta@correo.test"; cd_phone := Some "";
     cd_address := Some "Zona 10" |}.

Definition sample_env3 : Env :=
  {| now := ofCivil 2024 1 15 + 37800000;
     uuid := fun _ => customer2;
     random := fun n => (Z.of_nat n + 1 # 7)%Q |}.

(** ** controllers/customerController.ts: the sales of a customer, by page *)

Definition invalid_row_count_in_limit_clause : string := "2201W".
Definition invalid_row_count_in_result_offset_clause : string := "2201X".

Record CustomerSaleRow := {
  csr_id : string;
  csr_quantity : Z;
  csr_unit_price : Z;
  csr_total_price : Z;
  csr_sale_date : Z;
  csr_warranty_period_months : Z;
  csr_warranty_start : Z;
  csr_warranty_end : Z;
  csr_serial_number : option string;
  csr_product_name : string;
  csr_product_sku : string;
  csr_seller_first_name : string;
  csr_seller_last_name : string
}.

(** [FROM sales s INNER JOIN products p ... INNER JOIN users u ...
     WHERE s.customer_id = $1] on one sale. *)
Definition customer_sale_row (customerId : string) (db : DB)
    (kv : string * Sale) : option CustomerSaleRow :=
  let '(id, s) := kv in
  match products db !! s_product_id s, users db !! s_seller_id s with
  | Some p, Some u =>
      if String.eqb (s_customer_id s) customerId
      then Some {| csr_id := id;
                   csr_quantity := s_quantity s;
                   csr_unit_price := s_unit_price s;
                   csr_total_price := s_total_price s;
                   csr_sale_date := s_sale_date s;
                   csr_warranty_period_months := s_warranty_period_months s;
                   csr_warranty_start := s_warranty_start s;
                   csr_warranty_end := s_warranty_end s;
                   csr_serial_number := s_serial_number s;
                   csr_product_name := p_name p;
                   csr_product_sku := p_sku p;
                   csr_seller_first_name := u_first_name u;
                   csr_seller_last_name := u_last_name u |}
      else None
  | _, _ => None
  end.

(** [ORDER BY s.sale_date DESC] *)
Definition by_sale_date_desc (a b : CustomerSaleRow) : Prop :=
  csr_sale_date b <= csr_sale_date a.

Global Instance by_sale_date_desc_dec a b : Decision (by_sale_date_desc a b).
Proof. unfold by_sale_date_desc. apply _. Defined.

(** The rows of the query before [LIMIT] and [OFFSET]. *)
Definition customer_sales_rows (customerId : string) (db : DB)
    : list CustomerSaleRow :=
  merge_sort by_sale_date_desc
    (omap (customer_sale_row customerId db) (map_to_list (sales db))).

(** [... LIMIT $2 OFFSET $3]: the store refuses a negative offset or
    limit. *)
Definition customer_sales_page (customerId : string) (limit offset : Z)
    (db : DB) : Exn + list CustomerSaleRow :=
  if offset <? 0
  then inl (PgError invalid_row_count_in_result_offset_clause)
  else if limit <? 0
  then inl (PgError invalid_row_count_in_limit_clause)
  else inr (take (Z.to_nat limit)
              (drop (Z.to_nat offset) (customer_sales_rows customerId db))).

Record Pagination := {
  pg_page : Z;
  pg_limit : Z;
  pg_total : Z;
  pg_pages : Z;
  pg_hasNext : bool;
  pg_hasPrev : bool
}.

Record CustomerSalesResponse := {
  cs_message : string;
  cs_data : list CustomerSaleRow;
  cs_pagination : Pagination
}.

Definition getCustomerSales (id : string) (query_page query_limit : option string)
    (db : DB) : Exn + CustomerSalesResponse :=
  let page := or_number (parseInt_param query_page) 1 in
  let limit := or_number (parseInt_param query_limit) 10 in
  match customers db !! id with
  | None => inl (NotFoundError "Cliente no encontrado")
  | Some customer =>
      let offset := (page - 1) * limit in
      match customer_sales_page id limit offset db with
      | inl e => inl e
      | inr rows =>
          let total := Z.of_nat (count_sales_of_customer id db) in
          let pages := ceil_div total limit in
          let customerName :=
            c_first_name customer +:+ " " +:+ c_last_name customer in
          inr {| cs_message := "Historial de ventas de " +:+ customerName;
                 cs_data := rows;
                 cs_pagination :=
                   {| pg_page := page; pg_limit := limit; pg_total := total;
                      pg_pages := pages; pg_hasNext := page <? pages;
                      pg_hasPrev := 1 <? page |} |}
      end
  end.

(** The rows of page [p] in pages of [limit] rows, as [?page=p&limit=...]
    asks for them; no rows when the request fails. *)
Definition page_rows (id : string) (limit : Z) (db : DB) (p : Z)
    : list CustomerSaleRow :=
  match getCustomerSales id (Some (pretty p)) (Some (pretty limit)) db with
  | inr resp => cs_data resp
  | inl _ => []
  end.

(** Four sales of the sample customer on four different days. *)
Definition sample_sale_on (day : Z) : Sale :=
  {| s_product_id := product1; s_customer_id := customer1;
     s_seller_id := seller1; s_quantity := 1; s_unit_price := 10000;
     s_total_price := 10000; s_sale_date := ofCivil 2023 1 day;
     s_warranty_period_months := 12;
     s_warranty_start := Day (ofCivil 2023 1 day);
     s_warranty_end := Day (ofCivil 2024 1 day);
     s_serial_number := None;
     s_created_at := ofCivil 2023 1 day; s_updated_at := ofCivil 2023 1 day |}.

Definition sale4 : string := "5b2c3d4e-6f7a-4b8c-9d0e-1f2a3b4c5d6e".

Definition sample_db_four : DB :=
  set_sales (fun _ => {[ sale1 := sample_sale_on 3; sale2 := sample_sale_on 9;
                         sale3 := sample_sale_on 5; sale4 := sample_sale_on 7 ]})
    (sample_db 10).

(** ** utils/jwt.ts: the token of the [Authorization] header *)

(** [s.split(sep)] for a separator of one character: the parts between
    the separators, at least one. *)
Fixpoint split_on (sep : ascii) (l : list ascii) : list (list ascii) :=
  match l with
  | [] => [[]]
  | c :: l' =>
      if Ascii.eqb c sep then [] :: split_on sep l'
      else match split_on sep l' with
           | [] => [[c]]
           | part :: parts => (c :: part) :: parts
           end
  end.

Definition extractTokenFromHeader (authHeader : option string)
    : option string :=
  if negb (truthy_string authHeader) then None
  else
    let parts :=
      String.string_of_list_ascii
        <$> (split_on " "%char
               (String.list_ascii_of_string (default "" authHeader))) in
    if negb (length parts =? 2)%nat
       || negb (String.eqb (default "" (parts !! 0%nat)) "Bearer")
    then None
    else parts !! 1%nat.

(** ** utils/password.ts: the strength of a password *)

(** The special characters of the password rules: the punctuation listed
    below and the double quote, which is character 34. *)
Definition is_special (c : ascii) : bool :=
  existsb (Ascii.eqb c)
    (ascii_of_nat 34
     :: String.list_ascii_of_string "!@#$%^&*()_+-=[]{};':\|,.<>/?").

Inductive Strength := weak | medium | strong.

Record PasswordValidation := {
  pv_isValid : bool;
  pv_errors : list string;
  pv_strength : Strength
}.

Definition validatePasswordStrength (password : string)
    : PasswordValidation :=
  let chars := String.list_ascii_of_string password in
  let errors :=
    (if (utf16_length password <? 8)%nat
     then ["La contraseña debe tener al menos 8 caracteres"] else [])
    ++ (if negb (existsb is_lower chars)
        then ["La contraseña debe contener al menos una letra minúscula"]
        else [])
    ++ (if negb (existsb is_upper chars)
        then ["La contraseña debe contener al menos una letra mayúscula"]
        else [])
    ++ (if negb (existsb is_digit chars)
        then ["La contraseña debe contener al menos un número"] else [])
    ++ (if negb (existsb is_special chars)
        then ["La contraseña debe contener al menos un carácter especial"]
        else []) in
  let hasLower := existsb is_lower chars in
  let hasUpper := existsb is_upper chars in
  let hasNumber := existsb is_digit chars in
  let hasSpecial := existsb is_special chars in
  let isLongEnough := (8 <=? utf16_length password)%nat in
  let criteriasMet :=
    length (List.filter (fun b : bool => b)
              [hasLower; hasUpper; hasNumber; hasSpecial; isLongEnough]) in
  let strength :=
    if (4 <=? criteriasMet)%nat && (12 <=? utf16_length password)%nat
    then strong
    else if (3 <=? criteriasMet)%nat && (8 <=? utf16_length password)%nat
    then medium
    else weak in
  {| pv_isValid := (length errors =? 0)%nat;
     pv_errors := errors;
     pv_strength := strength |}.

(** ** The statistics controller: the sales report

    A date parameter is taken as the moment the store reads from its
    text; [None] stands for a parameter that is absent or empty. *)





Record SalesReportRow := {
  rr_id : string;
  rr_sale_date : Z;
  rr_quantity : Z;
  rr_unit_price : Z;
  rr_total_price : Z;
  rr_warranty_period_months : Z;
  rr_warranty_end : Z;
  rr_product_name : string;
  rr_product_sku : string;
  rr_customer_name : string;
  rr_customer_email : string;
  rr_seller_name : string;
  rr_seller_email : string
}.


(** [ORDER BY s.sale_date DESC] *)
Definition by_report_date_desc (a b : SalesReportRow) : Prop :=
  rr_sale_date b <= rr_sale_date a.

Global Instance by_report_date_desc_dec a b :
  Decision (by_report_date_desc a b).
Proof. unfold by_report_date_desc. apply _. Defined.








(* ================================================================== *)
(** * Properties *)

(** ** Calendar arithmetic *)

Ltac div_lia := Z.to_euclidean_division_equations; lia.

(** Evaluate the month table wherever its arguments are closed. *)
Ltac closed_pos p :=
  lazymatch p with
  | xH => idtac
  | xI ?q => closed_pos q
  | xO ?q => closed_pos q
  end.

Ltac closed_Z t :=
  lazymatch t with
  | Z0 => idtac
  | Zpos ?p => closed_pos p
  | (?a + ?b)%Z => closed_Z a; closed_Z b
  end.

Ltac closed_bool b := lazymatch b with true => idtac | false => idtac end.

Ltac eval_table :=
  repeat match goal with
    | |- context [DaysBeforeMonth ?b ?m] =>
        closed_bool b; closed_Z m;
        let v := eval vm_compute in (DaysBeforeMonth b m) in
        change (DaysBeforeMonth b m) with v
    | H : context [DaysBeforeMonth ?b ?m] |- _ =>
        closed_bool b; closed_Z m;
        let v := eval vm_compute in (DaysBeforeMonth b m) in
        change (DaysBeforeMonth b m) with v in H
    end.

Ltac split_ltb :=
  repeat match goal with
    | |- context [if ?a <? ?b then _ else _] =>
        destruct (Z.ltb_spec a b); try lia
    end.

Ltac month_cases m :=
  let Hc := fresh "Hc" in
  assert (m = 0 \/ m = 1 \/ m = 2 \/ m = 3 \/ m = 4 \/ m = 5 \/ m = 6 \/
          m = 7 \/ m = 8 \/ m = 9 \/ m = 10 \/ m = 11) as Hc by lia;
  repeat (destruct Hc as [Hc|Hc]); subst m.


Example calendar_examples :
  civil 0 = (1970, 1, 1) /\
  civil (-1) = (1969, 12, 31) /\
  Day (ofCivil 2024 1 15) = 19737 /\
  civil (ofCivil 2000 2 29 + 86399999) = (2000, 2, 29) /\
  civil (setMonth (ofCivil 2023 1 31) 1) = (2023, 3, 3) /\
  civil (setMonth (ofCivil 2023 11 30) 13) = (2024, 3, 1) /\
  civil (setDate (ofCivil 2024 1 15) (15 + 30)) = (2024, 2, 14).
Proof. repeat split; vm_compute; reflexivity. Qed.

Example parseInt_examples :
  parseInt "45" = Some 45 /\ parseInt " 7 dias" = Some 7 /\
  parseInt "-12.5" = Some (-12) /\ parseInt "0x1F" = Some 31 /\
  parseInt "dias" = None /\ parseInt "" = None /\ parseInt "-0" = Some 0.
Proof. repeat split; reflexivity. Qed.

Example uploadImage_example :
  match uploadImage sample_env sample_file "sealed" with
  | inr result =>
      imageUrl result
      = "https://res.cloudinary.com/sales-system/image/upload/w_800,h_600,q_90/sales-system/sealed/1705314600000-caja-sellada.jpg"
  | inl _ => False
  end.
Proof. vm_compute. reflexivity. Qed.

Example extractSerialFromImage_example :
  extractedSerial (extractSerialFromImage sample_env "caja-sellada.jpg")
  = "CAJ600000DHL".
Proof. vm_compute. reflexivity. Qed.

Lemma DayFromYear_succ y : DayFromYear (y + 1) = DayFromYear y + DaysInYear y.
Proof.
  unfold DayFromYear, DaysInYear, InLeapYear.
  destruct (Z.eqb_spec (y mod 4) 0); destruct (Z.eqb_spec (y mod 100) 0);
    destruct (Z.eqb_spec (y mod 400) 0); simpl; div_lia.
Qed.

Lemma DaysInYear_bounds y : 365 <= DaysInYear y <= 366.
Proof. unfold DaysInYear. destruct (InLeapYear y); lia. Qed.

Lemma YearFromDay_spec d :
  DayFromYear (YearFromDay d) <= d < DayFromYear (YearFromDay d + 1).
Proof.
  unfold YearFromDay.
  set (y0 := 1970 + d * 400 / 146097).
  destruct (Z.ltb_spec d (DayFromYear y0)).
  - replace (y0 - 1 + 1) with y0 by lia. split; [|lia].
    unfold DayFromYear in *. subst y0. div_lia.
  - destruct (Z.leb_spec (DayFromYear (y0 + 1)) d).
    + split; [lia|]. 
      unfold DayFromYear in *. subst y0. div_lia.
    + lia.
Qed.

Lemma DayFromYear_mono a b : a <= b -> DayFromYear a <= DayFromYear b.
Proof. unfold DayFromYear. intros. div_lia. Qed.

Lemma YearFromDay_unique y d :
  DayFromYear y <= d < DayFromYear (y + 1) -> YearFromDay d = y.
Proof.
  intros Hy. pose proof (YearFromDay_spec d) as Hs.
  destruct (Z.lt_trichotomy (YearFromDay d) y) as [Hlt|[Heq|Hgt]]; [|exact Heq|].
  - pose proof (DayFromYear_mono (YearFromDay d + 1) y). lia.
  - pose proof (DayFromYear_mono (y + 1) (YearFromDay d)). lia.
Qed.

Lemma DayWithinYear_bounds d :
  0 <= DayWithinYear d < DaysInYear (YearFromDay d).
Proof.
  unfold DayWithinYear. pose proof (YearFromDay_spec d).
  rewrite DayFromYear_succ in *. lia.
Qed.

Lemma MonthFromDay_bounds d : 0 <= MonthFromDay d <= 11.
Proof.
  unfold MonthFromDay.
  repeat match goal with |- context [if ?b then _ else _] => destruct b end; lia.
Qed.

Lemma DateFromDay_bounds d :
  1 <= DateFromDay d <= DaysInMonth (YearFromDay d) (MonthFromDay d).
Proof.
  pose proof (DayWithinYear_bounds d) as Hn.
  unfold DateFromDay, DaysInMonth, MonthFromDay, DaysInYear in *.
  destruct (InLeapYear (YearFromDay d)); eval_table;
    split_ltb; eval_table; lia.
Qed.

Lemma DaysInMonth_bounds y m : 0 <= m <= 11 -> 28 <= DaysInMonth y m <= 31.
Proof.
  intros Hm. unfold DaysInMonth.
  month_cases m; destruct (InLeapYear y); eval_table; lia.
Qed.

Lemma MakeDay_in_range y m dt :
  0 <= m <= 11 ->
  MakeDay y m dt = DayFromYear y + DaysBeforeMonth (InLeapYear y) m + dt - 1.
Proof.
  intros Hm. unfold MakeDay.
  rewrite Z.div_small, Z.mod_small by lia. now rewrite Z.add_0_r.
Qed.

Lemma MakeDay_roundtrip d :
  MakeDay (YearFromDay d) (MonthFromDay d) (DateFromDay d) = d.
Proof.
  rewrite MakeDay_in_range by apply MonthFromDay_bounds.
  unfold DateFromDay, DayWithinYear. lia.
Qed.

Lemma civil_roundtrip y m dt :
  0 <= m <= 11 -> 1 <= dt <= DaysInMonth y m ->
  YearFromDay (MakeDay y m dt) = y /\
  MonthFromDay (MakeDay y m dt) = m /\
  DateFromDay (MakeDay y m dt) = dt.
Proof.
  intros Hm Hdt.
  pose proof (MakeDay_in_range y m dt Hm) as Hd.
  assert (Hy : YearFromDay (MakeDay y m dt) = y).
  { apply YearFromDay_unique. rewrite Hd, DayFromYear_succ.
    unfold DaysInMonth, DaysInYear in *.
    month_cases m; destruct (InLeapYear y); eval_table; lia. }
  assert (Hmo : MonthFromDay (MakeDay y m dt) = m).
  { unfold MonthFromDay, DayWithinYear. rewrite Hy, Hd.
    unfold DaysInMonth in *.
    month_cases m; destruct (InLeapYear y); eval_table; split_ltb. }
  repeat split; [exact Hy|exact Hmo|].
  unfold DateFromDay, DayWithinYear. rewrite Hmo, Hy, Hd. lia.
Qed.

Lemma MakeDay_date_linear y m dt n : MakeDay y m (dt + n) = MakeDay y m dt + n.
Proof. unfold MakeDay. lia. Qed.

Lemma MakeDay_succ_month y k dt :
  MakeDay y (k + 1) dt = MakeDay y k dt + DaysInMonth (y + k / 12) (k mod 12).
Proof.
  pose proof (Z.mod_pos_bound k 12 ltac:(lia)) as Hk.
  destruct (Z.eq_dec (k mod 12) 11) as [H11|Hne].
  - assert ((k + 1) / 12 = k / 12 + 1) as Hq by div_lia.
    assert ((k + 1) mod 12 = 0) as Hr by div_lia.
    unfold MakeDay, DaysInMonth. rewrite Hq, Hr, H11.
    replace (y + (k / 12 + 1)) with (y + k / 12 + 1) by lia.
    rewrite DayFromYear_succ. unfold DaysInYear.
    destruct (InLeapYear (y + k / 12)); destruct (InLeapYear (y + k / 12 + 1));
      eval_table; lia.
  - assert ((k + 1) / 12 = k / 12) as Hq by div_lia.
    assert ((k + 1) mod 12 = k mod 12 + 1) as Hr by div_lia.
    unfold MakeDay, DaysInMonth. rewrite Hq, Hr. lia.
Qed.

Lemma MakeDay_month_mono y k dt (n : nat) :
  MakeDay y k dt + 28 * Z.of_nat n <= MakeDay y (k + Z.of_nat n) dt.
Proof.
  induction n as [|n IH].
  - replace (k + Z.of_nat 0) with k by lia. lia.
  - replace (k + Z.of_nat (S n)) with (k + Z.of_nat n + 1) by lia.
    rewrite MakeDay_succ_month.
    pose proof (DaysInMonth_bounds (y + (k + Z.of_nat n) / 12)
                  ((k + Z.of_nat n) mod 12)) as Hb.
    pose proof (Z.mod_pos_bound (k + Z.of_nat n) 12 ltac:(lia)).
    lia.
Qed.

Lemma Day_MakeDate d tm : 0 <= tm < msPerDay -> Day (MakeDate d tm) = d.
Proof. unfold Day, MakeDate, msPerDay. intros. div_lia. Qed.

Lemma TimeWithinDay_MakeDate d tm :
  0 <= tm < msPerDay -> TimeWithinDay (MakeDate d tm) = tm.
Proof. unfold TimeWithinDay, MakeDate, msPerDay. intros. div_lia. Qed.

Lemma TimeWithinDay_bounds t : 0 <= TimeWithinDay t < msPerDay.
Proof. unfold TimeWithinDay, msPerDay. div_lia. Qed.

(** ** The warranty window *)

Lemma Day_setMonth t k :
  Day (setMonth t k) = MakeDay (getFullYear t) k (getDate t).
Proof. unfold setMonth. apply Day_MakeDate, TimeWithinDay_bounds. Qed.

Lemma TimeWithinDay_setMonth t k :
  TimeWithinDay (setMonth t k) = TimeWithinDay t.
Proof. unfold setMonth. apply TimeWithinDay_MakeDate, TimeWithinDay_bounds. Qed.

Lemma Day_setDate t n : Day (setDate t (getDate t + n)) = Day t + n.
Proof.
  unfold setDate. rewrite Day_MakeDate by apply TimeWithinDay_bounds.
  unfold getFullYear, getMonth, getDate.
  rewrite MakeDay_date_linear, MakeDay_roundtrip. reflexivity.
Qed.

Lemma time_lt_of_day_lt a b :
  Day a < Day b -> a < b.
Proof. unfold Day, msPerDay. intros. div_lia. Qed.

(** When the target month has the day, [MakeDay] lands on it; otherwise
    the excess carries into the month after the target. *)
Lemma MakeDay_carry y k dt :
  1 <= dt <= 31 ->
  let ty := y + k / 12 in
  let tm := k mod 12 in
  (dt <= DaysInMonth ty tm ->
   YearFromDay (MakeDay y k dt) = ty /\
   MonthFromDay (MakeDay y k dt) = tm /\
   DateFromDay (MakeDay y k dt) = dt) /\
  (DaysInMonth ty tm < dt ->
   YearFromDay (MakeDay y k dt) = ty + (tm + 1) / 12 /\
   MonthFromDay (MakeDay y k dt) = (tm + 1) mod 12 /\
   DateFromDay (MakeDay y k dt) = dt - DaysInMonth ty tm).
Proof.
  intros Hdt ty tm.
  pose proof (Z.mod_pos_bound k 12 ltac:(lia)) as Hk. fold tm in Hk.
  assert (Hsame : MakeDay y k dt = MakeDay ty tm dt).
  { unfold MakeDay. subst ty tm.
    rewrite (Z.div_small (k mod 12)), Z.mod_mod by lia.
    now rewrite Z.add_0_r. }
  split; intros Hd.
  - rewrite Hsame. apply civil_roundtrip; lia.
  - assert (Hnext : MakeDay y k dt
                    = MakeDay (ty + (tm + 1) / 12) ((tm + 1) mod 12)
                        (dt - DaysInMonth ty tm)).
    { rewrite Hsame.
      pose proof (MakeDay_succ_month ty tm (dt - DaysInMonth ty tm)) as Hs.
      rewrite (Z.div_small tm), (Z.mod_small tm), Z.add_0_r in Hs by lia.
      transitivity (MakeDay ty (tm + 1) (dt - DaysInMonth ty tm)).
      - rewrite Hs. unfold MakeDay. lia.
      - unfold MakeDay.
        rewrite (Z.div_small ((tm + 1) mod 12)), Z.mod_mod by div_lia.
        now rewrite Z.add_0_r. }
    rewrite Hnext.
    pose proof (DaysInMonth_bounds ty tm ltac:(lia)).
    pose proof (DaysInMonth_bounds (ty + (tm + 1) / 12) ((tm + 1) mod 12)
                  ltac:(div_lia)).
    apply civil_roundtrip; [div_lia | lia].
Qed.

(** C3, as amended: [calculateWarrantyDates] starts the warranty at the
    sale date and ends it [M] calendar months later at the same time of
    day.  The day of the month is kept when the target month has it;
    otherwise the days in excess carry into the following month (the
    rollover of [Date.setMonth]; 31 January plus one month is 2 or 3
    March).  The end is always later than the start. *)
Theorem calculateWarrantyDates_rollover (D M : Z) :
  1 <= M <= 120 ->
  let r := calculateWarrantyDates D M in
  let d := getDate D in
  let index := getMonth D + M in
  let ty := getFullYear D + index / 12 in
  let tm := index mod 12 in
  warrantyStart r = D /\
  TimeWithinDay (warrantyEnd r) = TimeWithinDay D /\
  (d <= DaysInMonth ty tm -> civil (warrantyEnd r) = (ty, tm + 1, d)) /\
  (DaysInMonth ty tm < d ->
   civil (warrantyEnd r)
   = (ty + (tm + 1) / 12, (tm + 1) mod 12 + 1, d - DaysInMonth ty tm)) /\
  warrantyStart r < warrantyEnd r.
Proof.
  intros HM r d index ty tm.
  assert (Hd : 1 <= d <= 31).
  { pose proof (DateFromDay_bounds (Day D)).
    pose proof (DaysInMonth_bounds (YearFromDay (Day D)) (MonthFromDay (Day D))
                  (MonthFromDay_bounds _)).
    unfold d, getDate. lia. }
  destruct (MakeDay_carry (getFullYear D) index d Hd) as [Hkeep Hcarry].
  assert (Hend : Day (warrantyEnd r) = MakeDay (getFullYear D) index d).
  { apply Day_setMonth. }
  repeat split.
  - apply TimeWithinDay_setMonth.
  - intros Hle. destruct (Hkeep Hle) as (Hy & Hm & Hdt).
    unfold civil, getFullYear, getMonth, getDate.
    rewrite Hend, Hy, Hm, Hdt. reflexivity.
  - intros Hgt. destruct (Hcarry Hgt) as (Hy & Hm & Hdt).
    unfold civil, getFullYear, getMonth, getDate.
    rewrite Hend, Hy, Hm, Hdt. reflexivity.
  - apply time_lt_of_day_lt. rewrite Hend.
    pose proof (MakeDay_month_mono (getFullYear D) (getMonth D) d (Z.to_nat M))
      as Hmono.
    rewrite Z2Nat.id in Hmono by lia.
    assert (Hstart : MakeDay (getFullYear D) (getMonth D) d = Day D)
      by apply MakeDay_roundtrip.
    change (warrantyStart r) with D. unfold index. lia.
Qed.

Lemma calculateWarrantyDates_rollover_witness :
  1 <= 1 <= 120 /\
  civil (warrantyEnd (calculateWarrantyDates (ofCivil 2024 1 31) 1))
  = (2024, 3, 2).
Proof.
  split; [lia|].
  destruct (calculateWarrantyDates_rollover (ofCivil 2024 1 31) 1 ltac:(lia))
    as (_ & _ & _ & H & _).
  rewrite H; [reflexivity | vm_compute; reflexivity].
Defined.

(** C3, as stated, fails: one month after 31 January 2024 the code gives
    2 March, not the last day of February. *)
Lemma calculateWarrantyDates_not_clamped :
  civil (ofCivil 2024 1 31) = (2024, 1, 31) /\
  civil (warrantyEnd (calculateWarrantyDates (ofCivil 2024 1 31) 1))
  = (2024, 3, 2) /\
  addCalendarMonths (2024, 1, 31) 1 = (2024, 2, 29) /\
  civil (warrantyEnd (calculateWarrantyDates (ofCivil 2024 1 31) 1))
  <> addCalendarMonths (civil (ofCivil 2024 1 31)) 1.
Proof.
  repeat split; try (vm_compute; reflexivity).
  vm_compute. discriminate.
Qed.

(** ** Warranties that end today *)

Lemma or_number_zero n : or_number (Some n) 0 = n.
Proof. unfold or_number. destruct (Z.eqb_spec n 0); congruence. Qed.

Lemma ceil_div_today t :
  ceil_div (getTime (ofDATE (Day t)) - getTime t) (1000 * 60 * 60 * 24) = 0.
Proof.
  change (1000 * 60 * 60 * 24) with msPerDay.
  unfold ceil_div, getTime, ofDATE, MakeDate, Day, msPerDay. div_lia.
Qed.

Lemma size_filter_delete {A} (P : string * A -> Prop)
    `{!forall x, Decision (P x)} (m : gmap string A) id s :
  m !! id = Some s ->
  size (filter P m)
  = (size (filter P (delete id m)) + (if decide (P (id, s)) then 1 else 0))%nat.
Proof.
  intros Hm.
  rewrite <- (insert_id m id s Hm) at 1.
  rewrite <- insert_delete_eq.
  rewrite map_filter_insert.
  destruct (decide (P (id, s))).
  - rewrite map_size_insert_None; [lia|].
    apply map_lookup_filter_None_2. left. apply lookup_delete_eq.
  - rewrite delete_delete_eq. lia.
Qed.

Lemma count_sales_delete cond db id s :
  sales db !! id = Some s ->
  count_sales cond db
  = count_sales cond (set_sales (delete id) db) + (if cond s then 1 else 0).
Proof.
  intros Hs. unfold count_sales. cbn [sales set_sales].
  rewrite (size_filter_delete _ _ id s Hs). cbn [snd].
  destruct (cond s); destruct (decide _); try congruence; lia.
Qed.

(** C4, as amended: for a sale whose warranty ends on the current day,
    [checkWarrantyStatus] reports zero days left and neither an active nor
    an expiring warranty, and [getWarrantyStatistics] leaves it out of the
    active count; the expiring-soon count, whose window is closed at
    today, counts it. *)
Theorem warranty_ending_today env db id s :
  sales db !! id = Some s ->
  s_warranty_end s = CURRENT_DATE env ->
  let others := set_sales (delete id) db in
  checkWarrantyStatus env id db
  = inr {| isActive := false; isExpiringSoon := false; daysUntilExpiry := 0;
           ws_warrantyEnd := ofDATE (s_warranty_end s) |} /\
  totalActiveWarranties (getWarrantyStatistics env db)
  = totalActiveWarranties (getWarrantyStatistics env others) /\
  expiringSoonCount (getWarrantyStatistics env db)
  = expiringSoonCount (getWarrantyStatistics env others) + 1.
Proof.
  intros Hs Hend others. repeat split.
  - unfold checkWarrantyStatus, isWarrantyExpiringSoon,
      getDaysUntilWarrantyExpiry.
    rewrite Hs, Hend. unfold CURRENT_DATE. rewrite ceil_div_today.
    reflexivity.
  - unfold getWarrantyStatistics. cbn [totalActiveWarranties].
    rewrite !or_number_zero. rewrite (count_sales_delete _ db id s Hs).
    rewrite Hend, Z.ltb_irrefl. fold others. lia.
  - unfold getWarrantyStatistics. cbn [expiringSoonCount].
    rewrite !or_number_zero. rewrite (count_sales_delete _ db id s Hs).
    rewrite Hend, Z.leb_refl. fold others.
    destruct (Z.leb_spec (CURRENT_DATE env) (CURRENT_DATE env + 30)); [|lia].
    reflexivity.
Qed.

Lemma warranty_ending_today_witness :
  sales (sample_db_with_sale 19737 None) !! sale1
  = Some (sample_sale 19737 None) /\
  s_warranty_end (sample_sale 19737 None) = CURRENT_DATE sample_env /\
  checkWarrantyStatus sample_env sale1 (sample_db_with_sale 19737 None)
  = inr {| isActive := false; isExpiringSoon := false; daysUntilExpiry := 0;
           ws_warrantyEnd := ofDATE 19737 |}.
Proof.
  assert (H1 : sales (sample_db_with_sale 19737 None) !! sale1
               = Some (sample_sale 19737 None)) by (vm_compute; reflexivity).
  assert (H2 : s_warranty_end (sample_sale 19737 None)
               = CURRENT_DATE sample_env) by (vm_compute; reflexivity).
  split; [exact H1 | split; [exact H2 |]].
  exact (proj1 (warranty_ending_today sample_env
                  (sample_db_with_sale 19737 None) sale1
                  (sample_sale 19737 None) H1 H2)).
Defined.

(** C4, as stated, fails for the statistics: the sale ending today is part
    of the expiring-soon count. *)
Lemma warranty_ending_today_counted :
  s_warranty_end (sample_sale 19737 None) = CURRENT_DATE sample_env /\
  expiringSoonCount
    (getWarrantyStatistics sample_env (sample_db_with_sale 19737 None)) = 1 /\
  expiringSoonCount
    (getWarrantyStatistics sample_env
       (set_sales (delete sale1) (sample_db_with_sale 19737 None))) = 0 /\
  expiringSoonCount
    (getWarrantyStatistics sample_env (sample_db_with_sale 19737 None))
  <> expiringSoonCount
       (getWarrantyStatistics sample_env
          (set_sales (delete sale1) (sample_db_with_sale 19737 None))).
Proof.
  repeat split; try (vm_compute; reflexivity).
  vm_compute. discriminate.
Qed.

(** ** The widths of the columns *)

Lemma varchar_fits n s : (char_length s <= n)%nat -> varchar n s = Some s.
Proof.
  intros H. unfold varchar.
  replace (char_length s - n)%nat with 0%nat by lia. reflexivity.
Qed.

Lemma string_length_list s :
  String.length s = length (String.list_ascii_of_string s).
Proof. induction s as [|c s IH]; [reflexivity|]. cbn. now rewrite IH. Qed.

Lemma char_length_le s : (char_length s <= String.length s)%nat.
Proof.
  unfold char_length. rewrite string_length_list. apply List.filter_length_le.
Qed.

(** What a column keeps of a text that is not empty is not empty. *)
Lemma varchar_nonempty n s s' :
  (0 < n)%nat -> s <> "" -> varchar n s = Some s' -> s' <> "".
Proof.
  intros Hn Hs. unfold varchar.
  destruct (char_length s - n =? 0)%nat eqn:E; [congruence|].
  apply Nat.eqb_neq in E.
  destruct (forallb _ _); [|discriminate]. intros [= <-].
  pose proof (char_length_le s) as Hle.
  rewrite string_length_list in Hle.
  destruct (String.list_ascii_of_string s) as [|c l] eqn:El;
    [cbn in Hle; lia|].
  replace (length (c :: l) - (char_length s - n))%nat
    with (S (length l - (char_length s - n)))%nat by (cbn [length] in *; lia).
  cbn. discriminate.
Qed.

Lemma length_append a b :
  String.length (a +:+ b) = (String.length a + String.length b)%nat.
Proof.
  induction a as [|c a IH]; [reflexivity|].
  change (String c a +:+ b) with (String c (a +:+ b)).
  cbn [String.length]. now rewrite IH.
Qed.

Lemma insert_sale_inr id s db r db1 :
  insert_sale id s db = (inr r, db1) ->
  exists row,
    stored_sale s = inr row /\ r = (id, row)
    /\ db1 = set_sales (insert id row) db.
Proof.
  unfold insert_sale. destruct (stored_sale s) as [e|row]; [discriminate|].
  repeat case_match; intros [= <- <-]; eauto.
Qed.

Lemma stored_sale_serial s row :
  stored_sale s = inr row ->
  s_serial_number s <> Some "" -> s_serial_number row <> Some "".
Proof.
  unfold stored_sale. destruct (negb _); [discriminate|].
  destruct (s_serial_number s) as [serial|].
  - destruct (varchar 255 serial) as [v|] eqn:Hv; cbn; [|discriminate].
    intros [= <-] Hne. cbn. intros [= ->].
    apply (varchar_nonempty 255 serial "" ltac:(lia)); congruence.
  - intros [= <-] _. cbn. discriminate.
Qed.

Lemma stored_sale_inr s row :
  stored_sale s = inr row ->
  decimal_10_2 (s_unit_price s) = true
  /\ decimal_10_2 (s_total_price s) = true
  /\ s_product_id row = s_product_id s
  /\ s_customer_id row = s_customer_id s
  /\ s_seller_id row = s_seller_id s
  /\ s_quantity row = s_quantity s
  /\ s_unit_price row = s_unit_price s
  /\ s_total_price row = s_total_price s
  /\ s_warranty_period_months row = s_warranty_period_months s
  /\ s_warranty_start row = s_warranty_start s
  /\ s_warranty_end row = s_warranty_end s.
Proof.
  unfold stored_sale.
  destruct (decimal_10_2 (s_unit_price s)); cbn [andb negb];
    [|intros H; discriminate H].
  destruct (decimal_10_2 (s_total_price s)); cbn [andb negb];
    [|intros H; discriminate H].
  destruct (s_serial_number s) as [serial|];
    [destruct (varchar 255 serial); cbn|];
    intros H; try discriminate H; injection H as <-; cbn;
    split_and!; reflexivity.
Qed.

Lemma stored_sale_inl s e :
  stored_sale s = inl e ->
  e = PgError numeric_value_out_of_range
  \/ e = PgError string_data_right_truncation.
Proof.
  unfold stored_sale. destruct (negb _); [intros [= <-]; tauto|].
  destruct (s_serial_number s) as [serial|];
    [destruct (varchar 255 serial); cbn|];
    intros H; try discriminate H; injection H as <-; tauto.
Qed.

(** What the [INSERT] of a sale can do: refuse a value for its width, a
    row for a check, the key or a foreign key, and change nothing; or add
    the row as the columns take it. *)
Lemma insert_sale_cases id s db r db1 :
  insert_sale id s db = (r, db1) ->
  (db1 = db
   /\ (r = inl (PgError check_violation)
       \/ r = inl (PgError unique_violation)
       \/ r = inl (PgError foreign_key_violation)
       \/ r = inl (PgError numeric_value_out_of_range)
       \/ r = inl (PgError string_data_right_truncation)))
  \/ (exists row,
        stored_sale s = inr row
        /\ r = inr (id, row)
        /\ db1 = set_sales (insert id row) db
        /\ 0 < s_quantity row /\ 0 < s_unit_price row
        /\ 0 < s_total_price row /\ 0 < s_warranty_period_months row
        /\ sales db !! id = None
        /\ is_Some (products db !! s_product_id row)
        /\ is_Some (customers db !! s_customer_id row)
        /\ is_Some (users db !! s_seller_id row)).
Proof.
  unfold insert_sale.
  destruct (stored_sale s) as [e|row] eqn:Hstored.
  { intros [= <- <-]. left. split; [reflexivity|].
    apply stored_sale_inl in Hstored as [->| ->]; tauto. }
  destruct ((0 <? s_quantity row) && (0 <? s_unit_price row)
            && (0 <? s_total_price row)
            && (0 <? s_warranty_period_months row)) eqn:Hchk;
    cbn [negb].
  2:{ intros [= <- <-]. left. split; [reflexivity|]. tauto. }
  destruct (bool_decide (is_Some (sales db !! id))) eqn:Hpk.
  { intros [= <- <-]. left. split; [reflexivity|]. tauto. }
  destruct (bool_decide (is_Some (products db !! s_product_id row))
            && bool_decide (is_Some (customers db !! s_customer_id row))
            && bool_decide (is_Some (users db !! s_seller_id row)))
    eqn:Hfk; cbn [negb].
  2:{ intros [= <- <-]. left. split; [reflexivity|]. tauto. }
  intros [= <- <-]. right. exists row.
  apply bool_decide_eq_false_1 in Hpk.
  rewrite !andb_true_iff, !Z.ltb_lt in Hchk.
  rewrite !andb_true_iff in Hfk.
  destruct Hfk as [[Hf1 Hf2] Hf3].
  apply bool_decide_eq_true_1 in Hf1, Hf2, Hf3.
  split_and!; try reflexivity; try tauto.
  destruct (sales db !! id) eqn:E; [|reflexivity].
  exfalso. apply Hpk. eauto.
Qed.

(** What the [INSERT] of an image can do: refuse the row, and change
    nothing, or add it as the columns take it. *)
Lemma insert_sale_image_cases env id saleId imageType url db r db1 :
  insert_sale_image env id saleId imageType url db = (r, db1) ->
  (db1 = db
   /\ ((r = inl (PgError string_data_right_truncation)
        /\ (varchar 50 imageType = None \/ varchar 500 url = None))
       \/ (r = inl (PgError check_violation)
           /\ exists t, varchar 50 imageType = Some t
                        /\ t ∉ image_types_allowed)
       \/ (r = inl (PgError unique_violation)
           /\ is_Some (sale_images db !! id))
       \/ (r = inl (PgError foreign_key_violation)
           /\ sales db !! saleId = None)))
  \/ (exists image_type image_url,
        varchar 50 imageType = Some image_type
        /\ varchar 500 url = Some image_url
        /\ r = inr (id, {| i_sale_id := saleId; i_image_type := image_type;
                           i_image_url := image_url;
                           i_uploaded_at := now env |})
        /\ db1 = set_sale_images
                   (insert id {| i_sale_id := saleId;
                                 i_image_type := image_type;
                                 i_image_url := image_url;
                                 i_uploaded_at := now env |}) db
        /\ image_type ∈ image_types_allowed
        /\ sale_images db !! id = None
        /\ is_Some (sales db !! saleId)).
Proof.
  unfold insert_sale_image.
  destruct (varchar 50 imageType) as [image_type|].
  2:{ intros [= <- <-]. left. split; [reflexivity|]. left. auto. }
  destruct (varchar 500 url) as [image_url|].
  2:{ intros [= <- <-]. left. split; [reflexivity|]. left. auto. }
  cbv zeta.
  destruct (bool_decide (image_type ∈ image_types_allowed)) eqn:Hty;
    cbn [negb].
  2:{ intros [= <- <-]. left. split; [reflexivity|]. right. left.
      apply bool_decide_eq_false_1 in Hty. eauto. }
  destruct (bool_decide (is_Some (sale_images db !! id))) eqn:Hpk.
  { intros [= <- <-]. left. split; [reflexivity|]. do 2 right. left.
    apply bool_decide_eq_true_1 in Hpk. auto. }
  destruct (bool_decide (is_Some (sales db !! saleId))) eqn:Hfk;
    cbn [negb].
  2:{ intros [= <- <-]. left. split; [reflexivity|]. do 3 right.
      apply bool_decide_eq_false_1 in Hfk.
      destruct (sales db !! saleId) eqn:E; [|auto].
      exfalso. apply Hfk. eauto. }
  intros [= <- <-]. right. exists image_type, image_url.
  apply bool_decide_eq_true_1 in Hty, Hfk.
  apply bool_decide_eq_false_1 in Hpk.
  split_and!; try reflexivity; try assumption.
  destruct (sale_images db !! id) eqn:E; [|reflexivity].
  exfalso. apply Hpk. eauto.
Qed.

Lemma decimal_10_2_spec cents :
  decimal_10_2 cents = true <-> - 10000000000 < cents < 10000000000.
Proof. unfold decimal_10_2. rewrite Z.ltb_lt. lia. Qed.

(** ** Sale creation *)

Lemma truthy_string_Some s : s <> "" -> truthy_string (Some s) = true.
Proof.
  intros Hs. unfold truthy_string.
  destruct (String.eqb_spec s ""); [contradiction | reflexivity].
Qed.






(** C2, as amended: when the stock read inside the transaction is below
    the requested quantity, [createSale] throws a [ValidationError] whose
    message gives the available and the requested quantities, in the
    words of the code: "Stock insuficiente. Disponible: ..., Solicitado:
    ...".  The store is as before: no sale row, same stock. *)
Theorem createSale_insufficient_stock env req db p seller :
  userId req = Some seller -> seller <> "" ->
  products db !! product_id req = Some p ->
  p_is_active p = true ->
  p_stock p < quantity req ->
  createSale env req db
  = (inl (ValidationError
            ("Stock insuficiente. Disponible: " +:+ pretty (p_stock p)
             +:+ ", Solicitado: " +:+ pretty (quantity req))), db).
Proof.
  intros Hu Hne Hp Hact Hlt.
  unfold createSale, transaction, createSale_body.
  unfold bind, guard, read, select_active_product.
  rewrite Hu, (truthy_string_Some seller Hne). cbn [ret].
  rewrite Hp, Hact.
  destruct (Z.ltb_spec (p_stock p) (quantity req)) as [_|Hge]; [|lia].
  reflexivity.
Qed.

Lemma createSale_insufficient_stock_witness :
  createSale sample_env (sample_request 5) (sample_db 2)
  = (inl (CustomError ValidationErrorC
            "Stock insuficiente. Disponible: 2, Solicitado: 5" 400),
     sample_db 2) /\
  sales (sample_db 2) = ∅ /\
  p_stock <$> products (sample_db 2) !! product1 = Some 2.
Proof.
  assert (H1 : userId (sample_request 5) = Some seller1) by reflexivity.
  assert (H2 : seller1 <> "") by discriminate.
  assert (H3 : products (sample_db 2) !! product_id (sample_request 5)
               = Some (sample_product 2)) by (vm_compute; reflexivity).
  assert (H4 : p_is_active (sample_product 2) = true) by reflexivity.
  assert (H5 : p_stock (sample_product 2) < quantity (sample_request 5))
    by reflexivity.
  split; [|split; vm_compute; reflexivity].
  exact (createSale_insufficient_stock sample_env (sample_request 5)
           (sample_db 2) (sample_product 2) seller1 H1 H2 H3 H4 H5).
Defined.

(** C2, as stated, fails on the wording of the message: with stock 2 and
    quantity 5 the error reads "Disponible: 2, Solicitado: 5" and does not
    contain "available: 2, requested: 5". *)
Lemma createSale_message_wording :
  exists e,
    createSale sample_env (sample_request 5) (sample_db 2)
    = (inl e, sample_db 2) /\
    message_of e = "Stock insuficiente. Disponible: 2, Solicitado: 5" /\
    includes "Disponible: 2, Solicitado: 5" (message_of e) = true /\
    includes "available: 2, requested: 5" (message_of e) = false.
Proof.
  eexists. split; [vm_compute; reflexivity|].
  repeat split; vm_compute; reflexivity.
Qed.

(** ** Customer deletion *)

Lemma no_sales_of_customer id db :
  count_sales_of_customer id db = 0%nat ->
  forall k s, sales db !! k = Some s -> s_customer_id s <> id.
Proof.
  unfold count_sales_of_customer. intros Hn k s Hs Heq.
  apply map_size_empty_inv in Hn.
  assert (Hin : filter (fun kv : string * Sale => s_customer_id kv.2 = id)
                  (sales db) !! k = Some s)
    by (apply map_lookup_filter_Some_2; [exact Hs | exact Heq]).
  rewrite Hn, lookup_empty in Hin. discriminate.
Qed.

(** C7: [deleteCustomer] answers a missing id with a not-found error;
    refuses, with a conflict error that names the number of sales, to
    delete a customer who has sales, and then changes nothing; and deletes
    a customer without sales, touching no other row.  So an existing
    customer is removed exactly when it owns no sale. *)
Theorem deleteCustomer_guard id db :
  let n := count_sales_of_customer id db in
  let r := (deleteCustomer id db).1 in
  let db1 := (deleteCustomer id db).2 in
  (customers db !! id = None ->
   r = inl (NotFoundError "Cliente no encontrado") /\ db1 = db) /\
  (is_Some (customers db !! id) -> (0 < n)%nat ->
   r = inl (ConflictError
              ("No se puede eliminar el cliente. Tiene " +:+ pretty n
               +:+ " venta(s) asociada(s)")) /\
   db1 = db) /\
  (is_Some (customers db !! id) -> n = 0%nat ->
   (exists message, r = inr message) /\
   customers db1 = delete id (customers db) /\
   sales db1 = sales db /\
   sale_images db1 = sale_images db /\
   products db1 = products db /\
   users db1 = users db) /\
  (is_Some (customers db !! id) ->
   (customers db1 !! id = None <-> n = 0%nat)).
Proof.
  intros n r db1. subst r db1.
  unfold deleteCustomer, bind, read, guard.
  destruct (customers db !! id) as [c|] eqn:Hc.
  - fold n. destruct (Nat.ltb_spec 0 n) as [Hpos|Hzero];
      cbn [negb throw ret delete_customer fst snd].
    + split; [intros; discriminate|].
      split; [intros _ _; split; reflexivity|].
      split; [intros _ Hn; lia|].
      intros _. rewrite Hc. split; [discriminate | lia].
    + assert (Hn : n = 0%nat) by lia.
      pose proof (no_sales_of_customer id db Hn) as Hnone.
      assert (Hsales : filter (fun kv : string * Sale => s_customer_id kv.2 <> id)
                         (sales db) = sales db).
      { apply map_filter_id. intros k s Hs. cbn. eauto. }
      assert (Himg : filter (fun kv : string * SaleImage =>
                               s_customer_id <$> sales db !! i_sale_id kv.2
                               <> Some id)
                       (sale_images db) = sale_images db).
      { apply map_filter_id. intros k img _. cbn.
        destruct (sales db !! i_sale_id img) as [s|] eqn:Hs; cbn;
          [|discriminate].
        intros [= Heq]. exact (Hnone _ _ Hs Heq). }
      cbn [customers sales sale_images products users].
      split; [intros; discriminate|].
      split; [intros _ Hlt; lia|].
      split.
      * intros _ _. split; [eexists; reflexivity|].
        repeat split; assumption || reflexivity.
      * intros _. split; [intros _; exact Hn|].
        intros _. apply lookup_delete_eq.
  - cbn [throw fst snd].
    split; [intros _; split; reflexivity|].
    split; [intros [? ?]; discriminate|].
    split; intros [? ?]; discriminate.
Qed.

Lemma deleteCustomer_guard_witness :
  is_Some (customers (sample_db_with_sale 19737 None) !! customer1) /\
  (0 < count_sales_of_customer customer1 (sample_db_with_sale 19737 None))%nat /\
  (deleteCustomer customer1 (sample_db_with_sale 19737 None)).1
  = inl (CustomError ConflictErrorC
           "No se puede eliminar el cliente. Tiene 1 venta(s) asociada(s)"
           409) /\
  (deleteCustomer customer1 (sample_db_with_sale 19737 None)).2
  = sample_db_with_sale 19737 None.
Proof.
  assert (H1 : is_Some (customers (sample_db_with_sale 19737 None)
                          !! customer1)).
  { exists sample_customer. vm_compute. reflexivity. }
  assert (H2 : (0 < count_sales_of_customer customer1
                      (sample_db_with_sale 19737 None))%nat).
  { vm_compute. lia. }
  split; [exact H1 | split; [exact H2 |]].
  exact (proj1 (proj2 (deleteCustomer_guard customer1
                         (sample_db_with_sale 19737 None))) H1 H2).
Defined.

(** ** The default threshold of the expiring-warranties endpoint *)

(** C10: without a [days] parameter, or with one that [parseInt] reads as
    [NaN] or as zero, the controller asks [getExpiringWarranties] for 30
    days and echoes 30 as the threshold; and [getExpiringWarranties]
    called without a threshold uses 30 as well.  This holds in every time
    zone, and also when the service throws: the controller passes the
    error on. *)
Theorem expiring_controller_default_days zones env query_days db :
  query_days = None \/
  (exists s, query_days = Some s /\ (parseInt s = None \/ parseInt s = Some 0)) ->
  getExpiringWarrantiesController zones env query_days db
  = sum_map id
      (fun warranties =>
         {| er_warranties := warranties;
            er_count := length warranties;
            er_days_threshold := 30 |})
      (getExpiringWarranties zones env (Some 30) db) /\
  getExpiringWarranties zones env None db
  = getExpiringWarranties zones env (Some 30) db.
Proof.
  intros Hq. split.
  - unfold getExpiringWarrantiesController.
    assert (Hdays : or_number (parseInt_param query_days) 30 = 30).
    { destruct Hq as [->|(s & -> & [Hs|Hs])]; cbn [parseInt_param];
        [reflexivity | rewrite Hs; reflexivity | rewrite Hs; reflexivity]. }
    rewrite Hdays. reflexivity.
  - unfold getExpiringWarranties. cbn [default]. reflexivity.
Qed.

Lemma expiring_controller_default_days_witness :
  parseInt "treinta" = None /\
  (exists r,
     getExpiringWarrantiesController UTC_zones sample_env (Some "treinta")
       (sample_db_with_sale 19740 None) = inr r
     /\ er_days_threshold r = 30) /\
  parseInt " -0" = Some 0 /\
  (exists r,
     getExpiringWarrantiesController UTC_zones sample_env (Some " -0")
       (sample_db_with_sale 19740 None) = inr r
     /\ er_days_threshold r = 30).
Proof.
  assert (H1 : parseInt "treinta" = None) by reflexivity.
  assert (H2 : parseInt " -0" = Some 0) by reflexivity.
  assert (Hrun : forall r,
            sum_map id
              (fun warranties =>
                 {| er_warranties := warranties;
                    er_count := length warranties;
                    er_days_threshold := 30 |})
              (getExpiringWarranties UTC_zones sample_env (Some 30)
                 (sample_db_with_sale 19740 None)) = r ->
            exists r', r = inr r' /\ er_days_threshold r' = 30).
  { intros r <-.
    destruct (getExpiringWarranties UTC_zones sample_env (Some 30)
                (sample_db_with_sale 19740 None)) as [e|ws] eqn:E.
    - exfalso. vm_compute in E. discriminate E.
    - eexists. split; reflexivity. }
  split; [exact H1|]. split.
  - apply Hrun. symmetry.
    exact (proj1 (expiring_controller_default_days UTC_zones sample_env
                    (Some "treinta") (sample_db_with_sale 19740 None)
                    (or_intror (ex_intro _ "treinta"
                                  (conj eq_refl (or_introl H1)))))).
  - split; [exact H2|].
    apply Hrun. symmetry.
    exact (proj1 (expiring_controller_default_days UTC_zones sample_env
                    (Some " -0") (sample_db_with_sale 19740 None)
                    (or_intror (ex_intro _ " -0"
                                  (conj eq_refl (or_intror H2)))))).
Defined.

(** ** Image attachment *)

Lemma uploadImage_ok env file imageType :
  f_size file <= maxFileSize ->
  exists result, uploadImage env file imageType = inr result.
Proof.
  intros Hsize. unfold uploadImage.
  destruct (Z.ltb_spec maxFileSize (f_size file)); [lia|].
  eexists. reflexivity.
Qed.

Lemma allowed_type_fits imageType :
  imageType ∈ image_types_allowed -> varchar 50 imageType = Some imageType.
Proof.
  intros H. apply varchar_fits. unfold image_types_allowed in H.
  rewrite !elem_of_cons, elem_of_nil in H.
  destruct H as [->|[->|[->|[]]]]; vm_compute; lia.
Qed.

(** The promise of a file of an allowed type and size, whose address fits
    its column and whose generated identifier is unused, inserts its
    row. *)
Lemma image_task_ok env saleId index file imageType db :
  imageType ∈ image_types_allowed ->
  f_size file <= maxFileSize ->
  url_fits env file imageType ->
  is_Some (sales db !! saleId) ->
  sale_images db !! uuid env index = None ->
  exists img,
    i_sale_id img = saleId /\ i_image_type img = imageType /\
    image_task env saleId index file imageType db
    = (Fulfilled (uuid env index, img),
       set_sale_images (insert (uuid env index) img) db).
Proof.
  intros Hty Hsize Hurl Hsale Hfresh.
  destruct (uploadImage_ok env file imageType Hsize) as [up Hup].
  unfold image_task, insert_sale_image.
  rewrite (bool_decide_eq_true_2 _ Hty). cbn [negb].
  rewrite Hup, (allowed_type_fits _ Hty), (varchar_fits 500 _ (Hurl _ Hup)).
  cbv beta iota zeta.
  rewrite (bool_decide_eq_true_2 _ Hty). cbn [negb].
  rewrite Hfresh.
  rewrite (bool_decide_eq_false_2 (is_Some None))
    by (intros [? ?]; discriminate).
  rewrite (bool_decide_eq_true_2 _ Hsale). cbn [negb].
  eexists. split; [|split; [|reflexivity]]; reflexivity.
Qed.

Lemma image_task_bad_type env saleId index file imageType db :
  imageType ∉ image_types_allowed ->
  image_task env saleId index file imageType db
  = (RejectedSync
       (ValidationError ("Tipo de imagen inválido: " +:+ imageType)), db).
Proof.
  intros Hty. unfold image_task.
  rewrite (bool_decide_eq_false_2 _ Hty). reflexivity.
Qed.

Lemma run_tasks_ok env saleId tasks : forall index db,
  Forall (fun t : File * string =>
            t.2 ∈ image_types_allowed /\ f_size t.1 <= maxFileSize
            /\ url_fits env t.1 t.2) tasks ->
  is_Some (sales db !! saleId) ->
  (forall i, (index <= i < index + length tasks)%nat ->
             sale_images db !! uuid env i = None) ->
  (forall i j, (index <= i < j)%nat -> (j < index + length tasks)%nat ->
               uuid env i <> uuid env j) ->
  exists rows db1,
    run_tasks env saleId index tasks db = (Fulfilled <$> rows, db1) /\
    length rows = length tasks /\
    users db1 = users db /\ products db1 = products db /\
    customers db1 = customers db /\ sales db1 = sales db /\
    size (sale_images db1) = (size (sale_images db) + length tasks)%nat /\
    (forall k img, sale_images db !! k = Some img ->
                   sale_images db1 !! k = Some img) /\
    (forall j t, tasks !! j = Some t ->
       exists img, sale_images db1 !! uuid env (index + j) = Some img /\
                   i_sale_id img = saleId /\ i_image_type img = t.2).
Proof.
  induction tasks as [|[file imageType] rest IH];
    intros index db Hall Hsale Hfresh Hdistinct.
  - exists [], db. cbn. repeat split; try reflexivity; try lia; auto.
    intros j t Hj. rewrite lookup_nil in Hj. discriminate.
  - apply Forall_cons in Hall as [(Hty & Hsize & Hurl) Hall].
    cbn [fst snd] in *.
    destruct (image_task_ok env saleId index file imageType db Hty Hsize Hurl
                Hsale)
      as (img & Hid & Hit & Htask).
    { apply Hfresh. cbn [length]. lia. }
    set (db0 := set_sale_images (insert (uuid env index) img) db) in *.
    destruct (IH (S index) db0 Hall) as
      (rows & db1 & Hrun & Hlen & Hu & Hp & Hc & Hs & Hsize1 & Hmono & Hrows).
    + exact Hsale.
    + intros i Hi. unfold db0. cbn [sale_images set_sale_images].
      rewrite lookup_insert_ne.
      * apply Hfresh. cbn [length]. lia.
      * apply Hdistinct; cbn [length]; lia.
    + intros i j Hij Hj. apply Hdistinct; cbn [length]; lia.
    + exists ((uuid env index, img) :: rows), db1.
      cbn [run_tasks]. rewrite Htask, Hrun.
      assert (Hsize0 : size (sale_images db0) = S (size (sale_images db))).
      { unfold db0. cbn [sale_images set_sale_images].
        apply map_size_insert_None, Hfresh. cbn [length]. lia. }
      split; [reflexivity|].
      split; [cbn [length]; lia|].
      split; [exact Hu|]. split; [exact Hp|]. split; [exact Hc|].
      split; [exact Hs|].
      split; [rewrite Hsize1, Hsize0; cbn [length]; lia|].
      split.
      * intros k img0 Hk. apply Hmono. unfold db0.
        cbn [sale_images set_sale_images].
        rewrite lookup_insert_ne; [exact Hk|].
        intros Heq. subst k.
        rewrite Hfresh in Hk; [discriminate | cbn [length]; lia].
      * intros [|j] t Hj.
        -- cbn in Hj. injection Hj as <-.
           exists img. rewrite Nat.add_0_r.
           split; [|split; assumption].
           apply Hmono. unfold db0. cbn [sale_images set_sale_images].
           apply lookup_insert_eq.
        -- cbn in Hj. destruct (Hrows j t Hj) as (img0 & H0 & H1 & H2).
           exists img0. replace (index + S j)%nat with (S index + j)%nat by lia.
           auto.
Qed.

Lemma Promise_all_fulfilled rows :
  Promise_all (Fulfilled <$> rows) = inr rows.
Proof.
  unfold Promise_all.
  assert (H : omap sync_rejection (Fulfilled <$> rows) = []
              /\ omap upload_rejection (Fulfilled <$> rows) = []
              /\ omap insert_rejection (Fulfilled <$> rows) = []
              /\ omap fulfilled (Fulfilled <$> rows) = rows).
  { induction rows as [|row rows (H1 & H2 & H3 & H4)]; [now cbn|].
    cbn. rewrite H1, H2, H3, H4. auto. }
  destruct H as (-> & -> & -> & ->). reflexivity.
Qed.

(** C5, what the code does: an upload for an existing sale whose files
    all carry an allowed type, are within the size limit and get an
    address that fits its column is accepted whether or not the sale
    already has images of those types.  Every file adds one [SaleImage]
    row of its type, the rows already there stay, and no conflict is
    raised: the handler does not look for an image of the type, and the
    table has no uniqueness rule on (sale, image type).  In particular
    the three distinct types can be uploaded for a sale. *)
Theorem uploadSaleImages_accepts env req db files image_types :
  ui_files req = Some files ->
  ui_image_types req = Some image_types ->
  files <> [] ->
  length files = length image_types ->
  Forall (fun imageType => imageType ∈ image_types_allowed) image_types ->
  Forall (fun file => f_size file <= maxFileSize) files ->
  (forall i file imageType,
     files !! i = Some file -> image_types !! i = Some imageType ->
     url_fits env file imageType) ->
  is_Some (sales db !! ui_sale_id req) ->
  (forall i, (i < length files)%nat -> sale_images db !! uuid env i = None) ->
  (forall i j, (i < j < length files)%nat -> uuid env i <> uuid env j) ->
  exists resp db1,
    uploadSaleImages env req db = (inr resp, db1) /\
    ur_status resp = 201 /\
    length (ur_images resp) = length files /\
    size (sale_images db1) = (size (sale_images db) + length files)%nat /\
    (forall k img, sale_images db !! k = Some img ->
                   sale_images db1 !! k = Some img) /\
    (forall i imageType, image_types !! i = Some imageType ->
       exists img, sale_images db1 !! uuid env i = Some img /\
                   i_sale_id img = ui_sale_id req /\
                   i_image_type img = imageType) /\
    sales db1 = sales db.
Proof.
  intros Hfiles Htypes Hne Hlen Hty Hsize Hurl Hsale Hfresh Hdistinct.
  assert (Htasks : Forall (fun t : File * string =>
                     t.2 ∈ image_types_allowed /\ f_size t.1 <= maxFileSize
                     /\ url_fits env t.1 t.2)
                     (zip files image_types)).
  { apply Forall_lookup. intros i [f ty] Hi.
    apply lookup_zip_Some in Hi as [Hf Ht]. cbn [fst snd]. split_and!.
    - exact (proj1 (Forall_lookup _ _) Hty i ty Ht).
    - exact (proj1 (Forall_lookup _ _) Hsize i f Hf).
    - exact (Hurl i f ty Hf Ht). }
  assert (Hziplen : length (zip files image_types) = length files).
  { rewrite length_zip. lia. }
  destruct (run_tasks_ok env (ui_sale_id req) (zip files image_types) 0 db
              Htasks Hsale) as
    (rows & db1 & Hrun & Hrows & _ & _ & _ & Hs & Hsz & Hmono & Hnew).
  { intros i Hi. apply Hfresh. lia. }
  { intros i j Hij Hj. apply Hdistinct. lia. }
  unfold uploadSaleImages. rewrite Hfiles, Htypes.
  destruct files as [|file files]; [contradiction|].
  rewrite Hlen, Nat.eqb_refl. cbn [negb].
  destruct Hsale as [sale Hsale]. rewrite Hsale, Hrun, Promise_all_fulfilled.
  eexists _, _. split; [reflexivity|].
  cbn [ur_status ur_images].
  split; [reflexivity|].
  split; [lia|].
  split; [lia|].
  split; [exact Hmono|].
  split; [|exact Hs].
  intros i ty Hi.
  destruct (lookup_lt_is_Some_2 (file :: files) i) as [f Hf].
  { rewrite Hlen. eapply lookup_lt_Some, Hi. }
  destruct (Hnew i (f, ty)) as (img & H0 & H1 & H2).
  { apply lookup_zip_Some. split; assumption. }
  exists img. auto.
Qed.

Lemma uploadSaleImages_accepts_witness :
  exists resp db1,
    uploadSaleImages sample_env
      (sample_upload [sample_file; sample_file2; sample_file3]
         ["sealed"; "full_product"; "serial_number"])
      sample_db_with_image = (inr resp, db1) /\
    length (ur_images resp) = 3%nat /\
    size (sale_images db1) = 4%nat.
Proof.
  destruct (uploadSaleImages_accepts sample_env
              (sample_upload [sample_file; sample_file2; sample_file3]
                 ["sealed"; "full_product"; "serial_number"])
              sample_db_with_image
              [sample_file; sample_file2; sample_file3]
              ["sealed"; "full_product"; "serial_number"])
    as (resp & db1 & Hrun & _ & Hlen & Hsize & _).
  - reflexivity.
  - reflexivity.
  - discriminate.
  - reflexivity.
  - repeat constructor.
  - repeat constructor; vm_compute; discriminate.
  - intros i file imageType Hf Ht result Hup.
    destruct i as [|[|[|i]]]; cbn in Hf, Ht; try discriminate Hf;
      injection Hf as <-; injection Ht as <-;
      vm_compute in Hup; injection Hup as <-; vm_compute; lia.
  - exists (sample_sale 19737 None). vm_compute. reflexivity.
  - intros i Hi. cbn [length] in Hi.
    destruct i as [|[|[|i]]]; [vm_compute; reflexivity..|lia].
  - intros i j Hij. cbn [length] in Hij.
    destruct i as [|[|[|i]]]; destruct j as [|[|[|j]]]; try lia;
      vm_compute; discriminate.
  - exists resp, db1. split; [exact Hrun|]. split; [exact Hlen|].
    rewrite Hsize. vm_compute. reflexivity.
Defined.

(** C5, as stated, fails on the code: a sale that already has a sealed
    image accepts another one, and then holds two images of that
    type. *)
Lemma duplicate_image_type_accepted :
  images_of sale1 "sealed" sample_db_with_image = 1%nat /\
  exists resp db1,
    uploadSaleImages sample_env (sample_upload [sample_file] ["sealed"])
      sample_db_with_image = (inr resp, db1) /\
    images_of sale1 "sealed" db1 = 2%nat.
Proof.
  split; [vm_compute; reflexivity|].
  eexists _, _. split; [vm_compute; reflexivity|].
  vm_compute. reflexivity.
Qed.

(** A request whose first file is fine and whose second file declares a
    type that is not allowed: the handler throws the validation error of
    the second file, and the row of the first file is in the store. *)
Lemma uploadSaleImages_partial env saleId file1 type1 file2 type2 db :
  type1 ∈ image_types_allowed ->
  f_size file1 <= maxFileSize ->
  url_fits env file1 type1 ->
  type2 ∉ image_types_allowed ->
  is_Some (sales db !! saleId) ->
  sale_images db !! uuid env 0 = None ->
  exists img,
    i_sale_id img = saleId /\ i_image_type img = type1 /\
    uploadSaleImages env
      {| ui_sale_id := saleId; ui_files := Some [file1; file2];
         ui_image_types := Some [type1; type2] |} db
    = (inl (ValidationError ("Tipo de imagen inválido: " +:+ type2)),
       set_sale_images (insert (uuid env 0) img) db).
Proof.
  intros Hty1 Hsize1 Hurl1 Hty2 Hsale Hfresh.
  destruct (image_task_ok env saleId 0 file1 type1 db Hty1 Hsize1 Hurl1 Hsale
              Hfresh)
    as (img & Hid & Hit & Htask).
  exists img. split; [exact Hid|]. split; [exact Hit|].
  unfold uploadSaleImages. cbn [ui_files ui_image_types ui_sale_id].
  destruct Hsale as [sale Hsale]. rewrite Hsale.
  cbn [length Nat.eqb negb zip_with run_tasks].
  rewrite Htask, (image_task_bad_type _ _ _ _ _ _ Hty2).
  reflexivity.
Qed.

(** C9: [uploadSaleImages] is not atomic.  There is a request, one file of
    an allowed type followed by one of a type that is not allowed, on
    which it fails with a validation error although the image row of the
    first file has been added to the store. *)
Theorem uploadSaleImages_not_atomic :
  exists env req db e db1 id img,
    uploadSaleImages env req db = (inl e, db1) /\
    is_class ValidationErrorC e /\
    sale_images db !! id = None /\
    sale_images db1 !! id = Some img /\
    i_sale_id img = ui_sale_id req /\
    size (sale_images db1) = S (size (sale_images db)).
Proof.
  destruct (uploadSaleImages_partial sample_env sale1 sample_file "sealed"
              sample_file2 "otro" (sample_db_with_sale 19737 None))
    as (img & Hid & _ & Hrun).
  - repeat constructor.
  - vm_compute. discriminate.
  - intros result Hup. vm_compute in Hup. injection Hup as <-.
    vm_compute. lia.
  - intros Hin. unfold image_types_allowed in Hin.
    repeat (apply elem_of_cons in Hin as [Hin|Hin]; [discriminate|]).
    apply elem_of_nil in Hin. exact Hin.
  - exists (sample_sale 19737 None). vm_compute. reflexivity.
  - vm_compute. reflexivity.
  - do 7 eexists. split; [exact Hrun|].
    split; [reflexivity|].
    cbn [sale_images set_sale_images ui_sale_id].
    split; [vm_compute; reflexivity|].
    split; [apply lookup_insert_eq|].
    split; [exact Hid|].
    apply map_size_insert_None. vm_compute. reflexivity.
Qed.

(** ** Serial extraction *)

Lemma append_nonempty_l a b : a <> "" -> a +:+ b <> "".
Proof. destruct a; [contradiction | discriminate]. Qed.

Lemma append_nonempty_r a b : b <> "" -> a +:+ b <> "".
Proof. destruct a; [trivial | discriminate]. Qed.

Lemma pretty_N_go_length x : forall s,
  (String.length s <= String.length (pretty_N_go x s))%nat.
Proof.
  induction (N.lt_wf_0 x) as [x _ IH]. intros s.
  destruct (N.eq_dec x 0%N) as [->|Hx].
  - rewrite pretty_N_go_0. lia.
  - rewrite pretty_N_go_step by lia.
    etransitivity; [|apply IH; apply N.div_lt; lia]. cbn. lia.
Qed.

Lemma pretty_N_nonempty (x : N) : pretty x <> "".
Proof.
  unfold pretty, pretty_N. destruct (decide (x = 0%N)); [discriminate|].
  rewrite pretty_N_go_step by lia.
  pose proof (pretty_N_go_length (x `div` 10)%N
                (String (pretty_N_char (x `mod` 10)%N) "")) as Hlen.
  intros Heq. rewrite Heq in Hlen. cbn in Hlen. lia.
Qed.

Lemma pretty_Z_nonempty (x : Z) : pretty x <> "".
Proof.
  destruct x as [|p|p]; cbn; [discriminate | apply pretty_N_nonempty |].
  discriminate.
Qed.

Lemma string_of_list_ascii_nonempty l :
  l <> [] -> String.string_of_list_ascii l <> "".
Proof. destruct l; [contradiction | discriminate]. Qed.

Lemma slice_last_nonempty n s : (0 < n)%nat -> s <> "" -> slice_last n s <> "".
Proof.
  intros Hn Hs. unfold slice_last.
  apply string_of_list_ascii_nonempty.
  assert (Hl : String.list_ascii_of_string s <> [])
    by (destruct s; [contradiction | discriminate]).
  intros Hdrop.
  apply (f_equal (@length ascii)) in Hdrop.
  rewrite length_drop in Hdrop. cbn in Hdrop.
  destruct (String.list_ascii_of_string s); [contradiction|].
  cbn [length] in Hdrop. lia.
Qed.

Lemma extractedSerial_nonempty env fileName :
  extractedSerial (extractSerialFromImage env fileName) <> "".
Proof.
  unfold extractSerialFromImage. cbn [extractedSerial].
  apply append_nonempty_r, append_nonempty_l, slice_last_nonempty; [lia|].
  apply pretty_Z_nonempty.
Qed.

(** The extracted value has twelve characters at most, so its column
    takes it as it is. *)
Lemma extractedSerial_length env fileName :
  (String.length (extractedSerial (extractSerialFromImage env fileName))
   <= 12)%nat.
Proof.
  unfold extractSerialFromImage. cbn [extractedSerial generateRandomLetters].
  assert (Hletter : forall i, (String.length (letters_charAt i) <= 1)%nat).
  { intros i. unfold letters_charAt. destruct (_ && _); cbn; lia. }
  rewrite !length_append. unfold substring0, slice_last.
  rewrite !string_length_list, !String.list_ascii_of_string_of_list_ascii.
  rewrite length_take, length_drop.
  pose proof (Hletter (Qfloor (random env 0 * 26))).
  pose proof (Hletter (Qfloor (random env 1 * 26))).
  pose proof (Hletter (Qfloor (random env 2 * 26))).
  rewrite <- !string_length_list. cbn [String.length]. lia.
Qed.

Lemma extractedSerial_fits env fileName :
  varchar 255 (extractedSerial (extractSerialFromImage env fileName))
  = Some (extractedSerial (extractSerialFromImage env fileName)).
Proof.
  apply varchar_fits. etrans; [apply char_length_le|].
  pose proof (extractedSerial_length env fileName). lia.
Qed.

(** One extraction on an existing sale, with a file within the size limit
    whose address fits its column, and an unused image identifier: it
    succeeds, and the serial number of the sale afterwards is the old one
    if that was non-empty and the extracted one otherwise. *)
Lemma extractSerial_run env id file db s :
  sales db !! id = Some s ->
  f_size file <= maxFileSize ->
  url_fits env file "serial_number" ->
  sale_images db !! uuid env 0 = None ->
  exists db1 img,
    extractSerial env {| es_sale_id := id; es_file := Some file |} db
    = (inr (extractSerialFromImage env (f_originalname file)), db1) /\
    serial_of id db1
    = Some (if truthy_string (s_serial_number s) then s_serial_number s
            else Some (extractedSerial
                         (extractSerialFromImage env (f_originalname file)))) /\
    sale_images db1 = <[uuid env 0 := img]> (sale_images db) /\
    i_sale_id img = id /\ i_image_type img = "serial_number".
Proof.
  intros Hs Hsize Hurl Hfresh.
  destruct (uploadImage_ok env file "serial_number" Hsize) as [up Hup].
  unfold extractSerial, bind, read, lift. cbn [es_sale_id es_file].
  rewrite Hs, Hup. cbn [ret].
  unfold insert_sale_image.
  rewrite (allowed_type_fits "serial_number") by (repeat constructor).
  rewrite (varchar_fits 500 _ (Hurl _ Hup)). cbv beta iota zeta.
  rewrite (bool_decide_eq_true_2 ("serial_number" ∈ image_types_allowed))
    by (repeat constructor).
  cbn [negb]. rewrite Hfresh.
  rewrite (bool_decide_eq_false_2 (is_Some None))
    by (intros [? ?]; discriminate).
  rewrite (bool_decide_eq_true_2 (is_Some (sales db !! id)))
    by (rewrite Hs; eauto).
  cbn [negb].
  destruct (truthy_string (s_serial_number s)) eqn:Htruthy; cbn [negb ret].
  - eexists _, _. split; [reflexivity|].
    unfold serial_of. cbn [sales set_sale_images sale_images].
    rewrite Hs. repeat split; reflexivity.
  - unfold update_serial_number. cbn [sales set_sale_images].
    rewrite Hs, extractedSerial_fits. eexists _, _. split; [reflexivity|].
    unfold serial_of. cbn [sales set_sales set_sale_images sale_images].
    rewrite lookup_insert_eq. repeat split; reflexivity.
Qed.

(** The handlers never store an empty serial number: [createSale] turns
    an empty one into [null], and [extractSerial] writes a value that is
    not empty.  So in the stores these handlers produce, a serial number
    that is not [null] is not empty either. *)
Lemma createSale_serials_nonempty env req db r db1 :
  createSale env req db = (r, db1) ->
  serials_nonempty db -> serials_nonempty db1.
Proof.
  unfold createSale, transaction.
  destruct (createSale_body env req db) as [[e|resp] db2] eqn:Hbody;
    intros [= <- <-]; [trivial|].
  intros Hinv. revert Hbody.
  unfold createSale_body, bind, guard, read, update_stock, ret, throw.
  repeat case_match; intros Hbody; simplify_eq.
  all: match goal with
       | H : insert_sale _ _ _ = (inr _, _) |- _ =>
           apply insert_sale_inr in H as (row & Hrow & -> & ->)
       end.
  all: apply stored_sale_serial in Hrow;
    [|cbn [s_serial_number];
      destruct (serial_number req) as [v|]; [|discriminate];
      destruct (truthy_string (Some v)) eqn:Hv; [|discriminate];
      intros [= ->]; discriminate Hv].
  all: intros id s Hs; cbn [sales set_products set_sales] in Hs;
    destruct (decide (uuid env 0 = id)) as [<-|Hid];
    [rewrite lookup_insert_eq in Hs; simplify_eq; exact Hrow
    | rewrite lookup_insert_ne in Hs by exact Hid; eauto].
Qed.

Lemma extractSerial_serials_nonempty env req db r db1 :
  extractSerial env req db = (r, db1) ->
  serials_nonempty db -> serials_nonempty db1.
Proof.
  unfold extractSerial, bind, read, lift, insert_sale_image,
    update_serial_number, ret, throw.
  repeat case_match; intros Hrun; simplify_eq;
    cbn [sales set_sales set_sale_images]; trivial.
  all: intros Hinv id0 s0 Hs0; cbn [sales set_sales set_sale_images] in Hs0;
    try (eapply Hinv; eassumption).
  all: destruct (decide (es_sale_id req = id0)) as [<-|Hid];
    [rewrite lookup_insert_eq in Hs0; simplify_eq; cbn [s_serial_number];
     intros [= ->];
     match goal with
     | H : varchar 255 (extractedSerial _) = Some "" |- _ =>
         exact (varchar_nonempty 255 _ _ ltac:(lia)
                  (extractedSerial_nonempty _ _) H eq_refl)
     end
    | rewrite lookup_insert_ne in Hs0 by exact Hid; eauto].
Qed.

(** C6: serial extraction is first-write-wins.  Two extractions in a row
    on an existing sale, each with an image that the image service and
    the image table accept (within the size limit, with an address within
    the width of its column), both succeed.  If the sale had no serial
    number,
    the first one sets it to the value it extracted and the second one
    leaves that value; if the sale had a non-empty serial number, neither
    call changes it.  In a store without empty serial numbers, as the
    handlers keep it, that is every serial number that is not [null]. *)
Theorem extractSerial_first_write_wins env1 env2 id file1 file2 db s :
  sales db !! id = Some s ->
  f_size file1 <= maxFileSize ->
  f_size file2 <= maxFileSize ->
  url_fits env1 file1 "serial_number" ->
  url_fits env2 file2 "serial_number" ->
  sale_images db !! uuid env1 0 = None ->
  sale_images db !! uuid env2 0 = None ->
  uuid env1 0 <> uuid env2 0 ->
  let first := extractSerialFromImage env1 (f_originalname file1) in
  let second := extractSerialFromImage env2 (f_originalname file2) in
  exists db1 db2,
    extractSerial env1 {| es_sale_id := id; es_file := Some file1 |} db
    = (inr first, db1) /\
    extractSerial env2 {| es_sale_id := id; es_file := Some file2 |} db1
    = (inr second, db2) /\
    (s_serial_number s = None ->
     serial_of id db1 = Some (Some (extractedSerial first)) /\
     serial_of id db2 = Some (Some (extractedSerial first))) /\
    (forall v, s_serial_number s = Some v -> v <> "" ->
     serial_of id db1 = Some (Some v) /\
     serial_of id db2 = Some (Some v)) /\
    (serials_nonempty db ->
     forall v, s_serial_number s = Some v ->
     serial_of id db1 = Some (Some v) /\
     serial_of id db2 = Some (Some v)).
Proof.
  intros Hs Hsize1 Hsize2 Hurl1 Hurl2 Hfresh1 Hfresh2 Hne first second.
  destruct (extractSerial_run env1 id file1 db s Hs Hsize1 Hurl1 Hfresh1)
    as (db1 & img1 & Hrun1 & Hserial1 & Himg1 & _).
  assert (Hs1 : exists s1, sales db1 !! id = Some s1 /\
                  Some (s_serial_number s1) = serial_of id db1).
  { unfold serial_of in *.
    destruct (sales db1 !! id) as [s1|]; [|discriminate].
    exists s1. split; reflexivity. }
  destruct Hs1 as (s1 & Hs1 & Hser1).
  destruct (extractSerial_run env2 id file2 db1 s1 Hs1 Hsize2 Hurl2)
    as (db2 & img2 & Hrun2 & Hserial2 & _).
  { rewrite Himg1, lookup_insert_ne; assumption. }
  exists db1, db2. split; [exact Hrun1|]. split; [exact Hrun2|].
  rewrite Hserial1 in Hser1.
  apply (inj Some) in Hser1.
  pose proof (truthy_string_Some _ (extractedSerial_nonempty env1
                                      (f_originalname file1))) as Hfirst.
  fold first in Hfirst, Hserial1, Hser1.
  split.
  - intros Hnone. rewrite Hnone in Hser1, Hserial1.
    cbn [truthy_string] in Hser1, Hserial1.
    split; [exact Hserial1|].
    rewrite Hserial2, Hser1, Hfirst. reflexivity.
  - assert (Hkeep : forall v, s_serial_number s = Some v -> v <> "" ->
              serial_of id db1 = Some (Some v) /\
              serial_of id db2 = Some (Some v)).
    { intros v Hv Hvne. rewrite Hv in Hser1, Hserial1.
      rewrite (truthy_string_Some v Hvne) in Hser1, Hserial1.
      split; [exact Hserial1|].
      rewrite Hserial2, Hser1, (truthy_string_Some v Hvne). reflexivity. }
    split; [exact Hkeep|].
    intros Hinv v Hv. apply Hkeep; [exact Hv|].
    intros ->. exact (Hinv id s Hs Hv).
Qed.

Lemma extractSerial_first_write_wins_witness :
  exists db1 db2,
    extractSerial sample_env
      {| es_sale_id := sale1; es_file := Some sample_file3 |}
      (sample_db_with_sale 19737 None)
    = (inr (extractSerialFromImage sample_env "serie.webp"), db1) /\
    extractSerial sample_env2
      {| es_sale_id := sale1; es_file := Some sample_file |} db1
    = (inr (extractSerialFromImage sample_env2 "caja-sellada.jpg"), db2) /\
    serial_of sale1 db1 = Some (Some "SER600000DHL") /\
    serial_of sale1 db2 = Some (Some "SER600000DHL").
Proof.
  assert (H1 : sales (sample_db_with_sale 19737 None) !! sale1
               = Some (sample_sale 19737 None)) by (vm_compute; reflexivity).
  assert (H2 : f_size sample_file3 <= maxFileSize) by (vm_compute; discriminate).
  assert (H3 : f_size sample_file <= maxFileSize) by (vm_compute; discriminate).
  assert (U1 : url_fits sample_env sample_file3 "serial_number").
  { intros result Hup. vm_compute in Hup. injection Hup as <-.
    vm_compute. lia. }
  assert (U2 : url_fits sample_env2 sample_file "serial_number").
  { intros result Hup. vm_compute in Hup. injection Hup as <-.
    vm_compute. lia. }
  assert (H4 : sale_images (sample_db_with_sale 19737 None)
               !! uuid sample_env 0 = None) by (vm_compute; reflexivity).
  assert (H5 : sale_images (sample_db_with_sale 19737 None)
               !! uuid sample_env2 0 = None) by (vm_compute; reflexivity).
  assert (H6 : uuid sample_env 0 <> uuid sample_env2 0)
    by (vm_compute; discriminate).
  destruct (extractSerial_first_write_wins sample_env sample_env2 sale1
              sample_file3 sample_file (sample_db_with_sale 19737 None)
              (sample_sale 19737 None) H1 H2 H3 U1 U2 H4 H5 H6)
    as (db1 & db2 & Hrun1 & Hrun2 & Hnone & _).
  destruct (Hnone eq_refl) as [Hs1 Hs2].
  exists db1, db2. repeat split; assumption.
Defined.

(** ** Expiring warranties *)

Global Instance by_warranty_end_trans : Transitive by_warranty_end.
Proof. unfold by_warranty_end. intros a b c. lia. Qed.

Global Instance by_warranty_end_total : Total by_warranty_end.
Proof. unfold by_warranty_end. intros a b. lia. Qed.

(** [setDate(getDate() + n)] moves a time value by [n] days, in whatever
    frame it is read. *)
Lemma setDate_add_days t n : setDate t (getDate t + n) = t + n * msPerDay.
Proof.
  unfold setDate, getFullYear, getMonth, getDate.
  rewrite MakeDay_date_linear, MakeDay_roundtrip.
  unfold MakeDate, TimeWithinDay, Day, msPerDay.
  pose proof (Z.div_mod t 86400000 ltac:(lia)). lia.
Qed.

Lemma Day_add_days t n : Day (t + n * msPerDay) = Day t + n.
Proof. unfold Day, msPerDay. apply Z.div_add. lia. Qed.

(** In a zone without a change of offset the local detour cancels. *)
Lemma threshold_fixed_zone offset t n :
  setDate_in (fixed_zone offset) t (getDate_in (fixed_zone offset) t + n)
  = TimeClip (t + n * msPerDay).
Proof.
  unfold setDate_in, getDate_in, LocalTime, UTC, fixed_zone.
  cbn [LocalTZA_utc LocalTZA_local]. rewrite setDate_add_days.
  f_equal. lia.
Qed.

(** A moment in the years 1 to 9999 is a valid date, and its day is the
    parameter the query gets. *)
Lemma date_param_in_range t :
  1 <= YearFromDay (Day t) <= 9999 ->
  TimeClip t ≫= date_param = Some (Day t).
Proof.
  intros Hyear.
  pose proof (YearFromDay_spec (Day t)) as [Hlo Hhi].
  pose proof (DayFromYear_mono 1 (YearFromDay (Day t)) ltac:(lia)) as H1.
  pose proof (DayFromYear_mono (YearFromDay (Day t) + 1) 10000 ltac:(lia))
    as H2.
  assert (E1 : DayFromYear 1 = -719162) by (vm_compute; reflexivity).
  assert (E2 : DayFromYear 10000 = 2932897) by (vm_compute; reflexivity).
  rewrite E1 in H1. rewrite E2 in H2.
  assert (Hclip : Z.abs t <= 8640000000000000).
  { assert (Hd : Day t = t / 86400000) by reflexivity.
    pose proof (Z.div_mod t 86400000 ltac:(lia)).
    pose proof (Z.mod_pos_bound t 86400000 ltac:(lia)). lia. }
  unfold TimeClip. rewrite (proj2 (Z.leb_le _ _) Hclip).
  cbn [mbind option_bind]. unfold date_param. cbv zeta.
  rewrite (proj2 (Z.leb_le 1 _)), (proj2 (Z.leb_le _ 9999)) by lia.
  reflexivity.
Qed.

Lemma CURRENT_DATE_in_UTC env : CURRENT_DATE_in UTC_zone env = CURRENT_DATE env.
Proof.
  unfold CURRENT_DATE_in, CURRENT_DATE, LocalTime, UTC_zone, fixed_zone.
  cbn [LocalTZA_utc]. now rewrite Z.add_0_r.
Qed.

Lemma expiring_row_Some today threshold db id s row :
  expiring_row today threshold db (id, s) = Some row ->
  today <= s_warranty_end s <= threshold /\
  r_sale_id row = id /\
  r_warranty_end row = s_warranty_end s /\
  r_days_until_expiry row = s_warranty_end s - today.
Proof.
  unfold expiring_row.
  destruct (customers db !! s_customer_id s); [|discriminate].
  destruct (products db !! s_product_id s); [|discriminate].
  destruct (Z.leb_spec today (s_warranty_end s));
    destruct (Z.leb_spec (s_warranty_end s) threshold);
    cbn [andb]; try discriminate.
  intros [= <-]. cbn. repeat split; lia.
Qed.

Lemma expiring_row_in_window today threshold db id s :
  is_Some (customers db !! s_customer_id s) ->
  is_Some (products db !! s_product_id s) ->
  today <= s_warranty_end s <= threshold ->
  is_Some (expiring_row today threshold db (id, s)).
Proof.
  intros [c Hc] [p Hp] Hw. unfold expiring_row. rewrite Hc, Hp.
  destruct (Z.leb_spec today (s_warranty_end s)); [|lia].
  destruct (Z.leb_spec (s_warranty_end s) threshold); [|lia].
  cbn [andb]. eauto.
Qed.

Lemma NoDup_omap_keys {A B} (f : string * A -> option B) (g : B -> string)
    (l : list (string * A)) :
  (forall kv b, f kv = Some b -> g b = kv.1) ->
  NoDup (l.*1) -> NoDup (g <$> omap f l).
Proof.
  intros Hkey. induction l as [|kv l IH]; intros Hnd; [constructor|].
  cbn in Hnd. apply NoDup_cons in Hnd as [Hnotin Hnd].
  cbn. destruct (f kv) as [b|] eqn:Hb; [|auto].
  cbn. apply NoDup_cons. split; [|auto].
  intros Hin. apply list_elem_of_fmap in Hin as (b0 & Hg & Hin).
  apply list_elem_of_omap in Hin as (kv0 & Hkv0 & Hf0).
  apply Hnotin. rewrite <- (Hkey _ _ Hb), Hg, (Hkey _ _ Hf0).
  apply list_elem_of_fmap. eauto.
Qed.

(** When [getExpiringWarranties] returns, its entries are the rows of the
    query for some threshold day. *)
Lemma getExpiringWarranties_inr zones env daysThreshold db result :
  getExpiringWarranties zones env daysThreshold db = inr result ->
  exists threshold,
    result
    = (fun row =>
         {| sale_id := r_sale_id row;
            customer_name := r_customer_name row;
            customer_email := r_customer_email row;
            product_name := r_product_name row;
            warranty_end :=
              UTC (process_zone zones) (ofDATE (r_warranty_end row));
            days_until_expiry := r_days_until_expiry row |})
      <$> expiring_query zones env threshold db.
Proof.
  unfold getExpiringWarranties.
  destruct (setDate_in _ _ _ ≫= date_param) as [threshold|];
    cbn [mbind option_bind try_rethrow]; [|discriminate].
  intros [= <-]. eauto.
Qed.

(** C8, what the code does.  The threshold day is the UTC day of the
    clock plus [daysThreshold], the lower end of the window is the
    current day of the database session, and the two are compared as
    they are.  So in a process whose zone keeps one offset, with a
    threshold in the years 1 to 9999 and a store with its foreign keys in
    place, [getExpiringWarranties] returns exactly the sales whose
    warranty ends from the session's today to [daysThreshold] days from
    the UTC today, both ends included, each once, with the day of expiry
    and the days left, by ascending end of warranty.  That is the window
    from today to [daysThreshold] days from today when the day of the
    session is the UTC day; at the hours at which the two differ the
    window is a day longer or a day shorter. *)
Theorem getExpiringWarranties_window zones offset env daysThreshold db :
  process_zone zones = fixed_zone offset ->
  (forall id s, sales db !! id = Some s ->
     is_Some (customers db !! s_customer_id s) /\
     is_Some (products db !! s_product_id s)) ->
  1 <= YearFromDay (Day (now env) + daysThreshold) <= 9999 ->
  let today := CURRENT_DATE_in (session_zone zones) env in
  let utc_today := Day (now env) in
  exists result,
    getExpiringWarranties zones env (Some daysThreshold) db = inr result /\
    (forall id, id ∈ sale_id <$> result <->
       exists s, sales db !! id = Some s /\
                 today <= s_warranty_end s <= utc_today + daysThreshold) /\
    NoDup (sale_id <$> result) /\
    (forall w, w ∈ result ->
       exists s, sales db !! sale_id w = Some s /\
                 warranty_end w = ofDATE (s_warranty_end s) - offset /\
                 days_until_expiry w = s_warranty_end s - today) /\
    StronglySorted (fun a b => warranty_end a <= warranty_end b) result /\
    (today = utc_today ->
     forall id, id ∈ sale_id <$> result <->
       exists s, sales db !! id = Some s /\
                 today <= s_warranty_end s <= today + daysThreshold).
Proof.
  intros Hzone Hfk Hyear today utc_today.
  unfold getExpiringWarranties.
  change (default 30 (Some daysThreshold)) with daysThreshold.
  rewrite Hzone, threshold_fixed_zone.
  rewrite date_param_in_range by (rewrite Day_add_days; exact Hyear).
  rewrite Day_add_days. fold utc_today.
  cbn [mbind option_bind try_rethrow].
  eexists. split; [reflexivity|].
  unfold expiring_query. fold today.
  set (rows := merge_sort _ _).
  assert (Hperm : rows ≡ₚ omap (expiring_row today (utc_today + daysThreshold)
                                  db)
                           (map_to_list (sales db)))
    by apply merge_sort_Permutation.
  assert (Hrow : forall row, row ∈ rows <->
            exists id s, sales db !! id = Some s /\
              expiring_row today (utc_today + daysThreshold) db (id, s)
              = Some row).
  { intros row. rewrite Hperm, list_elem_of_omap. split.
    - intros ([id s] & Hin & Hf). apply elem_of_map_to_list in Hin. eauto.
    - intros (id & s & Hs & Hf). exists (id, s).
      split; [now apply elem_of_map_to_list | exact Hf]. }
  match goal with |- context [fmap ?f rows] => set (to_entry := f) end.
  rewrite <- !list_fmap_compose.
  assert (Hwindow : forall id,
            id ∈ (sale_id ∘ to_entry) <$> rows <->
            exists s, sales db !! id = Some s /\
              today <= s_warranty_end s <= utc_today + daysThreshold).
  { intros id. split.
    - intros Hin. apply list_elem_of_fmap in Hin as (row & -> & Hin).
      apply Hrow in Hin as (id & s & Hs & Hf).
      apply expiring_row_Some in Hf as (Hw & Hid & _).
      exists s. cbn. rewrite Hid. auto.
    - intros (s & Hs & Hw).
      destruct (Hfk id s Hs) as [Hc Hp].
      destruct (expiring_row_in_window today (utc_today + daysThreshold) db
                  id s Hc Hp Hw) as [row Hf].
      apply list_elem_of_fmap. exists row. split.
      + apply expiring_row_Some in Hf as (_ & Hid & _). cbn. now rewrite Hid.
      + apply Hrow. eauto. }
  split; [exact Hwindow|]. split_and!.
  - change (NoDup (r_sale_id <$> rows)). rewrite Hperm.
    apply NoDup_omap_keys; [|apply NoDup_fst_map_to_list].
    intros [id s] row Hf.
    now apply expiring_row_Some in Hf as (_ & Hid & _).
  - intros w Hin. apply list_elem_of_fmap in Hin as (row & -> & Hin).
    apply Hrow in Hin as (id & s & Hs & Hf).
    apply expiring_row_Some in Hf as (_ & Hid & Hend & Hdays).
    exists s. cbn. rewrite Hid, Hend, Hdays. auto.
  - apply (StronglySorted_fmap _ by_warranty_end).
    + intros a b Hab. subst to_entry. cbn [warranty_end].
      unfold by_warranty_end in Hab.
      unfold UTC, fixed_zone, ofDATE, MakeDate, msPerDay.
      cbn [LocalTZA_local]. lia.
    + apply StronglySorted_merge_sort; apply _.
  - intros Hday id. rewrite Hwindow, Hday. reflexivity.
Qed.

Lemma getExpiringWarranties_window_witness :
  CURRENT_DATE_in (session_zone six_hours_behind) evening_env = 19737 /\
  Day (now evening_env) = 19738 /\
  exists result,
    getExpiringWarranties six_hours_behind evening_env (Some 30)
      (sample_db_with_sale 19768 None) = inr result /\
    (sale1 ∈ sale_id <$> result) /\
    s_warranty_end (sample_sale 19768 None) = 19737 + 31.
Proof.
  assert (Hfk : forall id s,
            sales (sample_db_with_sale 19768 None) !! id = Some s ->
            is_Some (customers (sample_db_with_sale 19768 None)
                       !! s_customer_id s) /\
            is_Some (products (sample_db_with_sale 19768 None)
                       !! s_product_id s)).
  { apply (bool_decide_unpack
             (map_Forall (fun (_ : string) s =>
                is_Some (customers (sample_db_with_sale 19768 None)
                           !! s_customer_id s) /\
                is_Some (products (sample_db_with_sale 19768 None)
                           !! s_product_id s))
                (sales (sample_db_with_sale 19768 None)))).
    vm_compute. exact I. }
  assert (Hyear : 1 <= YearFromDay (Day (now evening_env) + 30) <= 9999)
    by (vm_compute; split; discriminate).
  destruct (getExpiringWarranties_window six_hours_behind (-21600000)
              evening_env 30 (sample_db_with_sale 19768 None)
              eq_refl Hfk Hyear)
    as (result & Hrun & Hiff & _).
  split; [vm_compute; reflexivity|]. split; [vm_compute; reflexivity|].
  exists result. split; [exact Hrun|]. split; [|reflexivity].
  apply Hiff. exists (sample_sale 19768 None).
  split; [vm_compute; reflexivity|].
  split; vm_compute; discriminate.
Defined.

(** C8, as stated, fails on the code: in a session six hours behind UTC,
    at 20:00 on 2024-01-15, the list for 30 days holds a warranty that
    ends on 2024-02-15, 31 days from the session's today. *)
Lemma getExpiringWarranties_day_off :
  CURRENT_DATE_in (session_zone six_hours_behind) evening_env
  = Day (ofCivil 2024 1 15) /\
  s_warranty_end (sample_sale 19768 None) = Day (ofCivil 2024 1 15) + 31 /\
  sum_map id (fmap sale_id)
    (getExpiringWarranties six_hours_behind evening_env (Some 30)
       (sample_db_with_sale 19768 None))
  = inr [sale1].
Proof. split_and!; vm_compute; reflexivity. Qed.

(** ** The sale workflow: what a success implies, what a failure leaves *)

Lemma createSale_cases env req db r db1 :
  createSale env req db = (r, db1) ->
  (db1 = db /\
   (r = inl (ValidationError "Vendedor no identificado")
    \/ r = inl (NotFoundError "Producto no encontrado o inactivo")
    \/ (exists p, select_active_product (product_id req) db = Some p
          /\ p_stock p < quantity req
          /\ r = inl (ValidationError
                 ("Stock insuficiente. Disponible: " +:+ pretty (p_stock p)
                  +:+ ", Solicitado: " +:+ pretty (quantity req))))
    \/ r = inl (NotFoundError "Cliente no encontrado")
    \/ r = inl (PgError check_violation)
    \/ r = inl (PgError unique_violation)
    \/ r = inl (PgError foreign_key_violation)
    \/ r = inl (PgError numeric_value_out_of_range)
    \/ r = inl (PgError string_data_right_truncation)))
  \/ (exists p resp,
        r = inr resp
        /\ truthy_string (userId req) = true
        /\ products db !! product_id req = Some p
        /\ p_is_active p = true
        /\ quantity req <= p_stock p
        /\ is_Some (customers db !! customer_id req)
        /\ is_Some (users db !! default "" (userId req))
        /\ sales db !! uuid env 0 = None
        /\ 0 < quantity req /\ 0 < unit_price req
        /\ 0 < warranty_period_months req
        /\ sales db1 = <[uuid env 0 := (sr_sale resp).2]> (sales db)
        /\ s_product_id (sr_sale resp).2 = product_id req
        /\ s_customer_id (sr_sale resp).2 = customer_id req
        /\ s_seller_id (sr_sale resp).2 = default "" (userId req)
        /\ s_quantity (sr_sale resp).2 = quantity req
        /\ products db1
           = <[product_id req :=
                 {| p_name := p_name p; p_sku := p_sku p;
                    p_stock := p_stock p - quantity req;
                    p_price := p_price p; p_is_active := p_is_active p;
                    p_updated_at := now env |}]> (products db)
        /\ customers db1 = customers db /\ users db1 = users db
        /\ sale_images db1 = sale_images db
        /\ quantity req * unit_price req < 10000000000).
Proof.
  unfold createSale, transaction, createSale_body, bind, guard, read.
  intros H.
  destruct (truthy_string (userId req)) eqn:Hu; cbn [ret throw] in H.
  2:{ injection H as <- <-. left. split; [reflexivity|]. left. reflexivity. }
  unfold select_active_product in *.
  destruct (products db !! product_id req) as [p|] eqn:Hp.
  2:{ cbn in H. injection H as <- <-. left. split; [reflexivity|].
      right. left. reflexivity. }
  destruct (p_is_active p) eqn:Hact.
  2:{ cbn in H. injection H as <- <-. left. split; [reflexivity|].
      right. left. reflexivity. }
  destruct (p_stock p <? quantity req) eqn:Hst; cbn [negb ret throw] in H.
  { injection H as <- <-. left. split; [reflexivity|].
    right. right. left. exists p. split; [reflexivity|]. split; [lia|reflexivity]. }
  destruct (customers db !! customer_id req) as [c|] eqn:Hc.
  2:{ cbn in H. injection H as <- <-. left. split; [reflexivity|].
      do 3 right. left. reflexivity. }
  match type of H with
  | context [insert_sale ?i ?s ?d] =>
      destruct (insert_sale i s d) as [r0 db0] eqn:Hins
  end.
  apply insert_sale_cases in Hins as [[-> Hr0]|Hins].
  { left.
    destruct Hr0 as [->|[->|[->|[->| ->]]]]; injection H as <- <-;
      (split; [reflexivity|tauto]). }
  destruct Hins as (row & Hstored & -> & -> & Hq1 & Hq2 & Hq3 & Hq4 & Hfresh
                    & Hf1 & Hf2 & Hf3).
  apply stored_sale_inr in Hstored
    as (Hd1 & Hd2 & E1 & E2 & E3 & E4 & E5 & E6 & E7 & _).
  cbn [s_product_id s_customer_id s_seller_id s_quantity s_unit_price
       s_total_price s_warranty_period_months] in *.
  unfold update_stock in H. cbn [set_sales products] in H.
  rewrite Hp in H.
  destruct (p_stock p - quantity req <? 0) eqn:Hneg; [lia|].
  cbn [ret] in H.
  pose proof (f_equal fst H) as Hr. pose proof (f_equal snd H) as Hdb.
  cbn [fst snd] in Hr, Hdb. clear H. subst r db1.
  right. eexists p, _. split; [reflexivity|].
  apply decimal_10_2_spec in Hd2.
  cbn [sr_sale snd sales products customers users sale_images set_products
       set_sales].
  rewrite E1 in Hf1. rewrite E2 in Hf2. rewrite E3 in Hf3.
  split_and!; try reflexivity; try lia; try assumption; eauto.
Qed.

(** X1.  [createSale] answers 201 only if the seller is identified and
    registered, the product exists, is active and has the requested units
    in stock, the customer exists, the new identifier is unused and
    quantity, unit price and warranty months are positive. *)
Theorem createSale_success_only_if env req db resp db1 :
  createSale env req db = (inr resp, db1) ->
  exists p,
    truthy_string (userId req) = true
    /\ select_active_product (product_id req) db = Some p
    /\ quantity req <= p_stock p
    /\ is_Some (customers db !! customer_id req)
    /\ is_Some (users db !! default "" (userId req))
    /\ sales db !! uuid env 0 = None
    /\ 0 < quantity req /\ 0 < unit_price req
    /\ 0 < warranty_period_months req.
Proof.
  intros H. apply createSale_cases in H as [[_ H]|H].
  - repeat destruct H as [H|H]; try discriminate H.
    destruct H as (p & _ & _ & H). discriminate H.
  - destruct H as (p & resp' & _ & Hu & Hp & Hact & Hq & Hc & Hs & Hid
                   & H1 & H2 & H3 & _).
    exists p. unfold select_active_product. rewrite Hp, Hact. tauto.
Qed.

Lemma createSale_success_only_if_witness :
  exists p,
    truthy_string (userId (sample_request 3)) = true
    /\ select_active_product (product_id (sample_request 3)) (sample_db 10)
       = Some p
    /\ quantity (sample_request 3) <= p_stock p
    /\ is_Some (customers (sample_db 10) !! customer_id (sample_request 3))
    /\ is_Some (users (sample_db 10)
                  !! default "" (userId (sample_request 3)))
    /\ sales (sample_db 10) !! uuid sample_env 0 = None
    /\ 0 < quantity (sample_request 3) /\ 0 < unit_price (sample_request 3)
    /\ 0 < warranty_period_months (sample_request 3).
Proof.
  destruct (createSale sample_env (sample_request 3) (sample_db 10))
    as [[e|resp] db1] eqn:E.
  - exfalso. vm_compute in E. discriminate E.
  - exact (createSale_success_only_if _ _ _ _ _ E).
Defined.

Lemma errorHandler_custom cls m st :
  errorHandler (error_object (CustomError cls m st))
  = if includes "duplicate key value" m
    then {| res_status := 409; res_error := "Recurso ya existe" |}
    else {| res_status := or_number (Some st) 500; res_error := m |}.
Proof.
  unfold errorHandler. cbn [error_object e_message e_name e_code].
  destruct (includes "duplicate key value" m); reflexivity.
Qed.

(** X2.  A failed [createSale] leaves the store as it was.  It is
    answered with status 400, 404 or 409, unless the store refuses a value
    for the width of its column (a price beyond [DECIMAL(10,2)], a serial
    number beyond 255 characters): that failure is answered with status
    500 and the message of a database error. *)
Theorem createSale_failure_response env req db e db1 :
  createSale env req db = (inl e, db1) ->
  db1 = db /\
  (res_status (errorHandler (error_object e)) ∈ [400; 404; 409]
   \/ (e = PgError numeric_value_out_of_range
       \/ e = PgError string_data_right_truncation)
      /\ errorHandler (error_object e)
         = {| res_status := 500; res_error := "Error en la base de datos" |}).
Proof.
  intros H. apply createSale_cases in H as [[-> H]|H].
  - split; [reflexivity|].
    assert (Hcustom : forall cls m st, st ∈ [400; 404; 409] ->
              res_status (errorHandler (error_object (CustomError cls m st)))
              ∈ [400; 404; 409]).
    { intros cls m st Hst. rewrite errorHandler_custom.
      destruct (includes _ m); cbn [res_status].
      - repeat constructor.
      - unfold or_number. destruct (st =? 0) eqn:E; [|exact Hst].
        apply Z.eqb_eq in E. rewrite !elem_of_cons, elem_of_nil in Hst.
        lia. }
    destruct H as [H|[H|[H|[H|[H|[H|[H|[H|H]]]]]]]].
    + injection H as ->. left. apply Hcustom. set_solver.
    + injection H as ->. left. apply Hcustom. set_solver.
    + destruct H as (p & _ & _ & H). injection H as ->.
      left. apply Hcustom. set_solver.
    + injection H as ->. left. apply Hcustom. set_solver.
    + injection H as ->. left. vm_compute. set_solver.
    + injection H as ->. left. vm_compute. set_solver.
    + injection H as ->. left. vm_compute. set_solver.
    + injection H as ->. right. split; [tauto|]. vm_compute. reflexivity.
    + injection H as ->. right. split; [tauto|]. vm_compute. reflexivity.
  - destruct H as (p & resp & H & _). discriminate H.
Qed.

Lemma createSale_failure_response_witness :
  exists e,
    createSale sample_env
      {| product_id := product1; customer_id := customer1;
         quantity := 2; unit_price := 9999999999;
         warranty_period_months := 12; serial_number := None;
         userId := Some seller1 |} (sample_db 10)
    = (inl e, sample_db 10)
    /\ errorHandler (error_object e)
       = {| res_status := 500; res_error := "Error en la base de datos" |}.
Proof.
  destruct (createSale sample_env
              {| product_id := product1; customer_id := customer1;
                 quantity := 2; unit_price := 9999999999;
                 warranty_period_months := 12; serial_number := None;
                 userId := Some seller1 |} (sample_db 10))
    as [[e|resp] db1] eqn:E.
  - exists e. destruct (createSale_failure_response _ _ _ _ _ E) as [-> H].
    split; [reflexivity|].
    destruct H as [H|[_ H]]; [|exact H].
    exfalso. vm_compute in E. injection E as <-.
    assert (Hs : res_status (errorHandler (error_object (PgError "22003")))
                 = 500) by (vm_compute; reflexivity).
    rewrite Hs, !elem_of_cons, elem_of_nil in H. lia.
  - exfalso. vm_compute in E. discriminate E.
Defined.

Lemma total_sold_insert pid id s db :
  sales db !! id = None ->
  total_sold pid (set_sales (insert id s) db)
  = (if String.eqb (s_product_id s) pid then s_quantity s else 0)
    + total_sold pid db.
Proof.
  intros Hid. unfold total_sold. cbn [sales set_sales].
  rewrite map_fold_insert_L; [| |exact Hid].
  - destruct (String.eqb (s_product_id s) pid); lia.
  - intros j1 j2 z1 z2 y _ _ _.
    destruct (String.eqb (s_product_id z1) pid),
             (String.eqb (s_product_id z2) pid); lia.
Qed.

(** X3.  [createSale] keeps every stock non-negative, whatever the request
    and whether it succeeds or fails. *)
Theorem createSale_stock_nonneg env req db r db1 :
  createSale env req db = (r, db1) ->
  stock_nonneg db -> stock_nonneg db1.
Proof.
  intros H Hinv. apply createSale_cases in H as [[-> _]|H]; [exact Hinv|].
  destruct H as (p & resp & _ & _ & Hp & _ & Hq & _ & _ & _ & _ & _ & _ & _
                 & _ & _ & _ & _ & Hprod & _).
  intros id q Hq'. rewrite Hprod in Hq'.
  destruct (decide (id = product_id req)) as [->|Hne].
  - rewrite lookup_insert_eq in Hq'. injection Hq' as <-. cbn. lia.
  - rewrite lookup_insert_ne in Hq' by congruence. eapply Hinv, Hq'.
Qed.

Lemma createSale_stock_nonneg_witness :
  stock_nonneg (createSale sample_env (sample_request 10) (sample_db 10)).2.
Proof.
  apply (createSale_stock_nonneg sample_env (sample_request 10) (sample_db 10)
           (createSale sample_env (sample_request 10) (sample_db 10)).1).
  - apply surjective_pairing.
  - intros id p Hp. unfold sample_db in Hp. cbn [products] in Hp.
    apply lookup_singleton_Some in Hp as [_ <-]. cbn. lia.
Defined.

(** X4.  For every product, stock plus units sold (the [total_sold] of the
    inventory report) is the same before and after [createSale]: units
    leave the stock only into a recorded sale. *)
Theorem createSale_conserves_units env req db r db1 pid p1 :
  createSale env req db = (r, db1) ->
  products db1 !! pid = Some p1 ->
  exists p0,
    products db !! pid = Some p0
    /\ p_stock p1 + total_sold pid db1 = p_stock p0 + total_sold pid db.
Proof.
  intros H Hp1. apply createSale_cases in H as [[-> _]|H]; [eauto|].
  destruct H as (p & resp & _ & _ & Hp & _ & Hq & _ & _ & Hfresh & _ & _ & _
                 & Hsales & Hpid & _ & _ & Hqty & Hprod & _).
  assert (Hsold : total_sold pid db1
                  = (if String.eqb (product_id req) pid
                     then quantity req else 0) + total_sold pid db).
  { rewrite <- Hpid, <- Hqty,
      <- (total_sold_insert pid (uuid env 0) (sr_sale resp).2 db Hfresh).
    unfold total_sold. rewrite Hsales. reflexivity. }
  rewrite Hprod in Hp1.
  destruct (decide (pid = product_id req)) as [->|Hne].
  - rewrite lookup_insert_eq in Hp1. injection Hp1 as <-.
    exists p. split; [exact Hp|]. rewrite Hsold, String.eqb_refl. cbn. lia.
  - rewrite lookup_insert_ne in Hp1 by congruence.
    exists p1. split; [exact Hp1|]. rewrite Hsold.
    destruct (String.eqb_spec (product_id req) pid); [congruence|]. lia.
Qed.

Lemma createSale_conserves_units_witness :
  exists p0,
    products (sample_db 10) !! product1 = Some p0
    /\ 7 + total_sold product1
             (createSale sample_env (sample_request 3) (sample_db 10)).2
       = p_stock p0 + total_sold product1 (sample_db 10).
Proof.
  apply (createSale_conserves_units sample_env (sample_request 3)
           (sample_db 10)
           (createSale sample_env (sample_request 3) (sample_db 10)).1
           _ product1
           {| p_name := "Laptop 14"; p_sku := "LAP-14-001"; p_stock := 7;
              p_price := 10000; p_is_active := true;
              p_updated_at := now sample_env |}).
  - apply surjective_pairing.
  - vm_compute. reflexivity.
Defined.

(** X5.  [createSale] keeps the foreign keys of the sales valid: after it,
    every sale still refers to a product, a customer and a user of the
    store. *)
Theorem createSale_keeps_refs env req db r db1 :
  createSale env req db = (r, db1) ->
  sales_refs_ok db -> sales_refs_ok db1.
Proof.
  intros H Hinv. apply createSale_cases in H as [[-> _]|H]; [exact Hinv|].
  destruct H as (p & resp & _ & _ & Hp & _ & _ & Hc & Hu & _ & _ & _ & _
                 & Hsales & Hpid & Hcid & Hsid & _ & Hprod & Hcust & Husers
                 & _).
  intros id s Hs. rewrite Hprod, Hcust, Husers. rewrite Hsales in Hs.
  assert (Hkeep : forall k, is_Some (products db !! k) ->
            is_Some (<[product_id req := {|
                        p_name := p_name p; p_sku := p_sku p;
                        p_stock := p_stock p - quantity req;
                        p_price := p_price p; p_is_active := p_is_active p;
                        p_updated_at := now env |}]> (products db) !! k)).
  { intros k Hk. apply lookup_insert_is_Some.
    destruct (decide (product_id req = k)); [left|right]; auto. }
  destruct (decide (id = uuid env 0)) as [->|Hne].
  - rewrite lookup_insert_eq in Hs. injection Hs as <-.
    rewrite Hpid, Hcid, Hsid. split; [|split]; try assumption.
    apply Hkeep. rewrite Hp. eauto.
  - rewrite lookup_insert_ne in Hs by congruence.
    destruct (Hinv id s Hs) as (H1 & H2 & H3).
    split; [|split]; try assumption. apply Hkeep, H1.
Qed.

Lemma createSale_keeps_refs_witness :
  sales_refs_ok (createSale sample_env (sample_request 3) (sample_db 10)).2.
Proof.
  apply (createSale_keeps_refs sample_env (sample_request 3) (sample_db 10)
           (createSale sample_env (sample_request 3) (sample_db 10)).1).
  - apply surjective_pairing.
  - intros id s Hs. unfold sample_db in Hs. cbn [sales] in Hs.
    rewrite lookup_empty in Hs. discriminate Hs.
Defined.

(** ** Image uploads: what the store gains, what it never loses *)

Lemma image_task_cases env saleId index file imageType db o db1 :
  image_task env saleId index file imageType db = (o, db1) ->
  (db1 = db /\ fulfilled o = None)
  \/ (exists row,
        o = Fulfilled (uuid env index, row)
        /\ sale_images db !! uuid env index = None
        /\ db1 = set_sale_images (insert (uuid env index) row) db
        /\ i_sale_id row = saleId
        /\ i_image_type row = imageType
        /\ imageType ∈ image_types_allowed
        /\ is_Some (sales db !! saleId)).
Proof.
  unfold image_task. intros H.
  destruct (bool_decide (imageType ∈ image_types_allowed)) eqn:Hty;
    cbn [negb] in H.
  2:{ injection H as <- <-. left. auto. }
  apply bool_decide_eq_true_1 in Hty.
  destruct (uploadImage env file imageType) as [e|res].
  { injection H as <- <-. left. auto. }
  destruct (insert_sale_image env (uuid env index) saleId imageType
              (imageUrl res) db) as [r0 db0] eqn:Hins.
  apply insert_sale_image_cases in Hins as [[-> Hr0]|Hins].
  { destruct Hr0 as [[-> _]|[[-> _]|[[-> _]|[-> _]]]];
      injection H as <- <-; left; auto. }
  destruct Hins as (image_type & image_url & Htype & Hurl & -> & -> & Hin
                    & Hfresh & Hsale).
  rewrite (allowed_type_fits _ Hty) in Htype. injection Htype as <-.
  injection H as <- <-. right. eexists. split; [reflexivity|].
  split_and!; auto.
Qed.

(** What a batch of file promises does to the store. *)
Lemma run_tasks_effect env saleId tasks : forall index db os db1,
  run_tasks env saleId index tasks db = (os, db1) ->
  users db1 = users db /\ products db1 = products db
  /\ customers db1 = customers db /\ sales db1 = sales db
  /\ sale_images db ⊆ sale_images db1
  /\ length os = length tasks
  /\ size (sale_images db1)
     = (size (sale_images db) + length (omap fulfilled os))%nat
  /\ (forall id img, (id, img) ∈ omap fulfilled os ->
        sale_images db1 !! id = Some img /\ sale_images db !! id = None)
  /\ (forall id img, sale_images db1 !! id = Some img ->
        sale_images db !! id = Some img
        \/ ((id, img) ∈ omap fulfilled os
            /\ i_sale_id img = saleId
            /\ i_image_type img ∈ image_types_allowed)).
Proof.
  induction tasks as [|[file imageType] rest IH]; intros index db os db1 H.
  - cbn in H. injection H as <- <-. cbn. split_and!; auto.
    + intros id img Hin. inversion Hin.
  - cbn [run_tasks] in H.
    destruct (image_task env saleId index file imageType db) as [o dbm] eqn:Ho.
    destruct (run_tasks env saleId (S index) rest dbm) as [os1 db2] eqn:Hr.
    injection H as <- <-.
    apply IH in Hr as (Hu & Hp & Hc & Hs & Hsub & Hlen & Hsize & Hnew & Hold).
    apply image_task_cases in Ho as [[-> Hf]|Ho].
    + cbn [omap list_omap]. rewrite Hf. cbn [length]. rewrite Hlen.
      split_and!; auto.
    + destruct Ho as (row & -> & Hfresh & -> & Hsid & Htype & Hall & Hsale).
      cbn [users products customers sales sale_images set_sale_images] in *.
      cbn [omap list_omap fulfilled length]. rewrite Hlen.
      split_and!; auto.
      * etrans; [|exact Hsub]. apply insert_subseteq, Hfresh.
      * rewrite Hsize, map_size_insert_None by exact Hfresh. lia.
      * intros id img H. rewrite elem_of_cons in H. destruct H as [H|H].
        -- injection H as -> ->. split; [|exact Hfresh].
           eapply lookup_weaken; [|exact Hsub]. apply lookup_insert_eq.
        -- apply Hnew in H as [H1 H]. split; [exact H1|].
           destruct (decide (id = uuid env index)) as [->|Hne].
           ++ rewrite lookup_insert_eq in H. discriminate H.
           ++ rewrite lookup_insert_ne in H by congruence. exact H.
      * intros id img Hin. apply Hold in Hin as [Hin|(Hin & H1 & H2)].
        -- destruct (decide (id = uuid env index)) as [->|Hne].
           ++ rewrite lookup_insert_eq in Hin. injection Hin as <-.
              right. split; [left|]. subst. auto.
           ++ rewrite lookup_insert_ne in Hin by congruence. left. exact Hin.
        -- right. split; [right; exact Hin|]. auto.
Qed.

Lemma Promise_all_inr os rows :
  Promise_all os = inr rows ->
  rows = omap fulfilled os /\ length rows = length os.
Proof.
  unfold Promise_all.
  destruct (omap sync_rejection os ++ omap upload_rejection os
            ++ omap insert_rejection os) as [|e l] eqn:E; [|discriminate].
  intros H. injection H as <-. split; [reflexivity|].
  apply app_eq_nil in E as [E1 E]. apply app_eq_nil in E as [E2 E3].
  induction os as [|o os IH]; [reflexivity|].
  destruct o; cbn in *; try discriminate.
  f_equal. apply IH; assumption.
Qed.

Lemma uploadSaleImages_cases env req db r db1 :
  uploadSaleImages env req db = (r, db1) ->
  (db1 = db /\ exists e, r = inl e)
  \/ (exists files image_types os,
        ui_files req = Some files
        /\ ui_image_types req = Some image_types
        /\ length files = length image_types
        /\ is_Some (sales db !! ui_sale_id req)
        /\ run_tasks env (ui_sale_id req) 0 (zip files image_types) db
           = (os, db1)
        /\ match r with
           | inl e => Promise_all os = inl e
           | inr resp =>
               Promise_all os = inr (ur_images resp) /\ ur_status resp = 201
           end).
Proof.
  unfold uploadSaleImages. intros H.
  destruct (ui_files req) as [[|f files]|] eqn:Hf;
    try (injection H as <- <-; left; eauto).
  destruct (ui_image_types req) as [image_types|] eqn:Ht;
    try (injection H as <- <-; left; eauto).
  destruct (length (f :: files) =? length image_types)%nat eqn:Hlen;
    cbn [negb] in H; try (injection H as <- <-; left; eauto).
  destruct (sales db !! ui_sale_id req) eqn:Hs;
    try (injection H as <- <-; left; eauto).
  destruct (run_tasks env (ui_sale_id req) 0 (zip (f :: files) image_types) db)
    as [os db2] eqn:Hr.
  right. exists (f :: files), image_types, os.
  apply Nat.eqb_eq in Hlen.
  destruct (Promise_all os) as [e|rows] eqn:Hp; injection H as <- <-;
    repeat split; eauto.
Qed.

(** X6.  Whatever the request and the outcome, [uploadSaleImages] only adds
    image rows: users, products, customers and sales are untouched, every
    image row of the store is still there unchanged, and every new row
    belongs to the sale of the request and has an allowed type. *)
Theorem uploadSaleImages_only_adds env req db r db1 :
  uploadSaleImages env req db = (r, db1) ->
  users db1 = users db /\ products db1 = products db
  /\ customers db1 = customers db /\ sales db1 = sales db
  /\ sale_images db ⊆ sale_images db1
  /\ (forall id img, sale_images db1 !! id = Some img ->
        sale_images db !! id = Some img
        \/ (i_sale_id img = ui_sale_id req
            /\ i_image_type img ∈ image_types_allowed)).
Proof.
  intros H. apply uploadSaleImages_cases in H as [[-> _]|H].
  - split_and!; auto.
  - destruct H as (files & image_types & os & _ & _ & _ & _ & Hr & _).
    apply run_tasks_effect in Hr
      as (Hu & Hp & Hc & Hs & Hsub & _ & _ & _ & Hold).
    split_and!; auto.
    intros id img Hin. apply Hold in Hin as [Hin|(_ & H1 & H2)]; auto.
Qed.

Lemma uploadSaleImages_only_adds_witness :
  sale_images sample_db_with_image
  ⊆ sale_images
      (uploadSaleImages sample_env
         (sample_upload [sample_file; sample_file2] ["sealed"; "bogus"])
         sample_db_with_image).2.
Proof.
  apply (uploadSaleImages_only_adds sample_env
           (sample_upload [sample_file; sample_file2] ["sealed"; "bogus"])
           sample_db_with_image
           (uploadSaleImages sample_env
              (sample_upload [sample_file; sample_file2] ["sealed"; "bogus"])
              sample_db_with_image).1).
  vm_compute. reflexivity.
Defined.

(** X7.  A 201 answer of [uploadSaleImages] means one new row per file:
    the answer lists as many rows as there were files, each of them is in
    the store under an identifier that was unused, and the table has grown
    by exactly that number. *)
Theorem uploadSaleImages_success_rows env req db resp db1 :
  uploadSaleImages env req db = (inr resp, db1) ->
  exists files,
    ui_files req = Some files
    /\ length (ur_images resp) = length files
    /\ size (sale_images db1)
       = (size (sale_images db) + length files)%nat
    /\ forall id img, (id, img) ∈ ur_images resp ->
         sale_images db1 !! id = Some img
         /\ sale_images db !! id = None.
Proof.
  intros H. apply uploadSaleImages_cases in H as [[_ [e H]]|H];
    [discriminate H|].
  destruct H as (files & image_types & os & Hf & _ & Hlen & _ & Hr & Hp & _).
  apply Promise_all_inr in Hp as [Hrows Hl].
  apply run_tasks_effect in Hr
    as (_ & _ & _ & _ & _ & Hlos & Hsize & Hnew & _).
  rewrite length_zip, <- Hlen, Nat.min_id in Hlos.
  exists files. split; [exact Hf|]. rewrite <- Hrows in Hsize, Hnew.
  rewrite Hl, Hlos in *. split_and!; auto.
Qed.

Lemma uploadSaleImages_success_rows_witness :
  size (sale_images
          (uploadSaleImages sample_env
             (sample_upload [sample_file; sample_file2] ["sealed"; "sealed"])
             sample_db_with_image).2)
  = (size (sale_images sample_db_with_image) + 2)%nat.
Proof.
  destruct (uploadSaleImages sample_env
              (sample_upload [sample_file; sample_file2] ["sealed"; "sealed"])
              sample_db_with_image) as [[e|resp] db1] eqn:E.
  - exfalso. vm_compute in E. discriminate E.
  - destruct (uploadSaleImages_success_rows _ _ _ _ _ E)
      as (files & Hf & _ & Hsize & _).
    cbn in Hf. injection Hf as <-. exact Hsize.
Defined.

(** ** Serial extraction: failures, and the shape of the extracted value *)

(** X8.  [extractSerial] runs without a transaction, yet a failure leaves
    the store as it was; and it fails in five ways only: no file, no such
    sale, a file above the size limit, an image address beyond the 500
    characters of its column, or an image identifier already in use. *)
Theorem extractSerial_failure_unchanged env req db e db1 :
  extractSerial env req db = (inl e, db1) ->
  db1 = db
  /\ (e = ValidationError "Imagen requerida"
      \/ e = NotFoundError "Venta no encontrada"
      \/ e = JsError "Archivo demasiado grande. Máximo: 5 MB"
      \/ e = PgError string_data_right_truncation
      \/ e = PgError unique_violation).
Proof.
  unfold extractSerial, bind, read, lift, ret, throw.
  destruct (es_file req) as [file|]; [|intros [= <- <-]; auto].
  destruct (sales db !! es_sale_id req) as [row|] eqn:Hs;
    [|intros [= <- <-]; auto].
  destruct (uploadImage env file "serial_number") as [e0|res] eqn:Hup.
  { unfold uploadImage in Hup.
    destruct (maxFileSize <? f_size file); [|discriminate Hup].
    injection Hup as <-. intros [= <- <-]. auto 6. }
  destruct (insert_sale_image env (uuid env 0) (es_sale_id req)
              "serial_number" (imageUrl res) db) as [r0 db0] eqn:Hins.
  apply insert_sale_image_cases in Hins as [[-> Hr0]|Hins].
  { destruct Hr0 as [[-> _]|[[-> Hr0]|[[-> _]|[-> Hr0]]]].
    - intros [= <- <-]. auto 6.
    - exfalso. destruct Hr0 as (t & Ht & Hnot).
      rewrite allowed_type_fits in Ht by (repeat constructor).
      injection Ht as <-. apply Hnot. repeat constructor.
    - intros [= <- <-]. auto 7.
    - congruence. }
  destruct Hins as (image_type & image_url & _ & _ & -> & -> & _).
  destruct (negb (truthy_string (s_serial_number row))); [|discriminate].
  unfold update_serial_number. cbn [sales set_sale_images].
  rewrite Hs, extractedSerial_fits. discriminate.
Qed.

Lemma extractSerial_failure_unchanged_witness :
  (extractSerial sample_env
     {| es_sale_id := sale1;
        es_file := Some {| f_originalname := "serie.png";
                           f_size := 6 * 1024 * 1024 |} |}
     (sample_db_with_sale 19737 None)).2
  = sample_db_with_sale 19737 None.
Proof.
  destruct (extractSerial sample_env
     {| es_sale_id := sale1;
        es_file := Some {| f_originalname := "serie.png";
                           f_size := 6 * 1024 * 1024 |} |}
     (sample_db_with_sale 19737 None)) as [[e|resp] db1] eqn:E.
  - exact (proj1 (extractSerial_failure_unchanged _ _ _ _ _ E)).
  - exfalso. vm_compute in E. discriminate E.
Defined.

Lemma serial_char_to_upper c : serial_char c = true -> to_upper c = c.
Proof.
  destruct c as [[] [] [] [] [] [] [] []]; vm_compute; congruence.
Qed.

Lemma serial_char_not_space c : serial_char c = true -> Ascii.is_space c = false.
Proof.
  destruct c as [[] [] [] [] [] [] [] []]; vm_compute; congruence.
Qed.

Lemma to_upper_alnum c : is_alnum c = true -> serial_char (to_upper c) = true.
Proof.
  destruct c as [[] [] [] [] [] [] [] []]; vm_compute; congruence.
Qed.

Lemma list_ascii_app a b :
  String.list_ascii_of_string (a +:+ b)
  = String.list_ascii_of_string a ++ String.list_ascii_of_string b.
Proof.
  induction a as [|c a IH]; [reflexivity|].
  change (String c a +:+ b) with (String c (a +:+ b)).
  cbn [String.list_ascii_of_string]. rewrite IH. reflexivity.
Qed.

Lemma drop_while_none {A} (f : A -> bool) l :
  forallb (fun c => negb (f c)) l = true -> drop_while f l = l.
Proof.
  destruct l as [|x l]; [reflexivity|]. cbn.
  destruct (f x); [discriminate|reflexivity].
Qed.

Lemma forallb_rev {A} (f : A -> bool) l :
  forallb f (rev l) = forallb f l.
Proof.
  induction l as [|x l IH]; [reflexivity|]. cbn.
  rewrite forallb_app, IH. cbn. rewrite andb_true_r. apply andb_comm.
Qed.

(** A string of upper-case letters and digits is left as it is. *)
Lemma cleanSerialNumber_fixed s :
  forallb serial_char (String.list_ascii_of_string s) = true ->
  cleanSerialNumber s = s.
Proof.
  intros Hall. unfold cleanSerialNumber, trim.
  assert (Hmap : map to_upper (String.list_ascii_of_string s)
                 = String.list_ascii_of_string s).
  { rewrite forallb_forall in Hall.
    induction (String.list_ascii_of_string s) as [|c l IH]; [reflexivity|].
    cbn. rewrite serial_char_to_upper by (apply Hall; left; reflexivity).
    f_equal. apply IH. intros x Hx. apply Hall. right. exact Hx. }
  assert (Hfil : List.filter (fun c => is_upper c || is_digit c)
                   (String.list_ascii_of_string s)
                 = String.list_ascii_of_string s).
  { rewrite forallb_forall in Hall.
    induction (String.list_ascii_of_string s) as [|c l IH]; [reflexivity|].
    cbn. pose proof (Hall c (or_introl eq_refl)) as Hc.
    unfold serial_char in Hc. rewrite Hc. f_equal.
    apply IH; [|injection Hmap; trivial].
    intros x Hx. apply Hall. right. exact Hx. }
  rewrite Hmap, Hfil, String.list_ascii_of_string_of_list_ascii.
  assert (Hns : forallb (fun c => negb (Ascii.is_space c))
                  (String.list_ascii_of_string s) = true).
  { rewrite forallb_forall in Hall |- *. intros c Hc.
    rewrite serial_char_not_space by (apply Hall, Hc). reflexivity. }
  rewrite (drop_while_none _ _ Hns).
  rewrite drop_while_none by (rewrite forallb_rev; exact Hns).
  rewrite rev_involutive. apply String.string_of_list_ascii_of_string.
Qed.

Lemma filter_serial_chars l :
  forallb serial_char (List.filter (fun c => is_upper c || is_digit c) l)
  = true.
Proof.
  induction l as [|c l IH]; [reflexivity|]. cbn.
  destruct (is_upper c || is_digit c) eqn:E; [|exact IH].
  cbn. unfold serial_char at 1. rewrite E. exact IH.
Qed.

Lemma forallb_suffix {A} (f : A -> bool) l :
  forallb f l = true -> forall n, forallb f (drop n l) = true.
Proof.
  induction l as [|x l IH]; intros H [|n]; cbn [drop]; trivial.
  apply IH. cbn in H. apply andb_prop in H as [_ H]. exact H.
Qed.

Lemma forallb_drop_while {A} (f g : A -> bool) l :
  forallb f l = true -> forallb f (drop_while g l) = true.
Proof.
  induction l as [|x l IH]; [reflexivity|]. cbn [drop_while].
  destruct (g x); [|trivial]. cbn. intros H.
  apply andb_prop in H as [_ H]. auto.
Qed.

(** X9.  On ASCII text, [cleanSerialNumber] returns upper-case letters and
    digits only, and cleaning a second time changes nothing. *)
Theorem cleanSerialNumber_idempotent s :
  forallb (fun c => (nat_of_ascii c <? 128)%nat)
    (String.list_ascii_of_string s) = true ->
  forallb (fun c => is_upper c || is_digit c)
    (String.list_ascii_of_string (cleanSerialNumber s)) = true
  /\ cleanSerialNumber (cleanSerialNumber s) = cleanSerialNumber s.
Proof.
  intros _.
  assert (H : forallb serial_char
                (String.list_ascii_of_string (cleanSerialNumber s)) = true).
  { unfold cleanSerialNumber, trim.
    rewrite !String.list_ascii_of_string_of_list_ascii.
    rewrite forallb_rev. apply forallb_drop_while.
    rewrite forallb_rev. apply forallb_drop_while.
    apply filter_serial_chars. }
  split; [exact H|]. apply cleanSerialNumber_fixed, H.
Qed.

Lemma cleanSerialNumber_idempotent_witness :
  forallb (fun c => is_upper c || is_digit c)
    (String.list_ascii_of_string (cleanSerialNumber " sn-48 a7/b ")) = true
  /\ cleanSerialNumber (cleanSerialNumber " sn-48 a7/b ")
     = cleanSerialNumber " sn-48 a7/b ".
Proof.
  apply cleanSerialNumber_idempotent. vm_compute. reflexivity.
Defined.

Lemma serial_char_ascii c :
  serial_char c = true ->
  negb ((128 <=? nat_of_ascii c)%nat && (nat_of_ascii c <? 192)%nat) = true
  /\ (240 <=? nat_of_ascii c)%nat = false.
Proof.
  destruct c as [[] [] [] [] [] [] [] []]; vm_compute; intuition congruence.
Qed.

(** On a text of upper-case letters and digits, the length in UTF-16 code
    units is the number of bytes. *)
Lemma utf16_length_ascii s :
  forallb serial_char (String.list_ascii_of_string s) = true ->
  utf16_length s = length (String.list_ascii_of_string s).
Proof.
  unfold utf16_length.
  induction (String.list_ascii_of_string s) as [|c l IH]; [reflexivity|].
  cbn [forallb List.filter]. intros H. apply andb_prop in H as [Hc Hl].
  destruct (serial_char_ascii c Hc) as [-> ->]. cbn [length]. 
  specialize (IH Hl). lia.
Qed.

Lemma pretty_N_char_digit d : is_digit (pretty_N_char d) = true.
Proof.
  destruct d as [|p]; [reflexivity|].
  do 4 (try destruct p as [p|p|]); reflexivity.
Qed.

Lemma pretty_N_go_digits x : forall s,
  forallb is_digit (String.list_ascii_of_string s) = true ->
  forallb is_digit (String.list_ascii_of_string (pretty_N_go x s)) = true.
Proof.
  induction (N.lt_wf_0 x) as [x _ IH]. intros s Hs.
  destruct (N.eq_dec x 0%N) as [->|Hx].
  - rewrite pretty_N_go_0. exact Hs.
  - rewrite pretty_N_go_step by lia.
    apply IH; [apply N.div_lt; lia|].
    cbn. rewrite pretty_N_char_digit. exact Hs.
Qed.

Lemma pretty_N_go_length_ge (k : nat) : forall x s,
  (10 ^ N.of_nat k <= x)%N ->
  (String.length s + S k <= String.length (pretty_N_go x s))%nat.
Proof.
  induction k as [|k IH]; intros x s Hx.
  - cbn in Hx. rewrite pretty_N_go_step by lia.
    etransitivity; [|apply pretty_N_go_length]. cbn. lia.
  - rewrite Nat2N.inj_succ, N.pow_succ_r' in Hx.
    rewrite pretty_N_go_step by lia.
    etransitivity; [|apply IH].
    + cbn. lia.
    + apply N.div_le_lower_bound; [lia|exact Hx].
Qed.

(** The decimal text of a time value of at least six digits. *)
Lemma pretty_timestamp t :
  100000 <= t ->
  forallb is_digit (String.list_ascii_of_string (pretty t)) = true
  /\ (6 <= length (String.list_ascii_of_string (pretty t)))%nat.
Proof.
  intros Ht. destruct t as [|p|p]; try lia.
  change (pretty (Z.pos p)) with (pretty (N.pos p)).
  unfold pretty, pretty_N. destruct (decide (N.pos p = 0%N)); [lia|].
  split; [apply pretty_N_go_digits; reflexivity|].
  rewrite <- string_length_list.
  pose proof (pretty_N_go_length_ge 5 (N.pos p) "") as H.
  cbn [String.length Nat.add] in H. apply H.
  change (10 ^ N.of_nat 5)%N with 100000%N. lia.
Qed.

Lemma upper_letter (k : nat) :
  (k < 26)%nat -> is_upper (ascii_of_nat (65 + k)) = true.
Proof. intros Hk. do 26 (destruct k as [|k]; [reflexivity|]). lia. Qed.

Lemma letters_charAt_random (r : Q) :
  (0 <= r)%Q -> (r < 1)%Q ->
  exists c, letters_charAt (Qfloor (r * 26)) = String c EmptyString
            /\ is_upper c = true.
Proof.
  intros H0 H1.
  assert (Hlo : 0 <= Qfloor (r * 26)).
  { change 0 with (Qfloor 0). apply Qfloor_resp_le.
    apply Qmult_le_0_compat; [exact H0|discriminate]. }
  assert (Hhi : Qfloor (r * 26) < 26).
  { rewrite Zlt_Qlt. eapply Qle_lt_trans; [apply Qfloor_le|].
    destruct r as [n d]. unfold Qlt in *. cbn in *. lia. }
  unfold letters_charAt.
  destruct (Z.leb_spec 0 (Qfloor (r * 26))); [|lia].
  destruct (Z.ltb_spec (Qfloor (r * 26)) 26); [|lia].
  cbn [andb]. eexists. split; [reflexivity|].
  apply upper_letter. lia.
Qed.

Lemma forallb_take {A} (f : A -> bool) l :
  forallb f l = true -> forall n, forallb f (take n l) = true.
Proof.
  induction l as [|x l IH]; intros H [|n]; cbn [take]; trivial.
  cbn in H |- *. apply andb_prop in H as [Hx H]. rewrite Hx.
  cbn. apply IH, H.
Qed.

(** X10.  The serial number the OCR stub extracts, at any time from 100
    seconds after the epoch on and for random draws in the unit interval,
    passes [validateSerialNumber] and is left as it is by
    [cleanSerialNumber], whatever the file is called. *)
Theorem extracted_serial_valid env fileName :
  100000 <= now env ->
  (forall i, (i < 3)%nat -> (0 <= random env i)%Q /\ (random env i < 1)%Q) ->
  validateSerialNumber (extractedSerial (extractSerialFromImage env fileName))
  = true
  /\ cleanSerialNumber (extractedSerial (extractSerialFromImage env fileName))
     = extractedSerial (extractSerialFromImage env fileName).
Proof.
  intros Hnow Hrand.
  pose proof (extractedSerial_nonempty env fileName) as Hne.
  destruct (pretty_timestamp _ Hnow) as [Hdig Hlen].
  destruct (letters_charAt_random _ (proj1 (Hrand 0%nat ltac:(lia)))
              (proj2 (Hrand 0%nat ltac:(lia)))) as (c0 & E0 & U0).
  destruct (letters_charAt_random _ (proj1 (Hrand 1%nat ltac:(lia)))
              (proj2 (Hrand 1%nat ltac:(lia)))) as (c1 & E1 & U1).
  destruct (letters_charAt_random _ (proj1 (Hrand 2%nat ltac:(lia)))
              (proj2 (Hrand 2%nat ltac:(lia)))) as (c2 & E2 & U2).
  revert Hne. unfold extractSerialFromImage. cbn [extractedSerial].
  cbn [generateRandomLetters]. rewrite E0, E1, E2.
  set (P := substring0 3 (alnum_upper fileName)).
  set (D := slice_last 6 (pretty (now env))).
  set (L := "" +:+ String c0 "" +:+ String c1 "" +:+ String c2 "" +:+ "").
  change (String c0 "" +:+ String c1 "" +:+ String c2 "" +:+ "")
    with (String c0 (String c1 (String c2 ""))).
  intros Hne.
  assert (HP : forallb serial_char (String.list_ascii_of_string P) = true).
  { unfold P, substring0, alnum_upper.
    rewrite !String.list_ascii_of_string_of_list_ascii.
    apply forallb_take.
    induction (String.list_ascii_of_string fileName) as [|c l IH];
      [reflexivity|].
    cbn [List.filter]. destruct (is_alnum c) eqn:Ec; [|exact IH].
    cbn. rewrite to_upper_alnum by exact Ec. exact IH. }
  assert (HD : forallb is_digit (String.list_ascii_of_string D) = true
               /\ length (String.list_ascii_of_string D) = 6%nat).
  { unfold D, slice_last.
    rewrite String.list_ascii_of_string_of_list_ascii.
    split; [apply forallb_suffix, Hdig|].
    rewrite length_drop. lia. }
  destruct HD as [HD HDlen].
  assert (Hchars : String.list_ascii_of_string
                     (P +:+ D +:+ String c0 (String c1 (String c2 "")))
                   = String.list_ascii_of_string P
                     ++ String.list_ascii_of_string D ++ [c0; c1; c2]).
  { rewrite !list_ascii_app. reflexivity. }
  assert (Hall : forallb serial_char
                   (String.list_ascii_of_string
                      (P +:+ D +:+ String c0 (String c1 (String c2 ""))))
                 = true).
  { rewrite Hchars, !forallb_app, HP. cbn [andb].
    apply andb_true_intro. split.
    - rewrite forallb_forall in HD |- *. intros c Hc.
      unfold serial_char. rewrite (HD c Hc). apply orb_true_r.
    - cbn. unfold serial_char. rewrite U0, U1, U2. reflexivity. }
  split.
  - unfold validateSerialNumber.
    rewrite (truthy_string_Some _ Hne). cbn [negb orb].
    rewrite (utf16_length_ascii _ Hall), Hchars, !length_app, HDlen.
    destruct (Nat.ltb_spec
                (length (String.list_ascii_of_string P) + (6 + length [c0; c1; c2]))
                6); [lia|].
    rewrite !existsb_app.
    apply andb_true_intro. split.
    + cbn. rewrite U0. rewrite !orb_true_r. reflexivity.
    + destruct (String.list_ascii_of_string D) as [|d l]; [discriminate|].
      cbn in HD |- *. apply andb_prop in HD as [-> _].
      rewrite orb_true_r. reflexivity.
  - apply cleanSerialNumber_fixed, Hall.
Qed.

Lemma extracted_serial_valid_witness :
  validateSerialNumber
    (extractedSerial (extractSerialFromImage sample_env "serie-01.png"))
  = true
  /\ cleanSerialNumber
       (extractedSerial (extractSerialFromImage sample_env "serie-01.png"))
     = extractedSerial (extractSerialFromImage sample_env "serie-01.png").
Proof.
  assert (Hnow : 100000 <= now sample_env) by (vm_compute; discriminate).
  assert (Hrand : forall i, (i < 3)%nat ->
            (0 <= random sample_env i)%Q /\ (random sample_env i < 1)%Q).
  { intros i Hi. cbn [random sample_env]. unfold Qle, Qlt. cbn. lia. }
  exact (extracted_serial_valid sample_env "serie-01.png" Hnow Hrand).
Defined.

(** ** Warranties: status, statistics, history and extension *)

Lemma days_until_DATE env d :
  getDaysUntilWarrantyExpiry env (ofDATE d) = d - CURRENT_DATE env.
Proof.
  unfold getDaysUntilWarrantyExpiry, CURRENT_DATE.
  change (1000 * 60 * 60 * 24) with msPerDay.
  unfold ceil_div, getTime, ofDATE, MakeDate, Day, msPerDay. div_lia.
Qed.

Lemma expiring_soon_DATE env d threshold :
  isWarrantyExpiringSoon env (ofDATE d) threshold
  = (d - CURRENT_DATE env <=? default 30 threshold)
    && (0 <? d - CURRENT_DATE env).
Proof.
  unfold isWarrantyExpiringSoon.
  pose proof (days_until_DATE env d) as H.
  unfold getDaysUntilWarrantyExpiry in H. rewrite H. reflexivity.
Qed.

(** X11.  The status of a warranty depends on calendar days only, not on
    the time of day: for a sale whose warranty ends on day [e], with
    [today] the current day, [checkWarrantyStatus] reports [e - today] days
    left, an active warranty exactly when [today < e], and one that
    expires soon exactly when [today < e <= today + 30]. *)
Theorem checkWarrantyStatus_by_day env saleId db s :
  sales db !! saleId = Some s ->
  let today := CURRENT_DATE env in
  checkWarrantyStatus env saleId db
  = inr {| isActive := today <? s_warranty_end s;
           isExpiringSoon := (today <? s_warranty_end s)
                             && (s_warranty_end s <=? today + 30);
           daysUntilExpiry := s_warranty_end s - today;
           ws_warrantyEnd := ofDATE (s_warranty_end s) |}.
Proof.
  intros Hs today. unfold checkWarrantyStatus. rewrite Hs.
  rewrite days_until_DATE, expiring_soon_DATE. fold today. cbn [default].
  f_equal. f_equal.
  - destruct (Z.ltb_spec 0 (s_warranty_end s - today)),
             (Z.ltb_spec today (s_warranty_end s)); (reflexivity || lia).
  - destruct (Z.ltb_spec 0 (s_warranty_end s - today)),
             (Z.ltb_spec today (s_warranty_end s)),
             (Z.leb_spec (s_warranty_end s - today) 30),
             (Z.leb_spec (s_warranty_end s) (today + 30));
      (reflexivity || lia).
Qed.

Lemma checkWarrantyStatus_by_day_witness :
  checkWarrantyStatus sample_env sale1 (sample_db_with_sale 19747 None)
  = inr {| isActive := true; isExpiringSoon := true; daysUntilExpiry := 10;
           ws_warrantyEnd := ofDATE 19747 |}.
Proof.
  assert (Hs : sales (sample_db_with_sale 19747 None) !! sale1
               = Some (sample_sale 19747 None)) by (vm_compute; reflexivity).
  exact (checkWarrantyStatus_by_day sample_env sale1 _ _ Hs).
Defined.

Lemma count_sales_insert cond db id s :
  sales db !! id = None ->
  count_sales cond (set_sales (insert id s) db)
  = count_sales cond db + (if cond s then 1 else 0).
Proof.
  intros Hs. unfold count_sales. cbn [sales set_sales].
  rewrite map_filter_insert. cbn [snd].
  destruct (decide (cond s = true)) as [Hc|Hc].
  - rewrite Hc, map_size_insert_None; [lia|].
    apply map_lookup_filter_None_2. left. exact Hs.
  - destruct (cond s); [congruence|].
    rewrite delete_id by exact Hs. lia.
Qed.

(** An induction principle for stores: from the store without sales, one
    sale at a time. *)
Lemma sales_ind (P : DB -> Prop) :
  (forall db, sales db = ∅ -> P db) ->
  (forall db id s, sales db !! id = None -> P db ->
     P (set_sales (insert id s) db)) ->
  forall db, P db.
Proof.
  intros Hempty Hins [u p c sl im].
  induction sl as [|id s sl Hid IH] using map_ind.
  - apply Hempty. reflexivity.
  - apply (Hins {| users := u; products := p; customers := c; sales := sl;
                   sale_images := im |} id s Hid IH).
Qed.

Lemma count_sales_empty cond db : sales db = ∅ -> count_sales cond db = 0.
Proof.
  intros H. unfold count_sales. rewrite H, map_filter_empty. reflexivity.
Qed.

(** X12.  In the warranty statistics every sale is counted as active, as
    expired, or ends its warranty today and is in neither count; the
    expiring-soon count takes in the sales ending today and, beyond them,
    active ones only. *)
Theorem getWarrantyStatistics_partition env db :
  let st := getWarrantyStatistics env db in
  totalActiveWarranties st + expiredCount st + ending_today env db
  = Z.of_nat (size (sales db))
  /\ ending_today env db <= expiringSoonCount st
     <= totalActiveWarranties st + ending_today env db.
Proof.
  unfold getWarrantyStatistics, ending_today.
  cbn [totalActiveWarranties expiredCount expiringSoonCount].
  rewrite !or_number_zero.
  induction db as [db Hempty|db id s Hid IH] using sales_ind.
  - rewrite !count_sales_empty by exact Hempty. rewrite Hempty.
    rewrite map_size_empty. lia.
  - rewrite !count_sales_insert by exact Hid. cbn [sales set_sales].
    rewrite map_size_insert_None by exact Hid.
    set (today := CURRENT_DATE env) in *.
    destruct (Z.ltb_spec today (s_warranty_end s)),
             (Z.ltb_spec (s_warranty_end s) today),
             (Z.eqb_spec (s_warranty_end s) today),
             (Z.leb_spec today (s_warranty_end s)),
             (Z.leb_spec (s_warranty_end s) (today + 30));
      cbn [andb]; lia.
Qed.

Global Instance by_warranty_end_desc_trans : Transitive by_warranty_end_desc.
Proof. unfold by_warranty_end_desc. intros a b c. lia. Qed.

Global Instance by_warranty_end_desc_total : Total by_warranty_end_desc.
Proof. unfold by_warranty_end_desc. intros a b. lia. Qed.

(** The rows of a query over one table: the images of the table's rows,
    each once, in the order asked for. *)
Lemma query_rows_spec {A B} (R : relation B) `{!forall a b, Decision (R a b)}
    `{!Transitive R} `{!Total R} (f : string * A -> option B)
    (key : B -> string) (m : gmap string A) :
  (forall kv b, f kv = Some b -> key b = kv.1) ->
  let rows := merge_sort R (omap f (map_to_list m)) in
  (forall b, b ∈ rows <->
     exists id a, m !! id = Some a /\ f (id, a) = Some b)
  /\ NoDup (key <$> rows)
  /\ StronglySorted R rows.
Proof.
  intros Hkey rows.
  assert (Hperm : rows ≡ₚ omap f (map_to_list m))
    by apply merge_sort_Permutation.
  split; [|split].
  - intros b. rewrite Hperm, list_elem_of_omap. split.
    + intros ([id a] & Hin & Hf). apply elem_of_map_to_list in Hin. eauto.
    + intros (id & a & Hm & Hf). exists (id, a).
      split; [apply elem_of_map_to_list, Hm|exact Hf].
  - rewrite Hperm. apply NoDup_omap_keys; [exact Hkey|].
    apply NoDup_fst_map_to_list.
  - apply StronglySorted_merge_sort; apply _.
Qed.

Lemma StronglySorted_filter {A} (R : relation A) (P : A -> Prop)
    `{!forall x, Decision (P x)} l :
  StronglySorted R l -> StronglySorted R (filter P l).
Proof.
  induction 1 as [|x l Hs IH Hall]; [constructor|].
  rewrite filter_cons. destruct (decide (P x)); [|exact IH].
  constructor; [exact IH|].
  rewrite Forall_forall in Hall |- *. intros y Hy.
  apply list_elem_of_filter in Hy as [_ Hy]. auto.
Qed.

Lemma customer_warranty_row_Some env cid db id s row :
  customer_warranty_row env cid db (id, s) = Some row ->
  s_customer_id s = cid /\ r_sale_id row = id
  /\ r_warranty_end row = s_warranty_end s
  /\ r_days_until_expiry row = s_warranty_end s - CURRENT_DATE env.
Proof.
  unfold customer_warranty_row.
  destruct (customers db !! s_customer_id s); [|discriminate].
  destruct (products db !! s_product_id s); [|discriminate].
  destruct (String.eqb_spec (s_customer_id s) cid); [|discriminate].
  intros [= <-]. cbn. auto.
Qed.

(** X13.  [getCustomerWarranties] sorts every sale of the customer into
    exactly one of two lists: [active] holds those whose warranty ends
    after today, [expired] the others, a warranty ending today included;
    both run from the latest end of warranty to the earliest.  The store
    is taken with the foreign keys of its sales in place. *)
Theorem getCustomerWarranties_partition env customerId db :
  sales_refs_ok db ->
  let today := CURRENT_DATE env in
  let r := getCustomerWarranties env customerId db in
  (forall id, id ∈ sale_id <$> cw_active r <->
     exists s, sales db !! id = Some s /\ s_customer_id s = customerId
               /\ today < s_warranty_end s)
  /\ (forall id, id ∈ sale_id <$> cw_expired r <->
        exists s, sales db !! id = Some s /\ s_customer_id s = customerId
                  /\ s_warranty_end s <= today)
  /\ NoDup (sale_id <$> (cw_active r ++ cw_expired r))
  /\ StronglySorted (fun a b => warranty_end b <= warranty_end a)
       (cw_active r)
  /\ StronglySorted (fun a b => warranty_end b <= warranty_end a)
       (cw_expired r).
Proof.
  intros Hfk today r. subst r. unfold getCustomerWarranties.
  cbn [cw_active cw_expired].
  set (to_w := fun row : ExpiringRow =>
         {| sale_id := r_sale_id row;
            customer_name := r_customer_name row;
            customer_email := r_customer_email row;
            product_name := r_product_name row;
            warranty_end := ofDATE (r_warranty_end row);
            days_until_expiry := r_days_until_expiry row |}).
  destruct (query_rows_spec by_warranty_end_desc
              (customer_warranty_row env customerId db) r_sale_id (sales db))
    as (Hmem & Hnd & Hsort).
  { intros [id s] b Hb.
    apply customer_warranty_row_Some in Hb as (_ & Hb & _). exact Hb. }
  set (rows := merge_sort by_warranty_end_desc
                 (omap (customer_warranty_row env customerId db)
                       (map_to_list (sales db)))) in *.
  assert (Hin : forall (P : Z -> Prop) `{!forall z, Decision (P z)} id,
            id ∈ sale_id <$> filter (fun w => P (days_until_expiry w))
                               (to_w <$> rows)
            <-> exists s, sales db !! id = Some s
                          /\ s_customer_id s = customerId
                          /\ P (s_warranty_end s - today)).
  { intros P HP id. rewrite list_elem_of_fmap. split.
    - intros (w & -> & Hw). apply list_elem_of_filter in Hw as [HPw Hw].
      apply list_elem_of_fmap in Hw as (row & -> & Hrow).
      apply Hmem in Hrow as (id & s & Hs & Hrow).
      apply customer_warranty_row_Some in Hrow as (Hc & Hid & _ & Hd).
      cbn in HPw |- *. rewrite Hd in HPw. rewrite Hid. eauto.
    - intros (s & Hs & Hc & HPs).
      destruct (Hfk id s Hs) as ([p Hp] & [c Hcu] & _).
      assert (Hrow : exists row,
                customer_warranty_row env customerId db (id, s) = Some row).
      { unfold customer_warranty_row. rewrite Hcu, Hp.
        destruct (String.eqb_spec (s_customer_id s) customerId);
          [eauto|contradiction]. }
      destruct Hrow as [row Hrow].
      pose proof (customer_warranty_row_Some _ _ _ _ _ _ Hrow)
        as (_ & Hid & _ & Hd).
      exists (to_w row). split; [cbn; congruence|].
      apply list_elem_of_filter. split; [cbn; rewrite Hd; exact HPs|].
      apply list_elem_of_fmap. exists row. split; [reflexivity|].
      apply Hmem. eauto. }
  assert (Hsorted : StronglySorted
                      (fun a b => warranty_end b <= warranty_end a)
                      (to_w <$> rows)).
  { eapply StronglySorted_fmap; [|exact Hsort].
    intros x y Hxy. unfold by_warranty_end_desc in Hxy. cbn.
    unfold ofDATE, MakeDate, msPerDay. lia. }
  split; [|split; [|split; [|split]]].
  - intros id. etrans; [exact (Hin (fun z => 0 < z) _ id)|].
    split; intros (s & ? & ? & ?); exists s; repeat split; auto; lia.
  - intros id. etrans; [exact (Hin (fun z => z <= 0) _ id)|].
    split; intros (s & ? & ? & ?); exists s; repeat split; auto; lia.
  - assert (Hperm : filter (fun w => 0 < days_until_expiry w) (to_w <$> rows)
                    ++ filter (fun w => days_until_expiry w <= 0)
                         (to_w <$> rows)
                    ≡ₚ to_w <$> rows).
    { rewrite <- (filter_app_complement
                    (fun w => 0 < days_until_expiry w) (to_w <$> rows)) at 3.
      apply Permutation_app_head.
      rewrite (list_filter_iff (fun w => days_until_expiry w <= 0)
                 (fun w => ~ 0 < days_until_expiry w))
        by (intros w; lia).
      reflexivity. }
    rewrite Hperm, <- list_fmap_compose. exact Hnd.
  - apply StronglySorted_filter, Hsorted.
  - apply StronglySorted_filter, Hsorted.
Qed.

Lemma getCustomerWarranties_partition_witness :
  (sale_id <$> cw_active
     (getCustomerWarranties sample_env customer1 sample_db_three)
   = [sale3; sale1])
  /\ (sale_id <$> cw_expired
        (getCustomerWarranties sample_env customer1 sample_db_three)
      = [sale2])
  /\ NoDup (sale_id <$>
              (cw_active
                 (getCustomerWarranties sample_env customer1 sample_db_three)
               ++ cw_expired
                    (getCustomerWarranties sample_env customer1
                       sample_db_three))).
Proof.
  assert (Hfk : sales_refs_ok sample_db_three).
  { assert (H : map_Forall
                  (fun _ s =>
                     is_Some (products sample_db_three !! s_product_id s)
                     /\ is_Some (customers sample_db_three !! s_customer_id s)
                     /\ is_Some (users sample_db_three !! s_seller_id s))
                  (sales sample_db_three))
      by (apply (bool_decide_unpack _); vm_compute; reflexivity).
    intros id s Hs. exact (H id s Hs). }
  split; [vm_compute; reflexivity|]. split; [vm_compute; reflexivity|].
  exact (proj1 (proj2 (proj2
           (getCustomerWarranties_partition sample_env customer1
              sample_db_three Hfk)))).
Defined.

Lemma Day_ofDATE d : Day (ofDATE d) = d.
Proof. unfold ofDATE. apply Day_MakeDate. unfold msPerDay. lia. Qed.

Lemma MakeDay_normal y k dt :
  MakeDay (y + k / 12) (k mod 12) dt = MakeDay y k dt.
Proof.
  unfold MakeDay. rewrite Z.mod_mod by lia.
  rewrite (Z.div_small (k mod 12) 12) by (apply Z.mod_pos_bound; lia).
  rewrite Z.add_0_r. reflexivity.
Qed.

(** Any day of a month lies before the first day of a later month. *)
Lemma MakeDay_later_month y m dt n :
  0 <= m <= 11 -> 1 <= dt <= DaysInMonth y m -> 1 <= n ->
  MakeDay y m dt < MakeDay y (m + n) 1.
Proof.
  intros Hm Hdt Hn.
  pose proof (MakeDay_month_mono y (m + 1) 1 (Z.to_nat (n - 1))) as Hmono.
  rewrite Z2Nat.id in Hmono by lia.
  replace (m + 1 + (n - 1)) with (m + n) in Hmono by lia.
  pose proof (MakeDay_succ_month y m 1) as Hsucc.
  rewrite (Z.div_small m 12), (Z.mod_small m 12), Z.add_0_r in Hsucc by lia.
  pose proof (MakeDay_date_linear y m 1 (dt - 1)) as Hlin.
  replace (1 + (dt - 1)) with dt in Hlin by lia.
  lia.
Qed.

Lemma date_pl_months_spec d n :
  civil (ofDATE (date_pl_months d n))
  = addCalendarMonths (civil (ofDATE d)) n
  /\ (1 <= n -> d < date_pl_months d n).
Proof.
  unfold date_pl_months, civil, addCalendarMonths, getFullYear, getMonth,
    getDate.
  rewrite !Day_ofDATE.
  set (y := YearFromDay d). set (m := MonthFromDay d).
  set (dd := DateFromDay d).
  replace (m + 1 - 1 + n) with (m + n) by lia.
  set (ty := y + (m + n) / 12). set (tm := (m + n) mod 12).
  pose proof (MonthFromDay_bounds d) as Hm. fold m in Hm.
  pose proof (DateFromDay_bounds d) as Hdd. fold y m dd in Hdd.
  assert (Htm : 0 <= tm <= 11)
    by (unfold tm; pose proof (Z.mod_pos_bound (m + n) 12); lia).
  pose proof (DaysInMonth_bounds ty tm Htm) as Hdim.
  assert (Hmin : 1 <= Z.min dd (DaysInMonth ty tm) <= DaysInMonth ty tm)
    by lia.
  destruct (civil_roundtrip ty tm _ Htm Hmin) as (-> & -> & ->).
  split; [reflexivity|].
  intros Hn. unfold ty, tm. rewrite MakeDay_normal.
  pose proof (MakeDay_roundtrip d) as Hrt. fold y m dd in Hrt.
  pose proof (MakeDay_later_month y m dd n Hm Hdd Hn) as Hlater.
  pose proof (MakeDay_date_linear y (m + n) 1
                (Z.min dd (DaysInMonth ty tm) - 1)) as Hlin.
  replace (1 + (Z.min dd (DaysInMonth ty tm) - 1))
    with (Z.min dd (DaysInMonth ty tm)) in Hlin by lia.
  fold ty tm. lia.
Qed.

(** X14.  [extendWarranty] by [n >= 1] months on an existing sale moves the
    end of the warranty to a later day, [n] calendar months on with the day
    of the month kept or cut to the length of the target month (the rule
    of the store's month arithmetic, not the roll-over of
    [calculateWarrantyEnd]), adds [n] to the warranty period, and changes
    no other sale. *)
Theorem extendWarranty_extends env saleId n db s :
  sales db !! saleId = Some s ->
  1 <= n ->
  0 < s_warranty_period_months s ->
  exists e1 s1 db1,
    extendWarranty env saleId n db = (inr (ofDATE e1), db1)
    /\ sales db1 = <[saleId := s1]> (sales db)
    /\ s_warranty_end s1 = e1
    /\ s_warranty_period_months s1 = s_warranty_period_months s + n
    /\ s_warranty_end s < e1
    /\ civil (ofDATE e1)
       = addCalendarMonths (civil (ofDATE (s_warranty_end s))) n.
Proof.
  intros Hs Hn Hperiod. unfold extendWarranty, update_warranty. rewrite Hs.
  destruct (Z.ltb_spec 0 (s_warranty_period_months s + n)); [|lia].
  cbn [negb].
  destruct (date_pl_months_spec (s_warranty_end s) n) as [Hcivil Hlater].
  eexists _, _, _. split; [reflexivity|].
  cbn [sales set_sales s_warranty_end s_warranty_period_months].
  split_and!; auto.
Qed.

Lemma extendWarranty_extends_witness :
  exists e1 s1 db1,
    extendWarranty sample_env sale1 1
      (sample_db_with_sale (MakeDay 2024 0 31) None)
    = (inr (ofDATE e1), db1)
    /\ sales db1 = <[sale1 := s1]>
                     (sales (sample_db_with_sale (MakeDay 2024 0 31) None))
    /\ s_warranty_end s1 = e1
    /\ s_warranty_period_months s1 = 12 + 1
    /\ MakeDay 2024 0 31 < e1
    /\ civil (ofDATE e1) = (2024, 2, 29).
Proof.
  assert (Hs : sales (sample_db_with_sale (MakeDay 2024 0 31) None) !! sale1
               = Some (sample_sale (MakeDay 2024 0 31) None))
    by (vm_compute; reflexivity).
  assert (Hn : 1 <= 1) by lia.
  assert (Hp : 0 < s_warranty_period_months
                     (sample_sale (MakeDay 2024 0 31) None))
    by (vm_compute; reflexivity).
  exact (extendWarranty_extends sample_env sale1 1 _ _ Hs Hn Hp).
Defined.

(** X15.  [extendWarranty] fails only for a missing sale or a warranty
    period that would not stay positive; it then throws the same plain
    [Error] in both cases and leaves the store as it was. *)
Theorem extendWarranty_failure env saleId n db e db1 :
  extendWarranty env saleId n db = (inl e, db1) ->
  db1 = db
  /\ e = JsError "Error al extender garantía"
  /\ (sales db !! saleId = None
      \/ exists s, sales db !! saleId = Some s
                   /\ s_warranty_period_months s + n <= 0).
Proof.
  unfold extendWarranty, update_warranty.
  destruct (sales db !! saleId) as [s|] eqn:Hs.
  - destruct (Z.ltb_spec 0 (s_warranty_period_months s + n));
      cbn [negb]; [discriminate|].
    intros [= <- <-]. split_and!; eauto.
  - intros [= <- <-]. auto.
Qed.

Lemma extendWarranty_failure_witness :
  (extendWarranty sample_env sale1 (-12) (sample_db_with_sale 19737 None)).2
  = sample_db_with_sale 19737 None.
Proof.
  destruct (extendWarranty sample_env sale1 (-12)
              (sample_db_with_sale 19737 None)) as [[e|r] db1] eqn:E.
  - exact (proj1 (extendWarranty_failure _ _ _ _ _ _ E)).
  - exfalso. vm_compute in E. discriminate E.
Defined.

(** X16.  The list of expiring warranties and the status check agree,
    process and session being in UTC: for every entry of
    [getExpiringWarranties], [checkWarrantyStatus] on its sale succeeds
    and reports the same end of warranty and the same number of days
    left; the entry is active in the status exactly when it has days
    left, so an entry ending today is listed but not active. *)
Theorem expiring_entries_agree env daysThreshold db result w :
  getExpiringWarranties UTC_zones env daysThreshold db = inr result ->
  w ∈ result ->
  exists st,
    checkWarrantyStatus env (sale_id w) db = inr st
    /\ ws_warrantyEnd st = warranty_end w
    /\ daysUntilExpiry st = days_until_expiry w
    /\ isActive st = (0 <? days_until_expiry w)
    /\ 0 <= days_until_expiry w.
Proof.
  intros Hrun Hw.
  apply getExpiringWarranties_inr in Hrun as (threshold & ->).
  unfold expiring_query in Hw.
  cbn [session_zone process_zone UTC_zones] in Hw.
  rewrite CURRENT_DATE_in_UTC in Hw.
  destruct (query_rows_spec by_warranty_end
              (expiring_row (CURRENT_DATE env) threshold db) r_sale_id
              (sales db))
    as (Hmem & _ & _).
  { intros [id s] b Hb. apply expiring_row_Some in Hb as (_ & Hb & _).
    exact Hb. }
  apply list_elem_of_fmap in Hw as (row & -> & Hrow).
  apply Hmem in Hrow as (id & s & Hs & Hrow).
  apply expiring_row_Some in Hrow as (Hwin & Hid & Hend & Hdays).
  cbn [sale_id warranty_end days_until_expiry]. rewrite Hid.
  unfold checkWarrantyStatus. rewrite Hs. eexists. split; [reflexivity|].
  cbn [ws_warrantyEnd daysUntilExpiry isActive].
  rewrite days_until_DATE, Hend, Hdays.
  unfold UTC, UTC_zone, fixed_zone. cbn [LocalTZA_local].
  rewrite Z.sub_0_r.
  split_and!; try reflexivity. lia.
Qed.

Lemma expiring_entries_agree_witness :
  exists st,
    checkWarrantyStatus sample_env sale2 sample_db_three = inr st
    /\ ws_warrantyEnd st = ofDATE 19737
    /\ daysUntilExpiry st = 0
    /\ isActive st = false
    /\ 0 <= 0.
Proof.
  destruct (getExpiringWarranties UTC_zones sample_env None sample_db_three)
    as [e|result] eqn:E.
  - exfalso. vm_compute in E. discriminate E.
  - assert (Hin : {| sale_id := sale2; customer_name := "Luis Paz";
                     customer_email := "luis@correo.test";
                     product_name := "Laptop 14";
                     warranty_end := ofDATE 19737; days_until_expiry := 0 |}
                  ∈ result).
    { pose proof E as E2. vm_compute in E2. injection E2 as <-.
      repeat constructor. }
    exact (expiring_entries_agree sample_env None sample_db_three result _
             E Hin).
Defined.

(** ** The day, the month and the year around a moment *)

(** X17.  [getStartOfDay] and [getEndOfDay] bracket the day of their
    argument: a moment lies between them exactly when it falls on the
    same day, and the argument itself does. *)
Theorem day_range t u :
  (getStartOfDay t <= u <= getEndOfDay t <-> Day u = Day t)
  /\ getStartOfDay t <= t <= getEndOfDay t
  /\ getEndOfDay t + 1 = getStartOfDay (t + msPerDay).
Proof.
  unfold getStartOfDay, getEndOfDay, setHours, MakeTime, MakeDate, Day,
    msPerDay.
  split; [|split]; [split; intros H| |]; div_lia.
Qed.

Lemma in_day_range a b u :
  MakeDate a 0 <= u <= MakeDate b (msPerDay - 1) <-> a <= Day u <= b.
Proof. unfold MakeDate, Day, msPerDay. split; intros H; div_lia. Qed.

Lemma getStartOfDay_midnight d : getStartOfDay (MakeDate d 0) = MakeDate d 0.
Proof.
  unfold getStartOfDay, setHours. rewrite Day_MakeDate by (unfold msPerDay; lia).
  reflexivity.
Qed.

Lemma getEndOfDay_midnight d :
  getEndOfDay (MakeDate d 0) = MakeDate d (msPerDay - 1).
Proof.
  unfold getEndOfDay, setHours. rewrite Day_MakeDate by (unfold msPerDay; lia).
  reflexivity.
Qed.

Lemma Date_of_fields_modern y m dt :
  y < 0 \/ 99 < y -> Date_of_fields y m dt = MakeDate (MakeDay y m dt) 0.
Proof.
  intros Hy. unfold Date_of_fields.
  destruct (Z.leb_spec 0 y), (Z.leb_spec y 99); cbn [andb]; (reflexivity || lia).
Qed.

(** X18.  In a year outside 0..99, [getCurrentMonthRange] is the current
    calendar month and nothing else: a moment lies in the range exactly
    when it has the year and the month of the clock. *)
Theorem getCurrentMonthRange_month env u :
  getFullYear (now env) < 0 \/ 99 < getFullYear (now env) ->
  let r := getCurrentMonthRange env in
  range_start r <= u <= range_end r
  <-> getFullYear u = getFullYear (now env)
      /\ getMonth u = getMonth (now env).
Proof.
  intros Hy r. subst r. unfold getCurrentMonthRange.
  cbn [range_start range_end].
  rewrite !Date_of_fields_modern by exact Hy.
  rewrite getStartOfDay_midnight, getEndOfDay_midnight, in_day_range.
  unfold getFullYear, getMonth.
  set (y := YearFromDay (Day (now env))).
  set (m := MonthFromDay (Day (now env))).
  pose proof (MonthFromDay_bounds (Day (now env))) as Hm. fold m in Hm.
  pose proof (MakeDay_succ_month y m 0) as Hsucc.
  rewrite (Z.div_small m 12), (Z.mod_small m 12), Z.add_0_r in Hsucc by lia.
  pose proof (DaysInMonth_bounds y m Hm) as Hdim.
  pose proof (MakeDay_date_linear y m 0 1) as Hlin.
  replace (0 + 1) with 1 in Hlin by lia.
  split.
  - intros Hu.
    pose proof (MakeDay_date_linear y m 1 (Day u - MakeDay y m 1)) as Hk.
    replace (MakeDay y m 1 + (Day u - MakeDay y m 1)) with (Day u) in Hk
      by lia.
    destruct (civil_roundtrip y m (1 + (Day u - MakeDay y m 1)) Hm
                ltac:(lia)) as (Hyr & Hmo & _).
    rewrite Hk in Hyr, Hmo. auto.
  - intros [Hyr Hmo].
    pose proof (MakeDay_roundtrip (Day u)) as Hrt. rewrite Hyr, Hmo in Hrt.
    pose proof (DateFromDay_bounds (Day u)) as Hdt.
    rewrite Hyr, Hmo in Hdt.
    pose proof (MakeDay_date_linear y m 1 (DateFromDay (Day u) - 1)) as Hk.
    replace (1 + (DateFromDay (Day u) - 1)) with (DateFromDay (Day u)) in Hk
      by lia.
    lia.
Qed.

Lemma getCurrentMonthRange_month_witness :
  range_start (getCurrentMonthRange sample_env) <= ofCivil 2024 1 31
  <= range_end (getCurrentMonthRange sample_env)
  <-> getFullYear (ofCivil 2024 1 31) = getFullYear (now sample_env)
      /\ getMonth (ofCivil 2024 1 31) = getMonth (now sample_env).
Proof.
  assert (Hy : getFullYear (now sample_env) < 0
               \/ 99 < getFullYear (now sample_env))
    by (right; vm_compute; reflexivity).
  exact (getCurrentMonthRange_month sample_env (ofCivil 2024 1 31) Hy).
Defined.

(** X19.  In a year outside 0..99, [getCurrentYearRange] is the current
    calendar year and nothing else. *)
Theorem getCurrentYearRange_year env u :
  getFullYear (now env) < 0 \/ 99 < getFullYear (now env) ->
  let r := getCurrentYearRange env in
  range_start r <= u <= range_end r
  <-> getFullYear u = getFullYear (now env).
Proof.
  intros Hy r. subst r. unfold getCurrentYearRange.
  cbn [range_start range_end].
  rewrite !Date_of_fields_modern by exact Hy.
  rewrite getStartOfDay_midnight, getEndOfDay_midnight, in_day_range.
  unfold getFullYear. set (y := YearFromDay (Day (now env))).
  rewrite !MakeDay_in_range by lia.
  pose proof (DayFromYear_succ y) as Hsucc.
  assert (Hlast : DayFromYear y + DaysBeforeMonth (InLeapYear y) 11 + 31 - 1
                  = DayFromYear (y + 1) - 1).
  { rewrite Hsucc. unfold DaysInYear.
    destruct (InLeapYear y); cbn; lia. }
  rewrite Hlast. cbn [DaysBeforeMonth].
  split.
  - intros Hu. apply YearFromDay_unique. lia.
  - intros <-. pose proof (YearFromDay_spec (Day u)). lia.
Qed.

Lemma getCurrentYearRange_year_witness :
  range_start (getCurrentYearRange sample_env) <= ofCivil 2024 12 31
  <= range_end (getCurrentYearRange sample_env)
  <-> getFullYear (ofCivil 2024 12 31) = getFullYear (now sample_env).
Proof.
  assert (Hy : getFullYear (now sample_env) < 0
               \/ 99 < getFullYear (now sample_env))
    by (right; vm_compute; reflexivity).
  exact (getCurrentYearRange_year sample_env (ofCivil 2024 12 31) Hy).
Defined.

(** X20.  From a day of the month up to the 28th, [calculateWarrantyEnd]
    keeps the day of the month and the time of day, and adding months in
    two steps is adding their sum. *)
Theorem calculateWarrantyEnd_additive D a b :
  getDate D <= 28 ->
  getDate (calculateWarrantyEnd D a) = getDate D
  /\ TimeWithinDay (calculateWarrantyEnd D a) = TimeWithinDay D
  /\ calculateWarrantyEnd (calculateWarrantyEnd D a) b
     = calculateWarrantyEnd D (a + b).
Proof.
  intros Hd. unfold calculateWarrantyEnd.
  pose proof (DateFromDay_bounds (Day D)) as Hdt. fold (getDate D) in Hdt.
  set (k := getMonth D + a).
  assert (Htm : 0 <= k mod 12 <= 11)
    by (pose proof (Z.mod_pos_bound k 12); lia).
  pose proof (DaysInMonth_bounds (getFullYear D + k / 12) (k mod 12) Htm)
    as Hdim.
  destruct (MakeDay_carry (getFullYear D) k (getDate D) ltac:(lia))
    as [Hfit _].
  destruct (Hfit ltac:(lia)) as (Hy & Hm & Hdd).
  assert (Hyear : getFullYear (setMonth D k) = getFullYear D + k / 12)
    by (unfold getFullYear at 1; rewrite Day_setMonth; exact Hy).
  assert (Hmonth : getMonth (setMonth D k) = k mod 12)
    by (unfold getMonth at 1; rewrite Day_setMonth; exact Hm).
  assert (Hdate : getDate (setMonth D k) = getDate D)
    by (unfold getDate at 1; rewrite Day_setMonth; exact Hdd).
  split; [exact Hdate|]. split; [apply TimeWithinDay_setMonth|].
  unfold setMonth at 1.
  rewrite Hyear, Hmonth, Hdate, TimeWithinDay_setMonth.
  unfold setMonth. f_equal.
  replace (getMonth D + (a + b)) with (k + b) by (unfold k; lia).
  unfold MakeDay.
  replace (getFullYear D + k / 12 + (k mod 12 + b) / 12)
    with (getFullYear D + (k + b) / 12) by div_lia.
  replace ((k mod 12 + b) mod 12) with ((k + b) mod 12) by div_lia.
  reflexivity.
Qed.

Lemma calculateWarrantyEnd_additive_witness :
  getDate (calculateWarrantyEnd (now sample_env) 12) = getDate (now sample_env)
  /\ TimeWithinDay (calculateWarrantyEnd (now sample_env) 12)
     = TimeWithinDay (now sample_env)
  /\ calculateWarrantyEnd (calculateWarrantyEnd (now sample_env) 12) 1
     = calculateWarrantyEnd (now sample_env) (12 + 1).
Proof.
  assert (Hd : getDate (now sample_env) <= 28)
    by (vm_compute; discriminate).
  exact (calculateWarrantyEnd_additive (now sample_env) 12 1 Hd).
Defined.

(** ** Customers: creation, update, and what stays unique *)

Lemma size_zero_empty {A} (m : gmap string A) :
  (0 <? size m)%nat = false -> m = ∅.
Proof.
  intros H. apply map_size_empty_inv.
  destruct (size m); [reflexivity|discriminate].
Qed.

(** The row of a request, before the columns take it. *)
Lemma stored_customer_Some c0 c :
  stored_customer c0 = Some c ->
  varchar 100 (c_first_name c0) = Some (c_first_name c)
  /\ varchar 100 (c_last_name c0) = Some (c_last_name c)
  /\ varchar 255 (c_email c0) = Some (c_email c)
  /\ (c_phone c0 = None -> c_phone c = None)
  /\ c_address c = c_address c0.
Proof.
  unfold stored_customer.
  destruct (varchar 100 (c_first_name c0)); [|discriminate].
  destruct (varchar 100 (c_last_name c0)); [|discriminate].
  destruct (varchar 255 (c_email c0)); [|discriminate].
  destruct (c_phone c0) as [phone|].
  - destruct (varchar 20 phone); cbn; [|discriminate].
    intros [= <-]. cbn. split_and!; auto. discriminate.
  - intros [= <-]. cbn. auto.
Qed.

Lemma createCustomer_cases env data db r db1 :
  createCustomer env data db = (r, db1) ->
  (db1 = db
   /\ (r = inl (ConflictError "Ya existe un cliente con este email")
       /\ customers_with_email (cd_email data) db <> ∅
       \/ customers_with_email (cd_email data) db = ∅
          /\ (r = inl (PgError string_data_right_truncation)
              \/ r = inl (PgError unique_violation))))
  \/ (exists c,
        r = inr {| cr_status := 201;
                   cr_message := "Cliente creado exitosamente";
                   cr_customer := Some (uuid env 0, c) |}
        /\ db1 = set_customers (insert (uuid env 0) c) db
        /\ customers db !! uuid env 0 = None
        /\ customers_with_email (c_email c) db = ∅
        /\ customers_with_email (cd_email data) db = ∅
        /\ varchar 100 (cd_first_name data) = Some (c_first_name c)
        /\ varchar 100 (cd_last_name data) = Some (c_last_name c)
        /\ varchar 255 (cd_email data) = Some (c_email c)
        /\ (truthy_string (cd_phone data) = false -> c_phone c = None)
        /\ c_address c = (if truthy_string (cd_address data)
                          then cd_address data else None)).
Proof.
  unfold createCustomer, bind, read, guard, insert_customer. intros H.
  destruct (0 <? size (customers_with_email (cd_email data) db))%nat eqn:Hsz;
    cbn [negb ret throw] in H.
  { injection H as <- <-. left. split; [reflexivity|]. left.
    split; [reflexivity|]. intros He. rewrite He in Hsz.
    rewrite map_size_empty in Hsz. discriminate. }
  apply size_zero_empty in Hsz.
  match type of H with
  | context [stored_customer ?c] => set (row := c) in *
  end.
  destruct (stored_customer row) as [c|] eqn:Hst.
  2:{ injection H as <- <-. left. auto. }
  destruct (bool_decide (is_Some (customers db !! uuid env 0))) eqn:Hpk.
  { injection H as <- <-. left. auto. }
  apply bool_decide_eq_false_1 in Hpk.
  destruct (bool_decide (customers_with_email (c_email c) db = ∅)) eqn:Hun;
    cbn [negb ret] in H.
  2:{ injection H as <- <-. left. auto. }
  apply bool_decide_eq_true_1 in Hun.
  injection H as <- <-. right. exists c.
  apply stored_customer_Some in Hst as (Hf & Hl & He & Hp & Ha).
  cbn [row c_first_name c_last_name c_email c_phone c_address] in *.
  split_and!; try reflexivity; try assumption.
  - destruct (customers db !! uuid env 0) eqn:E; [|reflexivity].
    exfalso. apply Hpk. eauto.
  - intros Ht. apply Hp. rewrite Ht. reflexivity.
Qed.

Lemma customers_with_email_empty email db i c :
  customers_with_email email db = ∅ ->
  customers db !! i = Some c -> c_email c <> email.
Proof.
  intros He Hi Heq.
  assert (H : customers_with_email email db !! i = Some c)
    by (apply map_lookup_filter_Some_2; [exact Hi|exact Heq]).
  rewrite He, lookup_empty in H. discriminate.
Qed.

(** X21.  [createCustomer] keeps the e-mail addresses of the customers
    distinct, whatever the request and whether it succeeds or fails; an
    address already in use is refused with the conflict error and the
    store unchanged. *)
Theorem createCustomer_emails_unique env data db r db1 :
  createCustomer env data db = (r, db1) ->
  emails_unique db ->
  emails_unique db1
  /\ (customers_with_email (cd_email data) db <> ∅ ->
      r = inl (ConflictError "Ya existe un cliente con este email")
      /\ db1 = db).
Proof.
  intros H Hinv. apply createCustomer_cases in H as [[-> H]|H].
  - split; [exact Hinv|]. intros Hne.
    destruct H as [[-> _]|[He _]]; [auto|contradiction].
  - destruct H as (c & -> & -> & Hfresh & He & Hreq & _).
    split; [|intros Hne; contradiction].
    intros i j ci cj Hi Hj Heq. cbn [customers set_customers] in Hi, Hj.
    destruct (decide (i = uuid env 0)) as [->|Hni],
             (decide (j = uuid env 0)) as [->|Hnj]; [reflexivity| | |].
    + rewrite lookup_insert_eq in Hi. injection Hi as <-.
      rewrite lookup_insert_ne in Hj by congruence.
      exfalso. apply (customers_with_email_empty _ _ _ _ He Hj). congruence.
    + rewrite lookup_insert_eq in Hj. injection Hj as <-.
      rewrite lookup_insert_ne in Hi by congruence.
      exfalso. apply (customers_with_email_empty _ _ _ _ He Hi). congruence.
    + rewrite lookup_insert_ne in Hi, Hj by congruence. eauto.
Qed.

Lemma createCustomer_emails_unique_witness :
  emails_unique
    (createCustomer sample_env3 sample_customer_data (sample_db 10)).2
  /\ (customers_with_email (cd_email sample_customer_data) (sample_db 10)
      <> ∅ ->
      (createCustomer sample_env3 sample_customer_data (sample_db 10)).1
      = inl (ConflictError "Ya existe un cliente con este email")
      /\ (createCustomer sample_env3 sample_customer_data (sample_db 10)).2
         = sample_db 10).
Proof.
  apply (createCustomer_emails_unique sample_env3 sample_customer_data
           (sample_db 10)).
  - vm_compute. reflexivity.
  - intros i j ci cj Hi Hj _. unfold sample_db in Hi, Hj.
    cbn [customers] in Hi, Hj.
    apply lookup_singleton_Some in Hi as [<- _].
    apply lookup_singleton_Some in Hj as [<- _]. reflexivity.
Defined.

Lemma filter_none {A} (P : string * A -> Prop) `{!forall x, Decision (P x)}
    (m : gmap string A) :
  (forall k x, m !! k = Some x -> ~ P (k, x)) -> filter P m = ∅.
Proof.
  intros Hno. apply map_empty. intros k.
  apply map_lookup_filter_None_2. right. intros x Hx. exact (Hno k x Hx).
Qed.

(** X22.  A customer that [createCustomer] has created can be read back
    and deleted again: [getCustomerById] returns the row of the answer;
    the row has the name and the e-mail address of the request where these
    are within the width of their columns, and [null] for a phone or an
    address that was empty; no other customer has changed; and
    [deleteCustomer] on the new identifier gives back the store as it was
    before.  The store is taken with the foreign keys of its sales in
    place. *)
Theorem createCustomer_roundtrip env data db resp db1 :
  createCustomer env data db = (inr resp, db1) ->
  sales_refs_ok db ->
  exists c,
    cr_customer resp = Some (uuid env 0, c)
    /\ getCustomerById (uuid env 0) db1
       = inr (uuid env 0, c, c_first_name c +:+ " " +:+ c_last_name c)
    /\ ((char_length (cd_first_name data) <= 100)%nat ->
        c_first_name c = cd_first_name data)
    /\ ((char_length (cd_last_name data) <= 100)%nat ->
        c_last_name c = cd_last_name data)
    /\ ((char_length (cd_email data) <= 255)%nat ->
        c_email c = cd_email data)
    /\ (cd_phone data = Some "" -> c_phone c = None)
    /\ (cd_address data = Some "" -> c_address c = None)
    /\ (forall id, id <> uuid env 0 ->
          customers db1 !! id = customers db !! id)
    /\ deleteCustomer (uuid env 0) db1
       = (inr ("Cliente " +:+ (c_first_name c +:+ " " +:+ c_last_name c)
               +:+ " eliminado exitosamente"), db).
Proof.
  intros H Hfk. apply createCustomer_cases in H as [[_ H]|H].
  { destruct H as [[H _]|[_ [H|H]]]; discriminate H. }
  destruct H as (c & Hr & -> & Hfresh & _ & _ & Hfn & Hln & Hem & Hph & Had).
  injection Hr as ->. exists c. cbn [cr_customer].
  assert (Hnosale : forall k s, sales db !! k = Some s ->
                      s_customer_id s <> uuid env 0).
  { intros k s Hs Heq. destruct (Hfk k s Hs) as (_ & [c0 Hc0] & _).
    rewrite Heq, Hfresh in Hc0. discriminate. }
  split_and!.
  - reflexivity.
  - unfold getCustomerById. cbn [customers set_customers].
    rewrite lookup_insert_eq. reflexivity.
  - intros Hfit. rewrite (varchar_fits _ _ Hfit) in Hfn. congruence.
  - intros Hfit. rewrite (varchar_fits _ _ Hfit) in Hln. congruence.
  - intros Hfit. rewrite (varchar_fits _ _ Hfit) in Hem. congruence.
  - intros Hp. apply Hph. rewrite Hp. reflexivity.
  - intros Ha. rewrite Had, Ha. reflexivity.
  - intros id Hid. cbn [customers set_customers].
    apply lookup_insert_ne. congruence.
  - unfold deleteCustomer, bind, read, guard, count_sales_of_customer.
    cbn [customers sales set_customers]. rewrite lookup_insert_eq.
    rewrite (filter_none _ (sales db)) by
      (intros k s Hs; cbn; apply Hnosale with k; exact Hs).
    rewrite map_size_empty. cbn [Nat.ltb Nat.leb negb ret].
    unfold delete_customer. cbn [users products customers sales sale_images
                                 set_customers].
    f_equal.
    rewrite delete_insert_id by exact Hfresh.
    rewrite (map_filter_id _ (sales db)) by
      (intros k s Hs; cbn; apply Hnosale with k; exact Hs).
    rewrite (map_filter_id _ (sale_images db)).
    + destruct db; reflexivity.
    + intros k img _. cbn.
      destruct (sales db !! i_sale_id img) as [s|] eqn:Hs; cbn;
        [|discriminate].
      intros [= Heq]. exact (Hnosale _ _ Hs Heq).
Qed.

Lemma createCustomer_roundtrip_witness :
  exists c,
    Some (customer2, c) = Some (uuid sample_env3 0, c)
    /\ getCustomerById customer2
         (createCustomer sample_env3 sample_customer_data (sample_db 10)).2
       = inr (customer2, c, c_first_name c +:+ " " +:+ c_last_name c)
    /\ c_first_name c = "Marta"
    /\ c_phone c = None
    /\ deleteCustomer customer2
         (createCustomer sample_env3 sample_customer_data (sample_db 10)).2
       = (inr ("Cliente " +:+ (c_first_name c +:+ " " +:+ c_last_name c)
               +:+ " eliminado exitosamente"), sample_db 10).
Proof.
  destruct (createCustomer sample_env3 sample_customer_data (sample_db 10))
    as [[e|resp] db1] eqn:E.
  - exfalso. vm_compute in E. discriminate E.
  - assert (Hfk : sales_refs_ok (sample_db 10)).
    { intros id s Hs. unfold sample_db in Hs. cbn [sales] in Hs.
      rewrite lookup_empty in Hs. discriminate Hs. }
    destruct (createCustomer_roundtrip _ _ _ _ _ E Hfk)
      as (c & _ & Hget & Hfn & _ & _ & Hph & _ & _ & Hdel).
    exists c. split; [reflexivity|]. split; [exact Hget|].
    split; [apply Hfn; vm_compute; lia|].
    split; [apply Hph; reflexivity|exact Hdel].
Defined.

Lemma others_with_email_insert email id row db :
  others_with_email email id (set_customers (insert id row) db)
  = others_with_email email id db.
Proof.
  unfold others_with_email. cbn [customers set_customers].
  rewrite map_filter_insert_False by (cbn; tauto).
  rewrite map_filter_delete. apply delete_id.
  apply map_lookup_filter_None_2. right. intros x _. cbn. tauto.
Qed.

(** Applying the fields of an update to the row they produced changes
    nothing but [updated_at]. *)
Lemma updated_customer_idem env env2 data c row :
  updated_customer env data c = Some row ->
  updated_customer env2 data row = Some (set_updated_at (now env2) row).
Proof.
  unfold updated_customer.
  destruct (ud_first_name data) as [v1|];
    [destruct (varchar 100 v1) as [w1|]; [|discriminate]|];
  (destruct (ud_last_name data) as [v2|];
    [destruct (varchar 100 v2) as [w2|]; [|discriminate]|]);
  (destruct (ud_email data) as [v3|];
    [destruct (varchar 255 v3) as [w3|]; [|discriminate]|]);
  (destruct (ud_phone data) as [v4|];
    [destruct (varchar 20 v4) as [w4|]; cbn; [|discriminate]|]);
  intros [= <-]; cbn; destruct (ud_address data); reflexivity.
Qed.

Lemma updated_customer_at env data c row :
  updated_customer env data c = Some row ->
  c_updated_at row = now env /\ c_created_at row = c_created_at c.
Proof.
  unfold updated_customer. repeat case_match; try discriminate;
    intros [= <-]; cbn; auto.
Qed.

Lemma set_updated_at_same c : set_updated_at (c_updated_at c) c = c.
Proof. destruct c; reflexivity. Qed.

Lemma check_other_email_cases id data db :
  (check_other_email id data db = (inr tt, db)
   /\ (truthy_string (ud_email data) = true ->
       others_with_email (default "" (ud_email data)) id db = ∅))
  \/ (check_other_email id data db
      = (inl (ConflictError "Ya existe otro cliente con este email"), db)
      /\ truthy_string (ud_email data) = true
      /\ others_with_email (default "" (ud_email data)) id db <> ∅).
Proof.
  unfold check_other_email, bind, read, guard.
  destruct (truthy_string (ud_email data)); [|left; split; [auto|discriminate]].
  destruct (0 <? size (others_with_email (default "" (ud_email data)) id db))%nat
    eqn:Hsz; cbn [negb ret throw].
  - right. split_and!; auto. intros He. rewrite He, map_size_empty in Hsz.
    discriminate.
  - left. split; [reflexivity|]. intros _. apply size_zero_empty, Hsz.
Qed.

Lemma updateCustomer_cases env id data db r db1 :
  updateCustomer env id data db = (r, db1) ->
  (db1 = db /\ exists e, r = inl e)
  \/ (exists c row,
        customers db !! id = Some c
        /\ updated_customer env data c = Some row
        /\ r = inr {| cr_status := 200;
                      cr_message := "Cliente actualizado exitosamente";
                      cr_customer := Some (id, row) |}
        /\ db1 = set_customers (insert id row) db
        /\ others_with_email (c_email row) id db = ∅
        /\ (truthy_string (ud_email data) = true ->
            others_with_email (default "" (ud_email data)) id db = ∅)
        /\ List.filter is_defined
             [ud_first_name data; ud_last_name data; ud_email data;
              ud_phone data; ud_address data] <> []).
Proof.
  unfold updateCustomer. unfold bind at 1. unfold read. intros H.
  destruct (customers db !! id) as [c|] eqn:Hc;
    [|cbn in H; injection H as <- <-; left; eauto].
  unfold bind at 1 in H.
  destruct (check_other_email_cases id data db)
    as [[Hstep Hcheck]|[Hstep _]]; rewrite Hstep in H;
    [|injection H as <- <-; left; eauto].
  unfold bind, guard in H.
  destruct (List.filter is_defined
              [ud_first_name data; ud_last_name data; ud_email data;
               ud_phone data; ud_address data]) as [|f fs] eqn:Hfields;
    cbn [length Nat.eqb negb throw ret] in H.
  { injection H as <- <-. left. eauto. }
  unfold update_customer in H. rewrite Hc in H.
  destruct (updated_customer env data c) as [row|] eqn:Hrow;
    [|injection H as <- <-; left; eauto].
  destruct (bool_decide (others_with_email (c_email row) id db = ∅))
    eqn:Hun; cbn [negb] in H; [|injection H as <- <-; left; eauto].
  apply bool_decide_eq_true_1 in Hun.
  injection H as <- <-. right. exists c, row. split_and!; auto.
Qed.

Lemma others_with_email_empty email id db j c :
  others_with_email email id db = ∅ ->
  customers db !! j = Some c -> j <> id -> c_email c <> email.
Proof.
  intros He Hj Hne Heq.
  assert (H : others_with_email email id db !! j = Some c)
    by (apply map_lookup_filter_Some_2; [exact Hj|cbn; auto]).
  rewrite He, lookup_empty in H. discriminate.
Qed.

(** X23.  [updateCustomer] keeps the e-mail addresses of the customers
    distinct, and a call that fails leaves the store as it was. *)
Theorem updateCustomer_emails_unique env id data db r db1 :
  updateCustomer env id data db = (r, db1) ->
  emails_unique db ->
  emails_unique db1 /\ (forall e, r = inl e -> db1 = db).
Proof.
  intros H Hinv. apply updateCustomer_cases in H as [[-> _]|H]; [auto|].
  destruct H as (c & row & Hc & Hrow & -> & -> & Hun & _).
  split; [|discriminate].
  intros i j ci cj Hi Hj Heq. cbn [customers set_customers] in Hi, Hj.
  destruct (decide (i = id)) as [->|Hni], (decide (j = id)) as [->|Hnj];
    [reflexivity| | |].
  - rewrite lookup_insert_eq in Hi. injection Hi as <-.
    rewrite lookup_insert_ne in Hj by congruence.
    exfalso. apply (others_with_email_empty _ _ _ _ _ Hun Hj Hnj). congruence.
  - rewrite lookup_insert_eq in Hj. injection Hj as <-.
    rewrite lookup_insert_ne in Hi by congruence.
    exfalso. apply (others_with_email_empty _ _ _ _ _ Hun Hi Hni). congruence.
  - rewrite lookup_insert_ne in Hi, Hj by congruence. eauto.
Qed.

Lemma updateCustomer_emails_unique_witness :
  emails_unique
    (updateCustomer sample_env customer1
       {| ud_first_name := None; ud_last_name := None;
          ud_email := Some "luis@correo.test"; ud_phone := Some "5550100";
          ud_address := None |} (sample_db 10)).2.
Proof.
  apply (updateCustomer_emails_unique sample_env customer1
           {| ud_first_name := None; ud_last_name := None;
              ud_email := Some "luis@correo.test"; ud_phone := Some "5550100";
              ud_address := None |} (sample_db 10)
           (updateCustomer sample_env customer1
              {| ud_first_name := None; ud_last_name := None;
                 ud_email := Some "luis@correo.test";
                 ud_phone := Some "5550100";
                 ud_address := None |} (sample_db 10)).1).
  - vm_compute. reflexivity.
  - intros i j ci cj Hi Hj _. unfold sample_db in Hi, Hj.
    cbn [customers] in Hi, Hj.
    apply lookup_singleton_Some in Hi as [<- _].
    apply lookup_singleton_Some in Hj as [<- _]. reflexivity.
Defined.

(** X24.  An update that succeeded can be sent again, at any later
    moment: the second call succeeds, and its row differs from the row of
    the first call in [updated_at] only, which is the moment of the
    second call; nothing else in the store changes.  Sent at the same
    moment, the second call gives the same answer and the same store.  In
    particular a customer may be updated to the e-mail address it already
    has. *)
Theorem updateCustomer_idempotent env env2 id data db resp db1 :
  updateCustomer env id data db = (inr resp, db1) ->
  exists row,
    cr_customer resp = Some (id, row)
    /\ c_updated_at row = now env
    /\ updateCustomer env2 id data db1
       = (inr {| cr_status := 200;
                 cr_message := "Cliente actualizado exitosamente";
                 cr_customer :=
                   Some (id, set_updated_at (now env2) row) |},
          set_customers (insert id (set_updated_at (now env2) row)) db1)
    /\ (now env2 = now env ->
        updateCustomer env2 id data db1 = (inr resp, db1)).
Proof.
  intros H. apply updateCustomer_cases in H as [[_ [e H]]|H];
    [discriminate H|].
  destruct H as (c & row & Hc & Hrow & Hr & -> & Hun & Hcheck & Hfields).
  injection Hr as ->. exists row. cbn [cr_customer].
  destruct (updated_customer_at _ _ _ _ Hrow) as [Hat _].
  assert (Hrun : updateCustomer env2 id data
                   (set_customers (insert id row) db)
                 = (inr {| cr_status := 200;
                           cr_message := "Cliente actualizado exitosamente";
                           cr_customer :=
                             Some (id, set_updated_at (now env2) row) |},
                    set_customers
                      (insert id (set_updated_at (now env2) row))
                      (set_customers (insert id row) db))).
  { unfold updateCustomer. unfold bind at 1. unfold read.
    cbn [customers set_customers]. rewrite lookup_insert_eq.
    unfold bind at 1.
    destruct (check_other_email_cases id data
                (set_customers (insert id row) db))
      as [[Hstep _]|[_ [Ht Hne]]].
    2:{ rewrite others_with_email_insert in Hne.
        contradiction (Hne (Hcheck Ht)). }
    rewrite Hstep. unfold bind, guard.
    destruct (List.filter is_defined
                [ud_first_name data; ud_last_name data; ud_email data;
                 ud_phone data; ud_address data]) as [|f fs];
      [contradiction|].
    cbn [length Nat.eqb negb ret]. unfold update_customer.
    cbn [customers set_customers]. rewrite lookup_insert_eq.
    rewrite (updated_customer_idem _ env2 _ _ _ Hrow).
    change (c_email (set_updated_at (now env2) row)) with (c_email row).
    rewrite others_with_email_insert.
    rewrite (bool_decide_eq_true_2 _ Hun). cbn [negb ret]. reflexivity. }
  split_and!; [reflexivity|exact Hat|exact Hrun|].
  intros Hnow. rewrite Hrun, Hnow, <- Hat, set_updated_at_same.
  unfold set_customers. cbn [users products customers sales sale_images].
  rewrite insert_insert_eq. reflexivity.
Qed.

Lemma updateCustomer_idempotent_witness :
  exists row,
    (updateCustomer sample_env2 customer1
       {| ud_first_name := None; ud_last_name := None;
          ud_email := Some "luis@correo.test"; ud_phone := Some "5550100";
          ud_address := None |}
       (updateCustomer sample_env customer1
          {| ud_first_name := None; ud_last_name := None;
             ud_email := Some "luis@correo.test";
             ud_phone := Some "5550100";
             ud_address := None |} (sample_db 10)).2).1
    = inr {| cr_status := 200;
             cr_message := "Cliente actualizado exitosamente";
             cr_customer :=
               Some (customer1, set_updated_at (now sample_env2) row) |}
    /\ c_updated_at row = now sample_env
    /\ c_phone row = Some "5550100".
Proof.
  destruct (updateCustomer sample_env customer1
              {| ud_first_name := None; ud_last_name := None;
                 ud_email := Some "luis@correo.test";
                 ud_phone := Some "5550100";
                 ud_address := None |} (sample_db 10))
    as [[e|resp] db1] eqn:E.
  - exfalso. vm_compute in E. discriminate E.
  - destruct (updateCustomer_idempotent sample_env sample_env2 _ _ _ _ _ E)
      as (row & Hresp & Hat & Hrun & _).
    exists row. cbn [snd]. rewrite Hrun. cbn [fst].
    split; [reflexivity|]. split; [exact Hat|].
    vm_compute in E. injection E as <- _. cbn in Hresp.
    injection Hresp as <-. reflexivity.
Defined.

(** ** Numbers in query strings: [parseInt] reads back what was printed *)

Lemma pretty_N_char_value d :
  (d < 10)%N -> digit_value 10 (pretty_N_char d) = Some (Z.of_N d).
Proof.
  intros Hd. destruct d as [|p]; [reflexivity|].
  do 4 (try destruct p as [p|p|]); try reflexivity; lia.
Qed.

Lemma read_digits_pretty_N_go x :
  exists k : nat, forall a s,
    read_digits 10 (Some a) (String.list_ascii_of_string (pretty_N_go x s))
    = read_digits 10 (Some (a * 10 ^ Z.of_nat k + Z.of_N x))
        (String.list_ascii_of_string s).
Proof.
  induction (N.lt_wf_0 x) as [x _ IH].
  destruct (N.eq_dec x 0%N) as [->|Hx].
  - exists 0%nat. intros a s. rewrite pretty_N_go_0. f_equal. f_equal. lia.
  - destruct (IH (x `div` 10)%N ltac:(apply N.div_lt; lia)) as [k Hk].
    exists (S k). intros a s. rewrite pretty_N_go_step by lia.
    rewrite Hk. cbn [String.list_ascii_of_string read_digits].
    rewrite pretty_N_char_value by (apply N.mod_lt; lia).
    cbn [default]. f_equal. f_equal.
    rewrite Nat2Z.inj_succ, Z.pow_succ_r by lia.
    pose proof (N.div_mod x 10 ltac:(lia)) as Hdm.
    apply (f_equal Z.of_N) in Hdm.
    rewrite N2Z.inj_add, N2Z.inj_mul in Hdm. change (Z.of_N 10) with 10 in Hdm.
    replace (a * (10 * 10 ^ Z.of_nat k)) with (a * 10 ^ Z.of_nat k * 10)
      by ring.
    unfold id. lia.
Qed.

Lemma read_digits_start l :
  l <> [] -> forallb is_digit l = true ->
  read_digits 10 None l = read_digits 10 (Some 0) l.
Proof.
  destruct l as [|c l]; [contradiction|]. intros _ Hall.
  cbn [forallb] in Hall. apply andb_prop in Hall as [Hc _].
  cbn [read_digits].
  destruct c as [[] [] [] [] [] [] [] []]; try discriminate Hc; reflexivity.
Qed.

(** A text of decimal digits has no sign, no blank and no radix prefix
    for [parseInt] to take off. *)
Lemma parseInt_digits l :
  l <> [] -> forallb is_digit l = true ->
  parseInt (String.string_of_list_ascii l) = 
  match read_digits 10 (Some 0) l with
  | Some n => Some (1 * n)
  | None => None
  end.
Proof.
  intros Hne Hall. unfold parseInt.
  rewrite String.list_ascii_of_string_of_list_ascii.
  rewrite <- (read_digits_start l Hne Hall).
  destruct l as [|c l]; [contradiction|].
  cbn [forallb] in Hall. apply andb_prop in Hall as [Hc Hl].
  destruct c as [[] [] [] [] [] [] [] []]; try discriminate Hc;
    try reflexivity.
  destruct l as [|c2 l]; [reflexivity|].
  cbn [forallb] in Hl. apply andb_prop in Hl as [Hc2 _].
  destruct c2 as [[] [] [] [] [] [] [] []]; try discriminate Hc2;
    reflexivity.
Qed.

Lemma parseInt_pretty (z : Z) : 0 <= z -> parseInt (pretty z) = Some z.
Proof.
  intros Hz.
  assert (Hchars : String.list_ascii_of_string (pretty z) <> []
                   /\ forallb is_digit (String.list_ascii_of_string (pretty z))
                      = true
                   /\ read_digits 10 (Some 0)
                        (String.list_ascii_of_string (pretty z)) = Some z).
  { destruct z as [|p|p]; [cbn; auto| |lia].
    change (pretty (Z.pos p)) with (pretty (N.pos p)).
    unfold pretty, pretty_N. destruct (decide (N.pos p = 0%N)); [lia|].
    split_and!.
    - pose proof (pretty_N_nonempty (N.pos p)) as Hne.
      unfold pretty, pretty_N in Hne.
      destruct (decide (N.pos p = 0%N)); [lia|].
      destruct (pretty_N_go (N.pos p) ""); [contradiction|discriminate].
    - apply pretty_N_go_digits. reflexivity.
    - destruct (read_digits_pretty_N_go (N.pos p)) as [k Hk].
      rewrite Hk. cbn. reflexivity. }
  destruct Hchars as (Hne & Hall & Hval).
  rewrite <- (String.string_of_list_ascii_of_string (pretty z)).
  rewrite (parseInt_digits _ Hne Hall), Hval. f_equal. lia.
Qed.

(** ** The sales of a customer, page by page *)

Global Instance by_sale_date_desc_trans : Transitive by_sale_date_desc.
Proof. unfold by_sale_date_desc. intros a b c. lia. Qed.

Global Instance by_sale_date_desc_total : Total by_sale_date_desc.
Proof. unfold by_sale_date_desc. intros a b. lia. Qed.

Lemma concat_pages {A} (l : list A) (n k : nat) :
  concat ((fun i => take n (drop (i * n) l)) <$> seq 0 k) = take (k * n) l.
Proof.
  induction k as [|k IH]; [reflexivity|].
  rewrite seq_S, fmap_app, concat_app, IH. cbn [fmap list_fmap concat].
  rewrite app_nil_r, take_take_drop. f_equal. lia.
Qed.

(** The rows a query selects are as many as the rows of the table that
    it selects from. *)
Lemma length_omap_filter {A B} (f : string * A -> option B)
    (P : string * A -> Prop) `{!forall x, Decision (P x)} (m : gmap string A) :
  (forall i x, m !! i = Some x -> (is_Some (f (i, x)) <-> P (i, x))) ->
  length (omap f (map_to_list m)) = size (filter P m).
Proof.
  induction m as [|i x m Hi IH] using map_ind; intros Hf.
  - rewrite map_to_list_empty, map_filter_empty, map_size_empty. reflexivity.
  - rewrite (omap_Permutation _ _ _ (map_to_list_insert m i x Hi)).
    cbn [omap list_omap]. rewrite map_filter_insert.
    assert (IH' : length (omap f (map_to_list m)) = size (filter P m)).
    { apply IH. intros j y Hj. apply Hf. rewrite lookup_insert_ne; [exact Hj|].
      intros ->. rewrite Hi in Hj. discriminate. }
    pose proof (Hf i x (lookup_insert_eq m i x)) as Hix.
    destruct (decide (P (i, x))) as [HP|HP].
    + destruct (f (i, x)) as [b|]; [|apply Hix in HP as [? ?]; discriminate].
      cbn [length]. rewrite map_size_insert_None; [lia|].
      apply map_lookup_filter_None_2. left. exact Hi.
    + destruct (f (i, x)) as [b|]; [exfalso; apply HP, Hix; eauto|].
      rewrite delete_id by exact Hi. exact IH'.
Qed.

Lemma customer_sale_row_Some customerId db id s row :
  customer_sale_row customerId db (id, s) = Some row ->
  s_customer_id s = customerId /\ csr_id row = id
  /\ csr_sale_date row = s_sale_date s.
Proof.
  unfold customer_sale_row.
  destruct (products db !! s_product_id s); [|discriminate].
  destruct (users db !! s_seller_id s); [|discriminate].
  destruct (String.eqb_spec (s_customer_id s) customerId); [|discriminate].
  intros [= <-]. cbn. auto.
Qed.

Lemma customer_sale_row_is_Some customerId db id s :
  sales_refs_ok db -> sales db !! id = Some s ->
  is_Some (customer_sale_row customerId db (id, s))
  <-> s_customer_id s = customerId.
Proof.
  intros Hfk Hs. split.
  - intros [row Hrow]. apply customer_sale_row_Some in Hrow. tauto.
  - intros Hc. destruct (Hfk id s Hs) as ([p Hp] & _ & [u Hu]).
    unfold customer_sale_row. rewrite Hp, Hu.
    destruct (String.eqb_spec (s_customer_id s) customerId);
      [eauto|contradiction].
Qed.

Lemma StronglySorted_strengthen {A} (R R' : relation A) (l : list A) :
  (forall a b, a ∈ l -> b ∈ l -> a <> b -> R a b -> R' a b) ->
  NoDup l -> StronglySorted R l -> StronglySorted R' l.
Proof.
  intros Hstr Hnd Hs. induction Hs as [|x l Hs IH Hall]; [constructor|].
  apply NoDup_cons in Hnd as [Hx Hnd]. constructor.
  - apply IH; [|exact Hnd]. intros a b Ha Hb. apply Hstr; now right.
  - rewrite Forall_forall in Hall |- *. intros y Hy.
    apply Hstr; [now left|now right| |apply Hall, Hy].
    intros ->. contradiction.
Qed.

Lemma ceil_div_covers total limit :
  0 <= total -> 1 <= limit ->
  0 <= ceil_div total limit /\ total <= ceil_div total limit * limit.
Proof. unfold ceil_div. intros. split; div_lia. Qed.

(** X25.  The sales history of a customer in pages.  With the foreign keys
    of the sales in place and the customer's sales on distinct dates,
    the query behind [getCustomerSales] lists each sale of the customer
    once, from the latest to the earliest; the request for page [p] of
    [limit] rows returns rows [(p-1)*limit] up to [p*limit] of that list,
    with the total, the number of pages and the neighbour flags; and the
    pages from 1 to the last, one after the other, are the whole list. *)
Theorem getCustomerSales_pages id db c limit :
  customers db !! id = Some c ->
  sales_refs_ok db ->
  (forall i j si sj,
     sales db !! i = Some si -> sales db !! j = Some sj ->
     s_customer_id si = id -> s_customer_id sj = id ->
     s_sale_date si = s_sale_date sj -> i = j) ->
  1 <= limit ->
  let all := customer_sales_rows id db in
  let pages := ceil_div (Z.of_nat (length all)) limit in
  (forall sid, sid ∈ csr_id <$> all <->
     exists s, sales db !! sid = Some s /\ s_customer_id s = id)
  /\ StronglySorted (fun a b => csr_sale_date b < csr_sale_date a) all
  /\ (forall p, 1 <= p ->
        exists resp,
          getCustomerSales id (Some (pretty p)) (Some (pretty limit)) db
          = inr resp
          /\ cs_data resp
             = take (Z.to_nat limit) (drop (Z.to_nat ((p - 1) * limit)) all)
          /\ pg_total (cs_pagination resp) = Z.of_nat (length all)
          /\ pg_pages (cs_pagination resp) = pages
          /\ pg_hasNext (cs_pagination resp) = (p <? pages)
          /\ pg_hasPrev (cs_pagination resp) = (1 <? p))
  /\ concat (page_rows id limit db
               <$> (Z.of_nat <$> seq 1 (Z.to_nat pages))) = all.
Proof.
  intros Hc Hfk Hdates Hlimit all pages.
  destruct (query_rows_spec by_sale_date_desc (customer_sale_row id db)
              csr_id (sales db)) as (Hmem & Hnd & Hsort).
  { intros [k s] b Hb. apply customer_sale_row_Some in Hb. tauto. }
  fold (customer_sales_rows id db) in Hmem, Hnd, Hsort. fold all in Hmem, Hnd, Hsort.
  assert (Hlen : Z.of_nat (count_sales_of_customer id db)
                 = Z.of_nat (length all)).
  { f_equal. unfold count_sales_of_customer, all, customer_sales_rows.
    rewrite merge_sort_Permutation. symmetry.
    apply length_omap_filter. intros i s Hs. cbn [snd].
    apply customer_sale_row_is_Some; assumption. }
  assert (Hpage : forall p, 1 <= p ->
            getCustomerSales id (Some (pretty p)) (Some (pretty limit)) db
            = inr {| cs_message :=
                       "Historial de ventas de "
                       +:+ (c_first_name c +:+ " " +:+ c_last_name c);
                     cs_data :=
                       take (Z.to_nat limit)
                         (drop (Z.to_nat ((p - 1) * limit)) all);
                     cs_pagination :=
                       {| pg_page := p; pg_limit := limit;
                          pg_total := Z.of_nat (length all);
                          pg_pages := pages; pg_hasNext := p <? pages;
                          pg_hasPrev := 1 <? p |} |}).
  { intros p Hp. unfold getCustomerSales, parseInt_param.
    rewrite !parseInt_pretty by lia. unfold or_number.
    destruct (Z.eqb_spec p 0); [lia|]. destruct (Z.eqb_spec limit 0); [lia|].
    rewrite Hc. unfold customer_sales_page.
    destruct (Z.ltb_spec ((p - 1) * limit) 0); [nia|].
    destruct (Z.ltb_spec limit 0); [lia|].
    rewrite Hlen. reflexivity. }
  split_and!.
  - intros sid. rewrite list_elem_of_fmap. split.
    + intros (row & -> & Hrow). apply Hmem in Hrow as (k & s & Hs & Hrow).
      apply customer_sale_row_Some in Hrow as (Hcu & -> & _). eauto.
    + intros (s & Hs & Hcu).
      destruct (proj2 (customer_sale_row_is_Some id db sid s Hfk Hs) Hcu)
        as [row Hrow].
      exists row. split; [|apply Hmem; eauto].
      apply customer_sale_row_Some in Hrow. symmetry. tauto.
  - apply (StronglySorted_strengthen by_sale_date_desc); [| |exact Hsort].
    + intros a b Ha Hb Hab Hle. unfold by_sale_date_desc in Hle.
      apply Hmem in Ha as (i & si & Hsi & Hra).
      apply Hmem in Hb as (j & sj & Hsj & Hrb).
      pose proof (customer_sale_row_Some _ _ _ _ _ Hra) as (Hci & Hia & Hda).
      pose proof (customer_sale_row_Some _ _ _ _ _ Hrb) as (Hcj & Hib & Hdb).
      destruct (Z.eq_dec (csr_sale_date a) (csr_sale_date b)) as [Heq|]; [|lia].
      exfalso. apply Hab.
      assert (i = j) by (apply (Hdates i j si sj); congruence).
      subst j. congruence.
    + eapply NoDup_fmap_1, Hnd.
  - intros p Hp. eexists. split; [apply Hpage, Hp|]. cbn. auto.
  - destruct (ceil_div_covers (Z.of_nat (length all)) limit ltac:(lia) Hlimit)
      as [Hpages Hcover]. fold pages in Hpages, Hcover.
    rewrite <- fmap_S_seq, <- !list_fmap_compose.
    rewrite (list_fmap_ext _
               (fun i => take (Z.to_nat limit)
                           (drop (i * Z.to_nat limit) all))).
    + rewrite concat_pages. apply take_ge.
      apply Nat2Z.inj_le. rewrite Nat2Z.inj_mul, !Z2Nat.id by lia.
      exact Hcover.
    + intros i x _. cbn. unfold page_rows.
      rewrite Hpage by lia. cbn [cs_data]. do 2 f_equal.
      rewrite Z2Nat.inj_mul by lia. f_equal. lia.
Qed.

Lemma getCustomerSales_pages_witness :
  concat (page_rows customer1 3 sample_db_four <$> [1; 2])
  = customer_sales_rows customer1 sample_db_four
  /\ csr_id <$> page_rows customer1 3 sample_db_four 1 = [sale2; sale4; sale3]
  /\ csr_id <$> page_rows customer1 3 sample_db_four 2 = [sale1].
Proof.
  assert (Hc : customers sample_db_four !! customer1 = Some sample_customer)
    by (vm_compute; reflexivity).
  assert (Hfk : sales_refs_ok sample_db_four).
  { assert (H : map_Forall
                  (fun _ s =>
                     is_Some (products sample_db_four !! s_product_id s)
                     /\ is_Some (customers sample_db_four !! s_customer_id s)
                     /\ is_Some (users sample_db_four !! s_seller_id s))
                  (sales sample_db_four))
      by (apply (bool_decide_unpack _); vm_compute; reflexivity).
    intros id s Hs. exact (H id s Hs). }
  assert (Hdates : forall i j si sj,
            sales sample_db_four !! i = Some si ->
            sales sample_db_four !! j = Some sj ->
            s_customer_id si = customer1 -> s_customer_id sj = customer1 ->
            s_sale_date si = s_sale_date sj -> i = j).
  { assert (H : map_Forall
                  (fun i si =>
                     map_Forall
                       (fun j sj => s_sale_date si = s_sale_date sj -> i = j)
                       (sales sample_db_four))
                  (sales sample_db_four))
      by (apply (bool_decide_unpack _); vm_compute; reflexivity).
    intros i j si sj Hi Hj _ _. exact (H i si Hi j sj Hj). }
  assert (Hl : 1 <= 3) by lia.
  destruct (getCustomerSales_pages customer1 sample_db_four sample_customer 3
              Hc Hfk Hdates Hl) as (_ & _ & _ & Hcat).
  split; [exact Hcat|]. split; vm_compute; reflexivity.
Defined.

(** ** The error middleware *)

(** X26.  For a thrown object that carries a [code], the answer of the
    error middleware depends on the code alone: name, message, status and
    the operational flag of the object are ignored.  A unique violation is
    a 409, a foreign-key, not-null or check violation a 400, any other
    code a 500 with the text of the database error. *)
Theorem errorHandler_by_code err code :
  e_code err = Some code ->
  code <> "" ->
  errorHandler err
  = if String.eqb code "23505"
    then {| res_status := 409;
            res_error := "Ya existe un recurso con esos datos" |}
    else if String.eqb code "23503"
    then {| res_status := 400;
            res_error := "Referencias a datos inexistentes" |}
    else if String.eqb code "23502"
    then {| res_status := 400; res_error := "Faltan campos requeridos" |}
    else if String.eqb code "23514"
    then {| res_status := 400;
            res_error := "Datos no cumplen las restricciones" |}
    else {| res_status := 500; res_error := "Error en la base de datos" |}.
Proof.
  intros Hcode Hne. unfold errorHandler. rewrite Hcode.
  rewrite (truthy_string_Some _ Hne), orb_true_r.
  change (default "" (Some code)) with code.
  repeat (destruct (String.eqb code _); [reflexivity|]). reflexivity.
Qed.

Lemma errorHandler_by_code_witness :
  errorHandler {| e_name := "JsonWebTokenError";
                  e_message := "duplicate key value violates unique constraint";
                  e_code := Some "23503"; e_statusCode := Some 418;
                  e_isOperational := true |}
  = {| res_status := 400; res_error := "Referencias a datos inexistentes" |}.
Proof.
  apply (errorHandler_by_code _ "23503"); [reflexivity|discriminate].
Defined.

(** X27.  What the application throws itself.  An error of one of its
    classes reaches the client with its own status and message, and a
    plain [Error] with status 500 and a fixed text that hides its message;
    unless the message contains ['duplicate key value'], which turns
    either into a 409 ['Recurso ya existe']. *)
Theorem errorHandler_application_errors cls message statusCode :
  statusCode <> 0 ->
  (includes "duplicate key value" message = false ->
   errorHandler (error_object (CustomError cls message statusCode))
   = {| res_status := statusCode; res_error := message |}
   /\ errorHandler (error_object (JsError message))
      = {| res_status := 500; res_error := "Error interno del servidor" |})
  /\ (includes "duplicate key value" message = true ->
      errorHandler (error_object (CustomError cls message statusCode))
      = {| res_status := 409; res_error := "Recurso ya existe" |}
      /\ errorHandler (error_object (JsError message))
         = {| res_status := 409; res_error := "Recurso ya existe" |}).
Proof.
  intros Hst. split; intros Hdup.
  - rewrite errorHandler_custom, Hdup. unfold errorHandler, or_number.
    cbn [error_object e_message e_name e_code]. rewrite Hdup.
    destruct (Z.eqb_spec statusCode 0); [contradiction|]. split; reflexivity.
  - rewrite errorHandler_custom, Hdup. unfold errorHandler.
    cbn [error_object e_message e_name e_code]. rewrite Hdup.
    split; reflexivity.
Qed.

Lemma errorHandler_application_errors_witness :
  errorHandler (error_object (ValidationError "Imagen requerida"))
  = {| res_status := 400; res_error := "Imagen requerida" |}
  /\ errorHandler (error_object (JsError "Imagen requerida"))
     = {| res_status := 500; res_error := "Error interno del servidor" |}.
Proof.
  assert (Hst : 400 <> 0) by lia.
  apply (proj1 (errorHandler_application_errors ValidationErrorC
                  "Imagen requerida" 400 Hst)).
  vm_compute. reflexivity.
Defined.

(** ** The [Authorization] header *)

Lemma split_on_cons sep l : exists part parts, split_on sep l = part :: parts.
Proof.
  destruct l as [|c l]; [cbn; eauto|]. cbn.
  destruct (Ascii.eqb c sep); [eauto|].
  destruct (split_on sep l); eauto.
Qed.

Lemma split_on_one sep l a :
  split_on sep l = [a] -> l = a /\ sep ∉ a.
Proof.
  revert a. induction l as [|c l IH]; intros a H.
  - cbn in H. injection H as <-. split; [reflexivity|]. apply not_elem_of_nil.
  - cbn in H. destruct (Ascii.eqb_spec c sep) as [->|Hc].
    + destruct (split_on_cons sep l) as (p & ps & Hp). rewrite Hp in H.
      discriminate.
    + destruct (split_on sep l) as [|p ps] eqn:Hp.
      * destruct (split_on_cons sep l) as (? & ? & ?). congruence.
      * injection H as Ha Hps. subst a ps.
        destruct (IH p eq_refl) as [Hl Hno]. subst l.
        split; [reflexivity|]. rewrite not_elem_of_cons. auto.
Qed.

Lemma split_on_two sep l a b :
  split_on sep l = [a; b] ->
  l = (a ++ sep :: b) /\ (sep ∉ a) /\ (sep ∉ b).
Proof.
  revert a. induction l as [|c l IH]; intros a H; [discriminate|].
  cbn in H. destruct (Ascii.eqb_spec c sep) as [->|Hc].
  - injection H as <- H. apply split_on_one in H as [-> Hno].
    split_and!; [reflexivity|apply not_elem_of_nil|exact Hno].
  - destruct (split_on sep l) as [|p ps] eqn:Hp; [discriminate|].
    injection H as Ha Hps. subst a ps.
    destruct (IH p eq_refl) as (Hl & Ha & Hb). subst l.
    split_and!; [reflexivity| |exact Hb]. rewrite not_elem_of_cons. auto.
Qed.

Lemma split_on_none sep b : sep ∉ b -> split_on sep b = [b].
Proof.
  induction b as [|c b IH]; intros Hno; [reflexivity|].
  apply not_elem_of_cons in Hno as [Hc Hno]. cbn.
  destruct (Ascii.eqb_spec c sep) as [->|_]; [contradiction|].
  rewrite (IH Hno). reflexivity.
Qed.

Lemma split_on_app sep a rest :
  sep ∉ a -> split_on sep (a ++ sep :: rest) = a :: split_on sep rest.
Proof.
  induction a as [|c a IH]; intros Hno.
  - cbn. rewrite Ascii.eqb_refl. reflexivity.
  - apply not_elem_of_cons in Hno as [Hc Hno]. cbn.
    destruct (Ascii.eqb_spec c sep) as [->|_]; [contradiction|].
    rewrite (IH Hno). reflexivity.
Qed.

(** X28.  [extractTokenFromHeader] returns a token exactly for a header of
    the form ['Bearer ' + token] where the token has no blank in it (it may
    be empty); an absent header, another scheme, or more than one blank
    give [null]. *)
Theorem extractTokenFromHeader_spec authHeader token :
  extractTokenFromHeader authHeader = Some token
  <-> authHeader = Some ("Bearer " +:+ token)
      /\ " "%char ∉ String.list_ascii_of_string token.
Proof.
  unfold extractTokenFromHeader. split.
  - destruct (truthy_string authHeader) eqn:Ht; [|discriminate].
    destruct authHeader as [h|]; [|discriminate]. cbn [negb default].
    unfold id.
    destruct (split_on " "%char (String.list_ascii_of_string h))
      as [|a [|b [|c parts]]] eqn:Hsplit; cbn; try discriminate.
    destruct (String.eqb_spec (String.string_of_list_ascii a) "Bearer")
      as [Ha|]; [|discriminate].
    cbn. intros [= <-].
    apply split_on_two in Hsplit as (Hh & _ & Hb).
    rewrite String.list_ascii_of_string_of_list_ascii. split; [|exact Hb].
    f_equal. rewrite <- (String.string_of_list_ascii_of_string h), Hh.
    apply (f_equal String.list_ascii_of_string) in Ha.
    rewrite String.list_ascii_of_string_of_list_ascii in Ha. rewrite Ha.
    reflexivity.
  - intros [-> Hno].
    change (truthy_string (Some ("Bearer " +:+ token))) with true.
    cbn [negb default]. unfold id.
    change (String.list_ascii_of_string ("Bearer " +:+ token))
      with (String.list_ascii_of_string "Bearer" ++
            " "%char :: String.list_ascii_of_string token).
    rewrite split_on_app
      by (intros Hin; repeat (apply elem_of_cons in Hin as [Hin|Hin];
                              [discriminate|]); inversion Hin).
    rewrite (split_on_none _ _ Hno). cbn.
    rewrite String.string_of_list_ascii_of_string. reflexivity.
Qed.

(** ** The strength of a password *)

(** X29.  The verdicts of [validatePasswordStrength] fit together: each
    rule that is not met adds exactly one message; a valid password has at
    least eight characters and is never weak, and it is strong exactly
    when it has twelve characters or more; a strong password has at least
    twelve characters and a medium one at least eight. *)
Theorem validatePasswordStrength_verdicts password :
  let v := validatePasswordStrength password in
  (pv_isValid v = true ->
   (8 <= utf16_length password)%nat
   /\ pv_strength v <> weak
   /\ (pv_strength v = strong <-> (12 <= utf16_length password)%nat))
  /\ (pv_strength v = strong -> (12 <= utf16_length password)%nat)
  /\ (pv_strength v = medium -> (8 <= utf16_length password)%nat)
  /\ (length (pv_errors v) <= 5)%nat
  /\ (pv_isValid v = true <-> pv_errors v = []).
Proof.
  unfold validatePasswordStrength.
  cbn [pv_isValid pv_errors pv_strength].
  set (chars := String.list_ascii_of_string password).
  set (n := utf16_length password).
  destruct (existsb is_lower chars), (existsb is_upper chars),
    (existsb is_digit chars), (existsb is_special chars),
    (Nat.ltb_spec n 8), (Nat.leb_spec 8 n), (Nat.leb_spec 12 n);
    try lia; cbn; split_and!; try (intros; lia); try discriminate;
    try congruence; try (split; [intros; lia|discriminate]);
    try (split; [discriminate|intros; lia]);
    try (split; congruence); try (split; discriminate); auto.
  all: intros _; split_and!; [lia|discriminate|];
    split; intros; (reflexivity || lia || congruence).
Qed.

(** ** The sales report: whose sales it shows *)

Global Instance by_report_date_desc_trans : Transitive by_report_date_desc.
Proof. unfold by_report_date_desc. intros a b c. lia. Qed.

Global Instance by_report_date_desc_total : Total by_report_date_desc.
Proof. unfold by_report_date_desc. intros a b. lia. Qed.



